(** * Perp: custodial trading backend for an omnichain perpetuals venue

    A shallow embedding of the two subsystems that carry the financial
    risk of the repository, and the properties checked against them:

    - the deposit settlement pipeline
      ([src/workers/deposit-monitor.ts], the deposit part of
      [src/services/db.service.ts], [BlockchainService.scanForDeposits]);
    - the exchange authentication core
      ([orderly-auth.ts], [orderly-api.ts], [orderly-errors.ts],
      [orderly-wallet.ts], [wallet.service.ts], [encryption.service.ts]).

    Conventions.  JavaScript [number]s that hold block heights, counters,
    error codes and millisecond timestamps are integers ([Z]); token
    amounts are exact rationals ([Q]), the model of the decimal amounts the
    source keeps in doubles.  A Firestore collection is a finite map from
    document id to document.  Everything the workers cannot control (the
    chain RPC, the venue, the store's availability, the clock) is gathered
    in a [World] record that is read, never written. *)

From Stdlib Require Import QArith ZArith Ascii String DecimalString.
From stdpp Require Import gmap strings list fin_maps.
Close Scope Q_scope.
Local Open Scope Z_scope.
Local Open Scope string_scope.

(** ** JavaScript results: a value, or a thrown [Error] with its message *)

Module Js.

Inductive Result (A : Type) : Type :=
| Ok (a : A)
| Throw (message : string).
Arguments Ok {A} a.
Arguments Throw {A} message.

Definition isOk {A} (r : Result A) : bool :=
  match r with Ok _ => true | Throw _ => false end.

End Js.
Import Js.

(** ** The chain scanner: [BlockchainService] *)

Module Chain.

(** A [Transfer] log as ethers returns it; [args] is the decoded event,
    which the source dereferences with a non-null assertion. *)
Record TransferLog := {
  transactionHash : string;
  args : option (string * Z);          (* from, value *)
  logBlockNumber : Z
}.

Record Receipt := { receiptBlockNumber : Z }.

(** One element of the array [scanForDeposits] resolves to. *)
Record Transfer := {
  txHash : string;
  from : string;
  amount : Q;
  blockNumber : Z
}.

(** The JSON-RPC endpoint and the token contract behind it. *)
Record Rpc := {
  getBlockNumber : Result Z;
  queryFilter : string -> Z -> Z -> Result (list TransferLog);
  decimals : Result Z;
  getTransactionReceipt : string -> Result (option Receipt)
}.

(** [ethers.utils.formatUnits(value, decimals)] read back by [parseFloat]. *)
Definition formatUnits (value dec : Z) : Q :=
  (inject_Z value / inject_Z (10 ^ dec))%Q.

Definition getCurrentBlock (rpc : Rpc) : Result Z := getBlockNumber rpc.

(** [getTransaction]: an RPC error is caught and answered with [null]. *)
Definition getTransaction (rpc : Rpc) (h : string) : option Receipt :=
  match getTransactionReceipt rpc h with
  | Ok r => r
  | Throw _ => None
  end.

(** [events.map(event => ...)]: throws as soon as one [event.args] is
    undefined. *)
Fixpoint mapEvents (dec : Z) (events : list TransferLog) : Result (list Transfer) :=
  match events with
  | [] => Ok []
  | e :: rest =>
      match args e with
      | None => Throw "Cannot read properties of undefined"
      | Some (sender, value) =>
          match mapEvents dec rest with
          | Ok ts =>
              Ok ({| txHash := transactionHash e; from := sender;
                     amount := formatUnits value dec;
                     blockNumber := logBlockNumber e |} :: ts)
          | Throw m => Throw m
          end
      end
  end.

(** The body of the [try] block of [scanForDeposits].  [toBlock || await
    this.getCurrentBlock()]: an absent or zero [toBlock] is falsy. *)
Definition scanForDeposits_try (rpc : Rpc) (platformAddress : string)
    (fromBlock : Z) (toBlock : option Z) : Result (list Transfer) :=
  let currentBlock :=
    match toBlock with
    | Some t => if decide (t = 0) then getCurrentBlock rpc else Ok t
    | None => getCurrentBlock rpc
    end in
  match currentBlock with
  | Throw m => Throw m
  | Ok cur =>
      match queryFilter rpc platformAddress fromBlock cur with
      | Throw m => Throw m
      | Ok events =>
          match decimals rpc with
          | Throw m => Throw m
          | Ok dec => mapEvents dec events
          end
      end
  end.

(** [scanForDeposits]: [catch (error) { console.error(...); return []; }] *)
Definition scanForDeposits (rpc : Rpc) (platformAddress : string)
    (fromBlock : Z) (toBlock : option Z) : list Transfer :=
  match scanForDeposits_try rpc platformAddress fromBlock toBlock with
  | Ok ts => ts
  | Throw _ => []
  end.

End Chain.

(** ** The store, the ledger and the deposit worker *)

Module Deposits.
Import Chain.

Inductive DepositStatus := pending | confirmed | credited | failed.

#[export] Instance DepositStatus_eq_dec : EqDecision DepositStatus.
Proof. solve_decision. Defined.

(** [models/deposit.ts]; the document id is the key of the collection. *)
Record Deposit := {
  userId : string;
  twitterHandle : string;
  depTxHash : string;
  depAmount : Q;
  fromAddress : string;
  toAddress : string;
  depBlockNumber : Z;
  confirmations : Z;
  requiredConfirmations : Z;
  status : DepositStatus;
  orderlyConfirmed : bool;
  detectedAt : Z;
  confirmedAt : option Z;
  creditedAt : option Z;
  errorMessage : option string;
  retryCount : Z
}.

Record PlatformWallet := {
  address : string;
  network : string;
  lastScannedBlock : Z
}.

(** The fields of [models/user.ts] the pipeline reads or writes. *)
Record User := {
  userHandle : string;
  accountId : string;
  encryptedOrderlyPrivateKey : string;
  internalBalance : Q;
  totalDeposits : Q;
  lastActivityAt : Z
}.

Record Db := {
  deposits : gmap string Deposit;
  users : gmap string User;
  platform_wallets : gmap string PlatformWallet
}.

(** One entry per Firestore round trip of the [DbService] methods the
    worker calls; the world decides which of them throw. *)
Inductive DbOp :=
| OpGetPlatformWallet
| OpUpdatePlatformWalletBlock (walletId : string) (blockNumber : Z)
| OpGetDepositByTxHash (h : string)
| OpAddDeposit (h : string)
| OpReadDeposit (depositId : string)
| OpGetPendingDeposits
| OpUpdateDepositStatus (depositId : string) (st : DepositStatus)
| OpGetUserById (uid : string)
| OpUpdateUser (uid : string).

Record World := {
  clock : Z;                                         (* Timestamp.now() *)
  rpc : Rpc;
  decrypt : string -> Result string;                (* encryption.service *)
  creditAccountBalance : string -> Q -> string -> Result unit;
  firestore : DbOp -> Result unit
}.

(** What the worker prints or sends; the observable trace of a tick. *)
Inductive Event :=
| LogScanning (fromBlock toBlock : Z)
| LogRecorded (depositId : string) (st : DepositStatus)
| LogCreditedInternal (uid : string) (amt : Q)
| LogCreditedOrderly (account : string) (amt : Q)
| LogAlert (depositId : string) (times : Z)
| LogError (message : string).

(** *** A state-and-exception monad over the store, with a trace *)

Definition M (A : Type) : Type := Db -> Result A * Db * list Event.

Definition ret {A} (a : A) : M A := fun db => (Ok a, db, []).

Definition throw {A} (message : string) : M A := fun db => (Throw message, db, []).

Definition bind {A B} (m : M A) (k : A -> M B) : M B :=
  fun db =>
    match m db with
    | (Ok a, db1, t1) =>
        match k a db1 with
        | (r, db2, t2) => (r, db2, (t1 ++ t2)%list)
        end
    | (Throw e, db1, t1) => (Throw e, db1, t1)
    end.

Notation "'do' x <- m ; k" := (bind m (fun x => k))
  (at level 10, x name, m at level 100, k at level 200).
Notation "'run' m ; k" := (bind m (fun _ => k))
  (at level 10, m at level 100, k at level 200).

(** [try { m } catch (e) { h e.message }] *)
Definition tryCatch {A} (m : M A) (h : string -> M A) : M A :=
  fun db =>
    match m db with
    | (Ok a, db1, t1) => (Ok a, db1, t1)
    | (Throw e, db1, t1) =>
        match h e db1 with
        | (r, db2, t2) => (r, db2, (t1 ++ t2)%list)
        end
    end.

Definition lift {A} (r : Result A) : M A := fun db => (r, db, []).

Definition emit (e : Event) : M unit := fun db => (Ok tt, db, [e]).

Definition get : M Db := fun db => (Ok db, db, []).

Definition modify (f : Db -> Db) : M unit := fun db => (Ok tt, f db, []).

(** [for (const x of xs) { body x }] *)
Fixpoint forOf {A} (xs : list A) (body : A -> M unit) : M unit :=
  match xs with
  | [] => ret tt
  | x :: rest => run body x; forOf rest body
  end.

(** *** [DbService] *)

Section DbService.
Variable w : World.

Definition call (op : DbOp) : M unit := lift (firestore w op).

Definition getUserById (uid : string) : M (option User) :=
  run call (OpGetUserById uid);
  do db <- get;
  ret (users db !! uid).

(** Firestore [update]: the named fields are overwritten; a missing
    document is an error. *)
Definition updateDoc {V} (coll : Db -> gmap string V) (id : string) : M unit :=
  do db <- get;
  match coll db !! id with
  | Some _ => ret tt
  | None => throw "NOT_FOUND: no document to update"
  end.

Definition creditUserDeposit (uid : string) (amt : Q) : M unit :=
  do user <- getUserById uid;
  match user with
  | None => throw "User not found"
  | Some u =>
      run call (OpUpdateUser uid);
      run updateDoc users uid;
      modify (fun db =>
        {| deposits := deposits db;
           users := alter (fun u0 =>
             {| userHandle := userHandle u0;
                accountId := accountId u0;
                encryptedOrderlyPrivateKey := encryptedOrderlyPrivateKey u0;
                internalBalance := (internalBalance u + amt)%Q;
                totalDeposits := (totalDeposits u + amt)%Q;
                lastActivityAt := clock w |}) uid (users db);
           platform_wallets := platform_wallets db |})
  end.

Definition setDeposits (f : gmap string Deposit -> gmap string Deposit) : M unit :=
  modify (fun db =>
    {| deposits := f (deposits db); users := users db;
       platform_wallets := platform_wallets db |}).

(** [createDeposit]: [add] under a fresh automatic id, then read back. *)
Definition createDeposit (data : Deposit) : M (string * Deposit) :=
  run call (OpAddDeposit (depTxHash data));
  do db <- get;
  let id : string := fresh (dom (deposits db)) in
  let doc :=
    {| userId := userId data; twitterHandle := twitterHandle data;
       depTxHash := depTxHash data; depAmount := depAmount data;
       fromAddress := fromAddress data; toAddress := toAddress data;
       depBlockNumber := depBlockNumber data;
       confirmations := confirmations data;
       requiredConfirmations := requiredConfirmations data;
       status := status data; orderlyConfirmed := orderlyConfirmed data;
       detectedAt := clock w;
       confirmedAt := confirmedAt data; creditedAt := creditedAt data;
       errorMessage := errorMessage data; retryCount := retryCount data |} in
  run setDeposits (insert id doc);
  run call (OpReadDeposit id);
  ret (id, doc).

Definition hasTxHash (h : string) (kv : string * Deposit) : Prop :=
  depTxHash kv.2 = h.

#[export] Instance hasTxHash_dec h kv : Decision (hasTxHash h kv).
Proof. unfold hasTxHash. apply _. Defined.

(** [where('txHash', '==', txHash).limit(1)] *)
Definition depositsWithTxHash (h : string) (db : Db) : list (string * Deposit) :=
  map_to_list (filter (hasTxHash h) (deposits db)).

Definition getDepositByTxHash (h : string) : M (option (string * Deposit)) :=
  run call (OpGetDepositByTxHash h);
  do db <- get;
  ret (head (depositsWithTxHash h db)).

Definition isPendingDeposit (kv : string * Deposit) : Prop :=
  (status kv.2 = pending \/ status kv.2 = confirmed) /\ orderlyConfirmed kv.2 = false.

#[export] Instance isPendingDeposit_dec kv : Decision (isPendingDeposit kv).
Proof. unfold isPendingDeposit. apply _. Defined.

(** [where('status', 'in', ['pending', 'confirmed'])
     .where('orderlyConfirmed', '==', false)] *)
Definition pendingDeposits (db : Db) : list (string * Deposit) :=
  map_to_list (filter isPendingDeposit (deposits db)).

Definition getPendingDeposits : M (list (string * Deposit)) :=
  run call OpGetPendingDeposits;
  do db <- get;
  ret (pendingDeposits db).

(** The partial document [updateDepositStatus] may be given on top of the
    status: the field sets the worker passes, and the one of the manual
    retry that the deposit guide documents. *)
Inductive DepositUpdate :=
| SetConfirmations (n : Z)
| SetCredited                                   (* orderlyConfirmed, creditedAt *)
| SetFailure (message : string) (retries : Z)   (* errorMessage, retryCount *)
| SetRetry.                                     (* retryCount: 0, errorMessage: null *)

Definition applyUpdate (st : DepositStatus) (u : DepositUpdate) (d : Deposit) : Deposit :=
  {| userId := userId d; twitterHandle := twitterHandle d;
     depTxHash := depTxHash d; depAmount := depAmount d;
     fromAddress := fromAddress d; toAddress := toAddress d;
     depBlockNumber := depBlockNumber d;
     confirmations :=
       match u with SetConfirmations n => n | _ => confirmations d end;
     requiredConfirmations := requiredConfirmations d;
     status := st;
     orderlyConfirmed :=
       match u with SetCredited => true | _ => orderlyConfirmed d end;
     detectedAt := detectedAt d;
     confirmedAt :=
       if decide (st = confirmed) then Some (clock w) else confirmedAt d;
     creditedAt :=
       if decide (st = credited) then Some (clock w)
       else match u with SetCredited => Some (clock w) | _ => creditedAt d end;
     errorMessage :=
       match u with
       | SetFailure m _ => Some m
       | SetRetry => None
       | _ => errorMessage d
       end;
     retryCount :=
       match u with
       | SetFailure _ n => n
       | SetRetry => 0
       | _ => retryCount d
       end |}.

Definition updateDepositStatus (id : string) (st : DepositStatus)
    (u : DepositUpdate) : M unit :=
  run call (OpUpdateDepositStatus id st);
  run updateDoc deposits id;
  setDeposits (alter (applyUpdate st u) id).

Definition isArbitrum (kv : string * PlatformWallet) : Prop :=
  network kv.2 = "arbitrum".

#[export] Instance isArbitrum_dec kv : Decision (isArbitrum kv).
Proof. unfold isArbitrum. apply _. Defined.

(** [where('network', '==', 'arbitrum').limit(1)] *)
Definition arbitrumWallet (db : Db) : option (string * PlatformWallet) :=
  head (map_to_list (filter isArbitrum (platform_wallets db))).

Definition getPlatformWallet : M (option (string * PlatformWallet)) :=
  run call OpGetPlatformWallet;
  do db <- get;
  ret (arbitrumWallet db).

Definition updatePlatformWalletBlock (walletId : string) (blockNumber : Z) : M unit :=
  run call (OpUpdatePlatformWalletBlock walletId blockNumber);
  run updateDoc platform_wallets walletId;
  modify (fun db =>
    {| deposits := deposits db; users := users db;
       platform_wallets :=
         alter (fun pw =>
           {| address := address pw; network := network pw;
              lastScannedBlock := blockNumber |}) walletId (platform_wallets db) |}).

End DbService.

(** *** The worker: [src/workers/deposit-monitor.ts] *)

Definition CONFIRMATIONS_REQUIRED : Z := 12.

Section Worker.
Variable w : World.

(** The body of the [for] loop of [scanForNewDeposits], with its own
    [try]/[catch]; like every computation in [M] it is one pass from
    its start to its end with no other writer in between. *)
Definition recordTransfer (platformAddress : string) (currentBlock : Z)
    (t : Transfer) : M unit :=
  tryCatch
    (do existing <- getDepositByTxHash w (txHash t);
     match existing with
     | Some _ => ret tt                                  (* already processed *)
     | None =>
         if Qlt_le_dec (amount t) 10 then ret tt         (* deposit too small *)
         else
           let confs := currentBlock - blockNumber t in
           let st :=
             if decide (CONFIRMATIONS_REQUIRED <= confs) then confirmed else pending in
           do rec <- createDeposit w
             {| userId := ""; twitterHandle := "";
                depTxHash := txHash t; depAmount := amount t;
                fromAddress := from t; toAddress := platformAddress;
                depBlockNumber := blockNumber t;
                confirmations := confs;
                requiredConfirmations := CONFIRMATIONS_REQUIRED;
                status := st; orderlyConfirmed := false;
                detectedAt := clock w;
                confirmedAt := None; creditedAt := None;
                errorMessage := None; retryCount := 0 |};
           emit (LogRecorded rec.1 st)
     end)
    (fun e => emit (LogError e)).

Definition scanForNewDeposits : M unit :=
  tryCatch
    (do platformWallet <- getPlatformWallet w;
     match platformWallet with
     | None => emit (LogError "Platform wallet not configured!")
     | Some (walletId, wallet) =>
         do currentBlock <- lift (getCurrentBlock (rpc w));
         let fromBlock := lastScannedBlock wallet + 1 in
         let toBlock := currentBlock in
         if decide (fromBlock > toBlock) then ret tt     (* no new blocks *)
         else
           run emit (LogScanning fromBlock toBlock);
           let found :=
             scanForDeposits (rpc w) (address wallet) fromBlock (Some toBlock) in
           run forOf found (recordTransfer (address wallet) currentBlock);
           updatePlatformWalletBlock w walletId toBlock
     end)
    (fun e => emit (LogError e)).

(** The inner [try] block of the crediting step. *)
Definition creditDeposit (id : string) (deposit : Deposit) : M unit :=
  do user <- getUserById w (userId deposit);
  match user with
  | None => throw "User not found"
  | Some u =>
      run creditUserDeposit w (userId deposit) (depAmount deposit);
      run emit (LogCreditedInternal (userId deposit) (depAmount deposit));
      do orderlyPrivateKey <- lift (decrypt w (encryptedOrderlyPrivateKey u));
      run lift (creditAccountBalance w (accountId u) (depAmount deposit)
                  orderlyPrivateKey);
      run emit (LogCreditedOrderly (accountId u) (depAmount deposit));
      updateDepositStatus w id credited SetCredited
  end.

(** Its [catch (creditError)] block. *)
Definition creditFailed (id : string) (deposit : Deposit) (message : string) : M unit :=
  run updateDepositStatus w id failed
        (SetFailure message (retryCount deposit + 1));
  if decide (3 <= retryCount deposit)
  then emit (LogAlert id (retryCount deposit + 1))
  else ret tt.

(** The block under [// Update confirmations]. *)
Definition refreshConfirmations (id : string) (deposit : Deposit) (confs : Z) : M unit :=
  if decide (confs = confirmations deposit) then ret tt
  else if decide (requiredConfirmations deposit <= confs /\ status deposit = pending)
  then updateDepositStatus w id confirmed (SetConfirmations confs)
  else updateDepositStatus w id (status deposit) (SetConfirmations confs).

(** The body of the [for] loop of [processPendingDeposits]; [deposit] is
    the snapshot the query returned, not a fresh read. *)
Definition processDeposit (entry : string * Deposit) : M unit :=
  let id := entry.1 in
  let deposit := entry.2 in
  tryCatch
    (if decide (userId deposit = "") then ret tt         (* no user linked yet *)
     else
       match getTransaction (rpc w) (depTxHash deposit) with
       | None => ret tt                                  (* transaction not found *)
       | Some tx =>
           do currentBlock <- lift (getCurrentBlock (rpc w));
           let confs := currentBlock - receiptBlockNumber tx in
           run refreshConfirmations id deposit confs;
           if decide (requiredConfirmations deposit <= confs
                      /\ orderlyConfirmed deposit = false)
           then tryCatch (creditDeposit id deposit) (creditFailed id deposit)
           else ret tt
       end)
    (fun e => emit (LogError e)).

Definition processPendingDeposits : M unit :=
  tryCatch
    (do pendingList <- getPendingDeposits w;
     forOf pendingList processDeposit)
    (fun e => emit (LogError e)).

(** [monitorDeposits]: one tick of the worker. *)
Definition monitorDeposits : M unit :=
  run scanForNewDeposits;
  processPendingDeposits.

End Worker.

(** The manual retry of the deposit guide: "update status back to
    'confirmed' ... worker will retry on next scan". *)
Definition manualRetry (w : World) (id : string) : M unit :=
  updateDepositStatus w id confirmed SetRetry.

(** The store and the trace a computation leaves. *)
Definition exec {A} (m : M A) (db : Db) : Db := (m db).1.2.
Definition trace {A} (m : M A) (db : Db) : list Event := (m db).2.

End Deposits.

(** ** Strings the way the client uses them *)

Module Text.

(** [`${n}`] and [n.toString()] for an integer. *)
Definition showZ (n : Z) : string := NilZero.string_of_int (Z.to_int n).

Definition lowerChar (c : ascii) : ascii :=
  let n := nat_of_ascii c in
  if (65 <=? n)%nat && (n <=? 90)%nat then ascii_of_nat (n + 32) else c.

(** [s.toLowerCase()] *)
Fixpoint toLowerCase (s : string) : string :=
  match s with
  | EmptyString => EmptyString
  | String c rest => String (lowerChar c) (toLowerCase rest)
  end.

(** [s.includes(needle)] *)
Fixpoint includes (s needle : string) : bool :=
  String.prefix needle s ||
  match s with
  | EmptyString => false
  | String _ rest => includes rest needle
  end.

(** [s.replace(/c/g, d)] for single characters. *)
Fixpoint replaceChar (c d : ascii) (s : string) : string :=
  match s with
  | EmptyString => EmptyString
  | String x rest =>
      String (if Ascii.eqb x c then d else x) (replaceChar c d rest)
  end.

(** [s.replace(/c+$/, '')]: drops the run of [c] that ends the string. *)
Fixpoint stripTrailing (c : ascii) (s : string) : string :=
  match s with
  | EmptyString => EmptyString
  | String x rest =>
      match stripTrailing c rest with
      | EmptyString => if Ascii.eqb x c then EmptyString else String x EmptyString
      | kept => String x kept
      end
  end.

End Text.

(** ** Venue error codes: [orderly-types.ts], [orderly-errors.ts] *)

Module OrderlyErrors.
Import Text.

(** [enum OrderlyErrorCode] *)
Definition UNKNOWN : Z := -1000.
Definition INVALID_SIGNATURE : Z := -1001.
Definition UNAUTHORIZED : Z := -1002.
Definition TOO_MANY_REQUEST : Z := -1003.
Definition UNKNOWN_PARAM : Z := -1004.
Definition INVALID_PARAM : Z := -1005.
Definition RESOURCE_NOT_FOUND : Z := -1006.
Definition DUPLICATE_REQUEST : Z := -1007.
Definition QUANTITY_TOO_HIGH : Z := -1008.
Definition CAN_NOT_WITHDRAWAL : Z := -1009.
Definition RPC_NOT_CONNECT : Z := -1011.
Definition RPC_REJECT : Z := -1012.
Definition RISK_TOO_HIGH : Z := -1101.
Definition MIN_NOTIONAL : Z := -1102.
Definition PRICE_FILTER : Z := -1103.
Definition SIZE_FILTER : Z := -1104.
Definition PERCENTAGE_FILTER : Z := -1105.
Definition LIQUIDATION_REQUEST_RATIO_TOO_SMALL : Z := -1201.
Definition LIQUIDATION_STATUS_ERROR : Z := -1202.

Record ErrorCodeInfo := {
  infoCode : Z;
  httpStatus : Z;
  name : string;
  description : string
}.

(** [ERROR_CODE_MAP], as an association list in source order. *)
Definition ERROR_CODE_MAP : list (Z * ErrorCodeInfo) :=
  [ (-1000, {| infoCode := UNKNOWN; httpStatus := 500; name := "UNKNOWN";
               description := "Unknown error or data doesn't exist" |});
    (-1001, {| infoCode := INVALID_SIGNATURE; httpStatus := 401;
               name := "INVALID_SIGNATURE";
               description := "API key/secret in wrong format" |});
    (-1002, {| infoCode := UNAUTHORIZED; httpStatus := 401; name := "UNAUTHORIZED";
               description := "Invalid, expired, revoked credentials or lack permissions" |});
    (-1003, {| infoCode := TOO_MANY_REQUEST; httpStatus := 429;
               name := "TOO_MANY_REQUEST"; description := "Rate limit exceeded" |});
    (-1004, {| infoCode := UNKNOWN_PARAM; httpStatus := 400; name := "UNKNOWN_PARAM";
               description := "Unknown parameter sent" |});
    (-1005, {| infoCode := INVALID_PARAM; httpStatus := 400; name := "INVALID_PARAM";
               description := "Improperly formatted parameters" |});
    (-1006, {| infoCode := RESOURCE_NOT_FOUND; httpStatus := 400;
               name := "RESOURCE_NOT_FOUND"; description := "Data not found in server" |});
    (-1007, {| infoCode := DUPLICATE_REQUEST; httpStatus := 409;
               name := "DUPLICATE_REQUEST";
               description := "Data already exists or duplicate request" |});
    (-1008, {| infoCode := QUANTITY_TOO_HIGH; httpStatus := 400;
               name := "QUANTITY_TOO_HIGH";
               description := "Settlement quantity exceeds limits" |});
    (-1009, {| infoCode := CAN_NOT_WITHDRAWAL; httpStatus := 400;
               name := "CAN_NOT_WITHDRAWAL";
               description := "Withdrawal blocked; arrears must be settled" |});
    (-1011, {| infoCode := RPC_NOT_CONNECT; httpStatus := 400;
               name := "RPC_NOT_CONNECT"; description := "Internal network failure" |});
    (-1012, {| infoCode := RPC_REJECT; httpStatus := 400; name := "RPC_REJECT";
               description := "Order rejected (liquidation or internal error)" |});
    (-1101, {| infoCode := RISK_TOO_HIGH; httpStatus := 400; name := "RISK_TOO_HIGH";
               description := "Excessive risk from order size/leverage/margin" |});
    (-1102, {| infoCode := MIN_NOTIONAL; httpStatus := 400; name := "MIN_NOTIONAL";
               description := "Order value (price * size) too small" |});
    (-1103, {| infoCode := PRICE_FILTER; httpStatus := 400; name := "PRICE_FILTER";
               description := "Price violates scope/range requirements" |});
    (-1104, {| infoCode := SIZE_FILTER; httpStatus := 400; name := "SIZE_FILTER";
               description := "Quantity doesn't conform to step-size" |});
    (-1105, {| infoCode := PERCENTAGE_FILTER; httpStatus := 400;
               name := "PERCENTAGE_FILTER";
               description := "Price deviates excessively from mid-market" |});
    (-1201, {| infoCode := LIQUIDATION_REQUEST_RATIO_TOO_SMALL; httpStatus := 400;
               name := "LIQUIDATION_REQUEST_RATIO_TOO_SMALL";
               description := "Liquidation ratio requirements unmet" |});
    (-1202, {| infoCode := LIQUIDATION_STATUS_ERROR; httpStatus := 400;
               name := "LIQUIDATION_STATUS_ERROR";
               description := "Liquidation unnecessary or invalid ID" |}) ].

Fixpoint lookupCode (code : Z) (table : list (Z * ErrorCodeInfo)) : option ErrorCodeInfo :=
  match table with
  | [] => None
  | (k, info) :: rest => if Z.eqb k code then Some info else lookupCode code rest
  end.

(** [class OrderlyApiError]; the parameter property [message] holds the
    text given to the constructor. *)
Record OrderlyApiError := {
  errCode : Z;
  errMessage : string;
  errHttpStatus : option Z
}.

Definition createOrderlyError (code : Z) (message : string) : OrderlyApiError :=
  match lookupCode code ERROR_CODE_MAP with
  | None => {| errCode := code; errMessage := message; errHttpStatus := None |}
  | Some info =>
      {| errCode := code;
         errMessage := name info ++ ": " ++ message ++ ". " ++ description info;
         errHttpStatus := Some (httpStatus info) |}
  end.

Definition nonRetryableCodes : list Z :=
  [ INVALID_SIGNATURE; UNAUTHORIZED; INVALID_PARAM; UNKNOWN_PARAM; DUPLICATE_REQUEST ].

(** [!nonRetryableCodes.includes(code)] *)
Definition isRetryableError (code : Z) : bool :=
  negb (existsb (Z.eqb code) nonRetryableCodes).

Definition isClockSkewError (code : Z) (message : string) : bool :=
  Z.eqb code UNAUTHORIZED &&
  (includes (toLowerCase message) "timestamp" ||
   includes (toLowerCase message) "expired").

End OrderlyErrors.

(** ** The exchange client's retry loop: [OrderlyApiClient.request] *)

Module OrderlyApi.
Import Text OrderlyErrors.

(** What one pass through the [try] block can come to: everything the
    retry policy looks at. *)
Inductive Attempt (T : Type) :=
| Responded (data : T)                         (* body without success: false *)
| Declined (code : Z) (message : string)       (* 2xx body with success: false *)
| NoBody                                       (* 2xx without a body *)
| HttpError (code : option Z) (message : option string)
                                               (* axios error with response.data *)
| NetworkError (message : string)              (* axios error without it *)
| OtherError (message : string).               (* anything else thrown *)
Arguments Responded {T} data.
Arguments Declined {T} code message.
Arguments NoBody {T}.
Arguments HttpError {T} code message.
Arguments NetworkError {T} message.
Arguments OtherError {T} message.

(** The values the loop can throw, by the place that creates them. *)
Inductive Thrown :=
| ApiError (e : OrderlyApiError)
| ClockSkewError (message : string)   (* the [new Error] of the clock branch *)
| AxiosError (message : string)
| PlainError (message : string).

Inductive Outcome (T : Type) :=
| Returned (data : T)
| Threw (error : option Thrown).      (* [None]: [throw undefined] *)
Arguments Returned {T} data.
Arguments Threw {T} error.

Record Run (T : Type) := {
  outcome : Outcome T;
  attempts : nat;                     (* passes through the [try] block *)
  delays : list Z                     (* arguments of [sleep], in order *)
}.
Arguments outcome {T} r.
Arguments attempts {T} r.
Arguments delays {T} r.

(** [config.maxRetries || 3] *)
Definition maxRetriesOf (configured : option Z) : Z :=
  match configured with
  | Some n => if Z.eqb n 0 then 3 else n
  | None => 3
  end.

(** [Math.min(1000 * Math.pow(2, attempt), 10000)] *)
Definition backoff (attempt : Z) : Z := Z.min (1000 * 2 ^ attempt) 10000.

(** [errorData.code && errorData.message] *)
Definition truthyCode (c : option Z) : option Z :=
  match c with Some n => if Z.eqb n 0 then None else Some n | None => None end.
Definition truthyText (m : option string) : option string :=
  match m with Some "" => None | other => other end.

(** What the [catch] block decides: throw now, or remember [lastError] and
    go on to the backoff. *)
Inductive Verdict :=
| ThrowNow (e : Thrown)
| Remember (e : Thrown).

Definition classify {T} (a : Attempt T) : option Verdict :=
  match a with
  | Responded _ => None
  | Declined code message => Some (Remember (ApiError (createOrderlyError code message)))
  | NoBody => Some (Remember (PlainError "Cannot read properties of undefined"))
  | HttpError code message =>
      match truthyCode code, truthyText message with
      | Some c, Some m =>
          let orderlyError := createOrderlyError c m in
          if negb (isRetryableError c) then Some (ThrowNow (ApiError orderlyError))
          else if isClockSkewError c m
          then Some (ThrowNow (ClockSkewError
                 (errMessage orderlyError ++ ". Check your system clock and sync with NTP.")))
          else Some (Remember (ApiError orderlyError))
      | _, _ => Some (Remember (AxiosError "Request failed"))
      end
  | NetworkError message => Some (Remember (AxiosError message))
  | OtherError message => Some (Remember (PlainError message))
  end.

Section Request.
Context {T : Type}.
Variable maxRetries : Z.
Variable send : Z -> Attempt T.       (* the attempt number to its fate *)

(** The [for] loop from [attempt] on, with [fuel] passes left. *)
Fixpoint loop (fuel : nat) (attempt : Z) (lastError : option Thrown) : Run T :=
  match fuel with
  | O => {| outcome := Threw lastError; attempts := 0; delays := [] |}
  | S fuel' =>
      match send attempt with
      | Responded data =>
          {| outcome := Returned data; attempts := 1; delays := [] |}
      | failure =>
          match classify failure with
          | Some (ThrowNow e) =>
              {| outcome := Threw (Some e); attempts := 1; delays := [] |}
          | Some (Remember e) =>
              let slept :=
                if Z.ltb attempt maxRetries then [backoff attempt] else [] in
              let rest := loop fuel' (attempt + 1) (Some e) in
              {| outcome := outcome rest;
                 attempts := S (attempts rest);
                 delays := slept ++ delays rest |}
          | None => {| outcome := Threw lastError; attempts := 1; delays := [] |}
          end
      end
  end.

(** [for (let attempt = 0; attempt <= this.maxRetries; attempt++)] *)
Definition request : Run T := loop (Z.to_nat (maxRetries + 1)) 0 None.

End Request.

End OrderlyApi.

(** ** JSON bodies and [JSON.stringify] *)

Module Json.
Import Text.

(** A JSON-serializable value; numbers are the integers, object fields
    keep their insertion order. *)
#[warnings="-register-all"]
Inductive json :=
| JNull
| JBool (b : bool)
| JNumber (n : Z)
| JString (s : string)
| JArray (items : list json)
| JObject (fields : list (string * json)).

Definition hexDigit (n : nat) : ascii :=
  match n with
  | 0 => "0" | 1 => "1" | 2 => "2" | 3 => "3" | 4 => "4" | 5 => "5" | 6 => "6"
  | 7 => "7" | 8 => "8" | 9 => "9" | 10 => "a" | 11 => "b" | 12 => "c"
  | 13 => "d" | 14 => "e" | _ => "f"
  end%char%nat.

(** The quotation mark, U+0022. *)
Definition dquote : ascii := "034"%char.

(** The escape of one character inside a string literal. *)
Definition quoteChar (c : ascii) : string :=
  let n := nat_of_ascii c in
  if Ascii.eqb c dquote then String "\" (String dquote "")
  else if Ascii.eqb c "\" then "\\"
  else if (n =? 8)%nat then "\b"
  else if (n =? 12)%nat then "\f"
  else if (n =? 10)%nat then "\n"
  else if (n =? 13)%nat then "\r"
  else if (n =? 9)%nat then "\t"
  else if (n <? 32)%nat
       then "\u00" ++ String (hexDigit (n / 16)) (String (hexDigit (n mod 16)) "")
  else String c "".

Fixpoint quoteChars (s : string) : string :=
  match s with
  | EmptyString => ""
  | String c rest => quoteChar c ++ quoteChars rest
  end.

Definition quote (s : string) : string :=
  String dquote (quoteChars s ++ String dquote "").

(** [JSON.stringify(value)] without indentation. *)
Fixpoint stringify (j : json) : string :=
  match j with
  | JNull => "null"
  | JBool true => "true"
  | JBool false => "false"
  | JNumber n => showZ n
  | JString s => quote s
  | JArray items =>
      "[" ++
      (fix elements (l : list json) : string :=
         match l with
         | [] => ""
         | [x] => stringify x
         | x :: rest => stringify x ++ "," ++ elements rest
         end) items
      ++ "]"
  | JObject fields =>
      "{" ++
      (fix members (l : list (string * json)) : string :=
         match l with
         | [] => ""
         | [(k, v)] => quote k ++ ":" ++ stringify v
         | (k, v) :: rest => quote k ++ ":" ++ stringify v ++ "," ++ members rest
         end) fields
      ++ "}"
  end.

(** JavaScript truthiness of an optional value: [body ? ... : ...]. *)
Definition truthy (v : option json) : bool :=
  match v with
  | None => false
  | Some JNull => false
  | Some (JBool b) => b
  | Some (JNumber n) => negb (Z.eqb n 0)
  | Some (JString s) => negb (String.eqb s "")
  | Some (JArray _) => true
  | Some (JObject _) => true
  end.

End Json.

(** ** Base64, as [Buffer] writes and reads it *)

Module Base64.

Definition standardAlphabet : string :=
  "ABCDEFGHIJKLMNOPQRSTUVWXYZabcdefghijklmnopqrstuvwxyz0123456789+/".

(** RFC 4648, section 5. *)
Definition urlAlphabet : string :=
  "ABCDEFGHIJKLMNOPQRSTUVWXYZabcdefghijklmnopqrstuvwxyz0123456789-_".

Definition digit (alphabet : string) (n : Z) : ascii :=
  match String.get (Z.to_nat n) alphabet with
  | Some c => c
  | None => "="%char
  end.

Definition byteZ (b : Byte.byte) : Z := Z.of_N (Byte.to_N b).

Definition ofZ (n : Z) : Byte.byte :=
  match Byte.of_N (Z.to_N n) with
  | Some b => b
  | None => Byte.x00
  end.

(** The four sextets of a group of three bytes. *)
Definition sextet1 (a : Z) : Z := a / 4.
Definition sextet2 (a b : Z) : Z := (a mod 4) * 16 + b / 16.
Definition sextet3 (b c : Z) : Z := (b mod 16) * 4 + c / 64.
Definition sextet4 (c : Z) : Z := c mod 64.

(** Encoding over an alphabet, with or without [=] padding. *)
Fixpoint encodeWith (alphabet : string) (padded : bool) (bytes : list Byte.byte) : string :=
  let d := digit alphabet in
  match bytes with
  | [] => ""
  | [a] =>
      let a := byteZ a in
      String (d (sextet1 a)) (String (d (sextet2 a 0))
        (if padded then "==" else ""))
  | [a; b] =>
      let a := byteZ a in
      let b := byteZ b in
      String (d (sextet1 a)) (String (d (sextet2 a b)) (String (d (sextet3 b 0))
        (if padded then "=" else "")))
  | a :: b :: c :: rest =>
      let a := byteZ a in
      let b := byteZ b in
      let c := byteZ c in
      String (d (sextet1 a)) (String (d (sextet2 a b)) (String (d (sextet3 b c))
        (String (d (sextet4 c)) (encodeWith alphabet padded rest))))
  end.

(** [buffer.toString('base64')] *)
Definition toBase64 (bytes : list Byte.byte) : string :=
  encodeWith standardAlphabet true bytes.

(** What the specification asks for: URL-safe, unpadded. *)
Definition base64url (bytes : list Byte.byte) : string :=
  encodeWith urlAlphabet false bytes.

(** The value of a base64 character; the reader takes both alphabets. *)
Definition valueOf (c : ascii) : option Z :=
  let n := Z.of_nat (nat_of_ascii c) in
  if ((65 <=? n) && (n <=? 90))%Z then Some (n - 65)
  else if ((97 <=? n) && (n <=? 122))%Z then Some (n - 71)
  else if ((48 <=? n) && (n <=? 57))%Z then Some (n + 4)
  else if ((n =? 43) || (n =? 45))%Z then Some 62
  else if ((n =? 47) || (n =? 95))%Z then Some 63
  else None.

(** The sextets of a text: characters outside the alphabet are skipped,
    reading stops at the first [=]. *)
Fixpoint sextetsOf (s : string) : list Z :=
  match s with
  | EmptyString => []
  | String c rest =>
      if Ascii.eqb c "=" then []
      else match valueOf c with
           | Some n => n :: sextetsOf rest
           | None => sextetsOf rest
           end
  end.

Fixpoint bytesOf (sextets : list Z) : list Byte.byte :=
  match sextets with
  | s1 :: s2 :: s3 :: s4 :: rest =>
      ofZ (s1 * 4 + s2 / 16) :: ofZ ((s2 mod 16) * 16 + s3 / 4)
        :: ofZ ((s3 mod 4) * 64 + s4) :: bytesOf rest
  | [s1; s2; s3] =>
      [ofZ (s1 * 4 + s2 / 16); ofZ ((s2 mod 16) * 16 + s3 / 4)]
  | [s1; s2] => [ofZ (s1 * 4 + s2 / 16)]
  | _ => []
  end.

(** [Buffer.from(text, 'base64')] *)
Definition fromBase64 (s : string) : list Byte.byte := bytesOf (sextetsOf s).

End Base64.

(** ** The request signer: [orderly-auth.ts] *)

Module OrderlyAuth.
Import Text Json Base64.

Inductive Method := GET | POST | PUT | DELETE.

Definition methodName (m : Method) : string :=
  match m with GET => "GET" | POST => "POST" | PUT => "PUT" | DELETE => "DELETE" end.

Definition TIMESTAMP_WINDOW_MS : Z := 300 * 1000.

Record SignaturePayload := {
  timestamp : Z;
  method : Method;
  path : string;
  body : option string
}.

Record OrderlyAuthHeaders := {
  contentType : string;
  orderlyTimestamp : string;
  orderlyAccountId : string;
  orderlyKey : string;
  orderlySignature : string;
  xRecvWindow : option string
}.

(** The fields of an [OrderlyAuth] instance. *)
Record Signer := {
  privateKey : list Byte.byte;
  publicKey : string;
  accountId : string
}.

(** [`${timestamp}${method}${path}${body || ''}`] *)
Definition constructCanonicalString (payload : SignaturePayload) : string :=
  showZ (timestamp payload) ++ methodName (method payload) ++ path payload ++
  match body payload with
  | Some b => b
  | None => ""
  end.

(** [validateTimestamp]: [now] is the second reading of the clock. *)
Definition validateTimestamp (now ts : Z) : Result unit :=
  let diff := Z.abs (now - ts) in
  if Z.ltb TIMESTAMP_WINDOW_MS diff
  then Throw ("Timestamp skew too large: " ++ showZ diff ++ "ms (max "
              ++ showZ TIMESTAMP_WINDOW_MS ++ "ms). Local time may be incorrect.")
  else Ok tt.

(** [body ? JSON.stringify(body) : undefined] *)
Definition bodyString (requestBody : option json) : option string :=
  match requestBody with
  | Some j => if truthy (Some j) then Some (stringify j) else None
  | None => None
  end.

(** The [canonical] constant of [generateAuthHeaders]. *)
Definition canonicalOf (ts : Z) (m : Method) (p : string)
    (requestBody : option json) : string :=
  constructCanonicalString
    {| timestamp := ts; method := m; path := p; body := bodyString requestBody |}.

Section Signing.
(** [ed.signAsync(message, privateKey)] of @noble/ed25519. *)
Variable ed25519_sign : list Byte.byte -> list Byte.byte -> list Byte.byte.

(** [signMessage]: sign the UTF-8 bytes, write the signature in base64 and
    make that URL-safe by three replacements. *)
Definition signMessage (self : Signer) (message : string) : string :=
  let messageBytes := list_byte_of_string message in
  let signatureBytes := ed25519_sign messageBytes (privateKey self) in
  let base64 := toBase64 signatureBytes in
  stripTrailing "=" (replaceChar "/" "_" (replaceChar "+" "-" base64)).

(** [generateAuthHeaders]; [clock1] and [clock2] are the two readings of
    [Date.now()], the second one inside [validateTimestamp]. *)
Definition generateAuthHeaders (self : Signer) (clock1 clock2 : Z)
    (m : Method) (p : string) (requestBody : option json)
    (recvWindow : option Z) : Result OrderlyAuthHeaders :=
  let ts := clock1 in
  match validateTimestamp clock2 ts with
  | Throw e => Throw e
  | Ok _ =>
      let canonical := canonicalOf ts m p requestBody in
      let signature := signMessage self canonical in
      let ct :=
        match m with
        | GET | DELETE => "application/x-www-form-urlencoded"
        | _ => "application/json"
        end in
      Ok {| contentType := ct;
            orderlyTimestamp := showZ ts;
            orderlyAccountId := accountId self;
            orderlyKey := publicKey self;
            orderlySignature := signature;
            xRecvWindow :=
              match recvWindow with
              | Some n => if Z.eqb n 0 then None else Some (showZ n)
              | None => None
              end |}
  end.

End Signing.

End OrderlyAuth.

(** ** Typed-data signing: [orderly-wallet.ts] and [wallet.service.ts] *)

Module Eip712.
Import Text.

Record TypedField := { fieldName : string; fieldType : string }.

Record EIP712Domain := {
  name : string;
  version : string;
  chainId : Z;
  verifyingContract : string
}.

(** A value of a message: a string or a number. *)
Inductive Value :=
| VString (s : string)
| VNumber (n : Z).

(** The three arguments of [wallet._signTypedData]. *)
Record TypedData := {
  domain : EIP712Domain;
  types : list (string * list TypedField);
  message : list (string * Value)
}.

(** [encodeType] of EIP-712 for a struct without struct members: the text
    whose hash is the type hash. *)
Fixpoint encodeFields (fields : list TypedField) : string :=
  match fields with
  | [] => ""
  | [f] => fieldType f ++ " " ++ fieldName f
  | f :: rest => fieldType f ++ " " ++ fieldName f ++ "," ++ encodeFields rest
  end.

Definition encodeType (struct : string * list TypedField) : string :=
  struct.1 ++ "(" ++ encodeFields struct.2 ++ ")".

(** *** [orderly-wallet.ts] *)

Definition OFF_CHAIN_VERIFYING_CONTRACT : string :=
  "0xCcCCccccCCCCcCCCCCCcCcCccCcCCCcCcccccccC".

Definition REGISTRATION_TYPES : list (string * list TypedField) :=
  [ ("Registration",
     [ {| fieldName := "brokerId"; fieldType := "string" |};
       {| fieldName := "chainId"; fieldType := "uint256" |};
       {| fieldName := "chainType"; fieldType := "string" |};
       {| fieldName := "timestamp"; fieldType := "uint64" |};
       {| fieldName := "registrationNonce"; fieldType := "uint64" |} ]) ].

Definition ADD_ORDERLY_KEY_TYPES : list (string * list TypedField) :=
  [ ("AddOrderlyKey",
     [ {| fieldName := "brokerId"; fieldType := "string" |};
       {| fieldName := "chainId"; fieldType := "uint256" |};
       {| fieldName := "orderlyKey"; fieldType := "string" |};
       {| fieldName := "scope"; fieldType := "string" |};
       {| fieldName := "timestamp"; fieldType := "uint64" |};
       {| fieldName := "expiration"; fieldType := "uint64" |} ]) ].

Definition WITHDRAW_TYPES : list (string * list TypedField) :=
  [ ("Withdraw",
     [ {| fieldName := "brokerId"; fieldType := "string" |};
       {| fieldName := "chainId"; fieldType := "uint256" |};
       {| fieldName := "receiver"; fieldType := "address" |};
       {| fieldName := "token"; fieldType := "string" |};
       {| fieldName := "amount"; fieldType := "uint256" |};
       {| fieldName := "withdrawNonce"; fieldType := "uint64" |};
       {| fieldName := "timestamp"; fieldType := "uint64" |} ]) ].

Definition SETTLE_PNL_TYPES : list (string * list TypedField) :=
  [ ("SettlePnl",
     [ {| fieldName := "brokerId"; fieldType := "string" |};
       {| fieldName := "chainId"; fieldType := "uint256" |};
       {| fieldName := "settleNonce"; fieldType := "uint64" |};
       {| fieldName := "timestamp"; fieldType := "uint64" |} ]) ].

(** [OrderlyWallet.createDomain] *)
Definition createDomain (chain : Z) (contract : string) : EIP712Domain :=
  {| name := "Orderly"; version := "1"; chainId := chain;
     verifyingContract := contract |}.

(** [OrderlyWallet.signRegistration]: what it hands to [_signTypedData];
    [now] is [Date.now()]. *)
Definition signRegistration (now : Z) (brokerId : string) (chain : Z)
    (registrationNonce : string) : TypedData :=
  {| domain := createDomain chain OFF_CHAIN_VERIFYING_CONTRACT;
     types := REGISTRATION_TYPES;
     message :=
       [ ("brokerId", VString brokerId);
         ("chainId", VNumber chain);
         ("chainType", VString "EVM");
         ("timestamp", VString (showZ now));
         ("registrationNonce", VString registrationNonce) ] |}.

(** *** [wallet.service.ts] *)

Record RegistrationMessage := {
  msgBrokerId : string;
  msgChainId : Z;
  msgTimestamp : Z;
  msgRegistrationNonce : Z
}.

(** [WalletService.signRegistrationMessage]: what it hands to
    [_signTypedData]. *)
Definition signRegistrationMessage (m : RegistrationMessage) : TypedData :=
  {| domain :=
       {| name := "Orderly"; version := "1"; chainId := msgChainId m;
          verifyingContract := "0xCcCCccccCCCCcCCCCCCcCcCccCcCCCcCcccccccC" |};
     types :=
       [ ("Registration",
          [ {| fieldName := "brokerId"; fieldType := "string" |};
            {| fieldName := "chainId"; fieldType := "uint256" |};
            {| fieldName := "timestamp"; fieldType := "uint64" |};
            {| fieldName := "registrationNonce"; fieldType := "uint256" |} ]) ];
     message :=
       [ ("brokerId", VString (msgBrokerId m));
         ("chainId", VNumber (msgChainId m));
         ("timestamp", VNumber (msgTimestamp m));
         ("registrationNonce", VNumber (msgRegistrationNonce m)) ] |}.

End Eip712.

(** ** Sealing key material: [encryption.service.ts] *)

Module Encryption.
Import Text Json Base64.

(** The [EncryptedData] object, as the JSON value that is written. *)
Definition envelope (iv encrypted tag : string) : json :=
  JObject [("iv", JString iv); ("encrypted", JString encrypted); ("tag", JString tag)].

(** [object.key] on a parsed value: [None] stands for [undefined]. *)
Fixpoint lookupField (key : string) (fields : list (string * json)) : option json :=
  match fields with
  | [] => None
  | (k, v) :: rest => if String.eqb k key then Some v else lookupField key rest
  end.

Definition property (j : json) (key : string) : Result (option json) :=
  match j with
  | JObject fields => Ok (lookupField key fields)
  | JNull => Throw "Cannot read properties of null"
  | _ => Ok None
  end.

(** [Buffer.from(value, 'base64')]: a string is decoded, an array gives its
    entries as bytes, anything else is a type error. *)
Definition bufferFrom (v : option json) : Result (list Byte.byte) :=
  match v with
  | Some (JString s) => Ok (fromBase64 s)
  | Some (JArray items) =>
      Ok (map (fun x => match x with JNumber n => ofZ (n mod 256) | _ => Byte.x00 end)
              items)
  | _ => Throw "The first argument must be of type string or an instance of Buffer"
  end.

Section Service.
(** AES-256-GCM of the [crypto] module: sealing gives the ciphertext and
    the authentication tag; opening gives the plaintext if the tag
    verifies. *)
Variable aes256gcm_seal :
  list Byte.byte -> list Byte.byte -> list Byte.byte -> list Byte.byte * list Byte.byte.
Variable aes256gcm_open :
  list Byte.byte -> list Byte.byte -> list Byte.byte -> list Byte.byte ->
  option (list Byte.byte).
(** [JSON.parse]; [None] is its [SyntaxError]. *)
Variable JSON_parse : string -> option json.

Variable masterKey : list Byte.byte.

(** [createCipheriv] and [createDecipheriv] check the key length. *)
Definition checkKey : Result unit :=
  if decide (length masterKey = 32%nat) then Ok tt else Throw "Invalid key length".

(** [encrypt]; [iv] is what [crypto.randomBytes(12)] returned.  The two
    base64 chunks of [cipher.update] and [cipher.final] add up to the
    base64 of the whole ciphertext. *)
Definition encrypt (iv : list Byte.byte) (plaintext : string) : Result string :=
  match checkKey with
  | Throw e => Throw ("Encryption failed: " ++ e)
  | Ok _ =>
      let sealed := aes256gcm_seal masterKey iv (list_byte_of_string plaintext) in
      Ok (stringify (envelope (toBase64 iv) (toBase64 sealed.1) (toBase64 sealed.2)))
  end.

(** The [try] block of [decrypt]. *)
Definition decrypt_try (ciphertext : string) : Result string :=
  match JSON_parse ciphertext with
  | None => Throw "Unexpected token in JSON"
  | Some encryptedData =>
      match property encryptedData "iv" with
      | Throw e => Throw e
      | Ok ivField =>
          match bufferFrom ivField with
          | Throw e => Throw e
          | Ok iv =>
              match property encryptedData "tag" with
              | Throw e => Throw e
              | Ok tagField =>
                  match bufferFrom tagField with
                  | Throw e => Throw e
                  | Ok tag =>
                      match checkKey with
                      | Throw e => Throw e
                      | Ok _ =>
                          match property encryptedData "encrypted" with
                          | Ok (Some (JString encrypted)) =>
                              match aes256gcm_open masterKey iv
                                      (fromBase64 encrypted) tag with
                              | Some plain => Ok (string_of_list_byte plain)
                              | None =>
                                  Throw "Unsupported state or unable to authenticate data"
                              end
                          | Ok _ => Throw "The data argument must be of type string"
                          | Throw e => Throw e
                          end
                      end
                  end
              end
          end
      end
  end.

Definition decrypt (ciphertext : string) : Result string :=
  match decrypt_try ciphertext with
  | Ok plain => Ok plain
  | Throw e => Throw ("Decryption failed: " ++ e)
  end.

End Service.

End Encryption.

(** ** Concrete stores and worlds used as test inputs *)

Module Scenarios.
Import Chain Deposits.

(** A node that answers every query and has seen no transfer. *)
Definition quietRpc : Rpc :=
  {| getBlockNumber := Ok 0;
     queryFilter := fun _ _ _ => Ok [];
     decimals := Ok 6;
     getTransactionReceipt := fun _ => Ok None |}.

(** A node at block 112 that has one 100-unit transfer in block 100. *)
Definition transferLog : TransferLog :=
  {| transactionHash := "0xabc"; args := Some ("0xsender", 100);
     logBlockNumber := 100 |}.

Definition liveRpc : Rpc :=
  {| getBlockNumber := Ok 112;
     queryFilter := fun _ _ _ => Ok [transferLog];
     decimals := Ok 0;
     getTransactionReceipt := fun _ => Ok (Some {| receiptBlockNumber := 100 |}) |}.

(** The same node when its event query times out. *)
Definition timeoutRpc : Rpc :=
  {| getBlockNumber := Ok 112;
     queryFilter := fun _ _ _ => Throw "timeout exceeded";
     decimals := Ok 0;
     getTransactionReceipt := fun _ => Ok (Some {| receiptBlockNumber := 100 |}) |}.

Definition alice : User :=
  {| userHandle := "alice"; accountId := "0xaccount";
     encryptedOrderlyPrivateKey := "sealed-key";
     internalBalance := 0%Q; totalDeposits := 0%Q; lastActivityAt := 0 |}.

(** A deposit of 100 that alice has claimed and that has its twelve
    confirmations. *)
Definition d1 : Deposit :=
  {| userId := "u1"; twitterHandle := "alice";
     depTxHash := "0xabc"; depAmount := 100%Q;
     fromAddress := "0xsender"; toAddress := "0xplatform";
     depBlockNumber := 100; confirmations := 12; requiredConfirmations := 12;
     status := confirmed; orderlyConfirmed := false;
     detectedAt := 0; confirmedAt := Some 0; creditedAt := None;
     errorMessage := None; retryCount := 0 |}.

Definition wallet0 : PlatformWallet :=
  {| address := "0xplatform"; network := "arbitrum"; lastScannedBlock := 99 |}.

(** The store before anything was found ... *)
Definition emptyLedger : Db :=
  {| deposits := ∅; users := {["u1" := alice]};
     platform_wallets := {["w1" := wallet0]} |}.

(** ... and with the claimed deposit waiting for its credit. *)
Definition ledger0 : Db :=
  {| deposits := {["d1" := d1]}; users := {["u1" := alice]};
     platform_wallets := {["w1" := wallet0]} |}.

(** Everything works. *)
Definition calm : World :=
  {| clock := 5; rpc := liveRpc;
     decrypt := fun _ => Ok "key";
     creditAccountBalance := fun _ _ _ => Ok tt;
     firestore := fun _ => Ok tt |}.

(** The venue rejects the mirror call. *)
Definition mirrorDown : World :=
  {| clock := 5; rpc := liveRpc;
     decrypt := fun _ => Ok "key";
     creditAccountBalance := fun _ _ _ => Throw "Orderly credit error: unavailable";
     firestore := fun _ => Ok tt |}.

(** The store stops accepting deposit updates after the ledger write. *)
Definition outage : World :=
  {| clock := 5; rpc := liveRpc;
     decrypt := fun _ => Ok "key";
     creditAccountBalance := fun _ _ _ => Ok tt;
     firestore := fun op =>
       match op with
       | OpUpdateDepositStatus _ _ => Throw "UNAVAILABLE"
       | _ => Ok tt
       end |}.

(** The event query times out. *)
Definition rpcTimeout : World :=
  {| clock := 5; rpc := timeoutRpc;
     decrypt := fun _ => Ok "key";
     creditAccountBalance := fun _ _ _ => Ok tt;
     firestore := fun _ => Ok tt |}.

(** The store refuses new deposit documents. *)
Definition addRefused : World :=
  {| clock := 5; rpc := liveRpc;
     decrypt := fun _ => Ok "key";
     creditAccountBalance := fun _ _ _ => Ok tt;
     firestore := fun op =>
       match op with
       | OpAddDeposit _ => Throw "UNAVAILABLE"
       | _ => Ok tt
       end |}.

(** The cursor write fails, so the next tick scans the same range again. *)
Definition cursorStuck : World :=
  {| clock := 5; rpc := liveRpc;
     decrypt := fun _ => Ok "key";
     creditAccountBalance := fun _ _ _ => Ok tt;
     firestore := fun op =>
       match op with
       | OpUpdatePlatformWalletBlock _ _ => Throw "UNAVAILABLE"
       | _ => Ok tt
       end |}.

End Scenarios.

(** ** Concrete requests and venue answers used as test inputs *)

Module ClientScenarios.
Import Text Json OrderlyErrors OrderlyApi OrderlyAuth.

(** A venue that answers twice with "too many requests" and then gives in. *)
Definition rateLimitedTwice : Z -> Attempt string :=
  fun k => if Z.ltb k 2 then HttpError (Some TOO_MANY_REQUEST) (Some "Rate limit exceeded")
           else Responded "ok".

(** The venue refuses a request because its timestamp is stale. *)
Definition staleTimestamp : Z -> Attempt string :=
  fun _ => HttpError (Some UNAUTHORIZED) (Some "orderly timestamp expired").

(** The body of the order of the unit tests. *)
Definition orderBody : json :=
  JObject [("symbol", JString "PERP_ETH_USDC"); ("side", JString "BUY")].

Definition signer0 : Signer :=
  {| privateKey := [Byte.x01; Byte.x02; Byte.x03];
     publicKey := "ed25519:8tm7dnKanFuRmKxsvgHHE7Sbmqx5DkTvNakBx6PVnWEb";
     accountId := "0x1234567890123456789012345678901234567890123456789012345678901234" |}.

(** The same key held under another account id and key name. *)
Definition signer1 : Signer :=
  {| privateKey := [Byte.x01; Byte.x02; Byte.x03];
     publicKey := "ed25519:other";
     accountId := "0xabcdef1234567890abcdef1234567890abcdef1234567890abcdef1234567890" |}.

(** A stand-in for the signature primitive, to run the signer on: it sends
    message and key to the key followed by the message. *)
Definition markWith (message key : list Byte.byte) : list Byte.byte :=
  (key ++ message)%list.

End ClientScenarios.

(** ** Stand-ins for the library primitives, to run the model on *)

Module StandIns.
Import Text Json Base64 Encryption.

(** A cipher in shape only: the ciphertext is the plaintext reversed, the
    tag is the nonce followed by the key. *)
Definition mirrorSeal (key iv plain : list Byte.byte) : list Byte.byte * list Byte.byte :=
  (rev plain, (iv ++ key)%list).

Definition mirrorOpen (key iv ciphertext tag : list Byte.byte) : option (list Byte.byte) :=
  if decide (map byteZ tag = map byteZ (iv ++ key)%list)
  then Some (rev ciphertext) else None.

Fixpoint stripPrefix (p s : string) : option string :=
  match p with
  | EmptyString => Some s
  | String a p' =>
      match s with
      | String b s' => if Ascii.eqb a b then stripPrefix p' s' else None
      | EmptyString => None
      end
  end.

(** The text up to the next quotation mark, and the text after it. *)
Fixpoint untilQuote (s : string) : option (string * string) :=
  match s with
  | EmptyString => None
  | String c rest =>
      if Ascii.eqb c dquote then Some (EmptyString, rest)
      else match untilQuote rest with
           | Some (a, b) => Some (String c a, b)
           | None => None
           end
  end.

Definition envelopeOpening : string := "{" ++ quote "iv" ++ ":" ++ String dquote "".
Definition envelopeMiddle : string := "," ++ quote "encrypted" ++ ":" ++ String dquote "".
Definition envelopeEnding : string := "," ++ quote "tag" ++ ":" ++ String dquote "".

(** A reader for the one shape of text [encrypt] writes, with strings that
    need no escapes. *)
Definition readEnvelope (text : string) : option json :=
  match stripPrefix envelopeOpening text with
  | None => None
  | Some r1 =>
      match untilQuote r1 with
      | None => None
      | Some (iv, r2) =>
          match stripPrefix envelopeMiddle r2 with
          | None => None
          | Some r3 =>
              match untilQuote r3 with
              | None => None
              | Some (encrypted, r4) =>
                  match stripPrefix envelopeEnding r4 with
                  | None => None
                  | Some r5 =>
                      match untilQuote r5 with
                      | Some (tag, "}") => Some (envelope iv encrypted tag)
                      | _ => None
                      end
                  end
              end
          end
      end
  end.

(** Thirty-two bytes of key and twelve of nonce. *)
Definition key32 : list Byte.byte := repeat Byte.x2a 32.
Definition nonce12 : list Byte.byte := repeat Byte.x07 12.

End StandIns.

(** ** The vocabulary of the statements *)

(** Frame conditions on the store and on the trace of the workers. *)
Module DepositSpec.
Import Deposits.

(** [m] relates every store to its successor by [I] and only emits events
    that satisfy [P], whether it returns or throws. *)
Definition preserves (I : relation Db) (P : Event -> Prop) {A} (m : M A) : Prop :=
  forall db, I db (exec m db) /\ Forall P (trace m db).

Definition sameWallets : relation Db :=
  fun a b => platform_wallets b = platform_wallets a.

Definition notScanning (e : Event) : Prop := forall f t, e <> LogScanning f t.

(** What processing one deposit leaves alone: every other deposit
    document, and the identity (account id, sealed key) of every user. *)
Definition stableUsers (a b : Db) : Prop :=
  forall uid u, users a !! uid = Some u ->
    exists u', users b !! uid = Some u' /\
               accountId u' = accountId u /\
               encryptedOrderlyPrivateKey u' = encryptedOrderlyPrivateKey u.

Definition frame (id : string) : relation Db :=
  fun a b => deposits b !! id = deposits a !! id /\ stableUsers a b.

Definition notAlertFor (id : string) (e : Event) : Prop :=
  forall n, e <> LogAlert id n.

End DepositSpec.

Module ApiSpec.
Import OrderlyErrors OrderlyApi.

(** What the last pass of a run saw, and what the run came to; the run
    started at attempt [a] with [fuel] passes allowed. *)
Definition lastPass {T} (send : Z -> Attempt T) (r : Run T) (a : Z) (fuel : nat) : Prop :=
  match classify (send (a + Z.of_nat (attempts r) - 1)) with
  | None =>
      exists data, send (a + Z.of_nat (attempts r) - 1) = Responded data /\
                   outcome r = Returned data
  | Some (ThrowNow e) => outcome r = Threw (Some e)
  | Some (Remember e) => attempts r = fuel /\ outcome r = Threw (Some e)
  end.

End ApiSpec.

Module TextSpec.
Import Text Json Eip712.

(** The two replacements of [signMessage], on one character. *)
Definition urlSafe (c : ascii) : ascii :=
  let c1 := if Ascii.eqb c "+" then "-"%char else c in
  if Ascii.eqb c1 "/" then "_"%char else c1.

(** JSON's insignificant whitespace: space, tab, line feed, carriage return. *)
Definition isSpace (c : ascii) : bool :=
  let n := nat_of_ascii c in
  ((n =? 32) || (n =? 9) || (n =? 10) || (n =? 13))%nat.

Fixpoint noSpace (s : string) : bool :=
  match s with
  | EmptyString => true
  | String c rest => negb (isSpace c) && noSpace rest
  end.

(** No U+0020 in a text. *)
Fixpoint noBlank (s : string) : bool :=
  match s with
  | EmptyString => true
  | String c rest => negb (Ascii.eqb c " ") && noBlank rest
  end.

(** No U+0020 in any key or string of a value. *)
Fixpoint blankFree (j : json) : bool :=
  match j with
  | JString s => noBlank s
  | JArray items => forallb blankFree items
  | JObject fields => forallb (fun kv => noBlank kv.1 && blankFree kv.2) fields
  | _ => true
  end.

(** [parts.join(sep)] *)
Fixpoint joinWith (sep : string) (parts : list string) : string :=
  match parts with
  | [] => ""
  | [x] => x
  | x :: rest => x ++ sep ++ joinWith sep rest
  end.

Definition member (kv : string * json) : string :=
  quote kv.1 ++ ":" ++ stringify kv.2.

(** The text that follows the path in the canonical string. *)
Definition bodyText (requestBody : option json) : string :=
  match requestBody with
  | Some j => if truthy (Some j) then stringify j else ""
  | None => ""
  end.

(** A text without quotation mark, backslash or control character. *)
Fixpoint plain (s : string) : bool :=
  match s with
  | EmptyString => true
  | String c rest =>
      negb (Ascii.eqb c dquote) && negb (Ascii.eqb c "\") &&
      (32 <=? nat_of_ascii c)%nat && plain rest
  end.

(** The Registration schema of the specification. *)
Definition registrationSchema : list TypedField :=
  [ {| fieldName := "brokerId"; fieldType := "string" |};
    {| fieldName := "chainId"; fieldType := "uint256" |};
    {| fieldName := "timestamp"; fieldType := "uint64" |};
    {| fieldName := "registrationNonce"; fieldType := "uint256" |} ].

End TextSpec.

(** ** Key material in text form: hex and Base58 *)

Module Hex.
Import Text Json Base64.

(** [buffer.toString('hex')]: two lower-case digits per byte. *)
Fixpoint toHex (bytes : list Byte.byte) : string :=
  match bytes with
  | [] => ""
  | b :: rest =>
      String (hexDigit (Z.to_nat (byteZ b / 16)))
        (String (hexDigit (Z.to_nat (byteZ b mod 16))) (toHex rest))
  end.

(** The value of a hexadecimal digit, in either case. *)
Definition hexValue (c : ascii) : option Z :=
  let n := Z.of_nat (nat_of_ascii c) in
  if ((48 <=? n) && (n <=? 57))%Z then Some (n - 48)
  else if ((97 <=? n) && (n <=? 102))%Z then Some (n - 87)
  else if ((65 <=? n) && (n <=? 70))%Z then Some (n - 55)
  else None.

(** [Buffer.from(text, 'hex')]: pairs of digits are decoded up to the
    first pair that is not hexadecimal; a last odd character is dropped. *)
Fixpoint bufferFromHex (s : string) : list Byte.byte :=
  match s with
  | String a (String b rest) =>
      match hexValue a, hexValue b with
      | Some x, Some y => ofZ (x * 16 + y) :: bufferFromHex rest
      | _, _ => []
      end
  | _ => []
  end.

(** White space that [parseInt] skips, among the code units below 256. *)
Definition isWhite (c : ascii) : bool :=
  let n := nat_of_ascii c in
  ((n =? 9) || (n =? 10) || (n =? 11) || (n =? 12) || (n =? 13) || (n =? 32)
   || (n =? 160))%nat.

Fixpoint trimStart (s : string) : string :=
  match s with
  | String c rest => if isWhite c then trimStart rest else s
  | EmptyString => EmptyString
  end.

(** The value of the longest prefix of hexadecimal digits, read after
    [acc]; [None] when there is no digit at all. *)
Fixpoint hexPrefix (s : string) (acc : option Z) : option Z :=
  match s with
  | String c rest =>
      match hexValue c with
      | Some d =>
          hexPrefix rest (Some (match acc with Some a => a * 16 + d | None => d end))
      | None => acc
      end
  | EmptyString => acc
  end.

(** [parseInt(text, 16)]; [None] is [NaN]. *)
Definition parseInt16 (s : string) : option Z :=
  let s1 := trimStart s in
  let signed :=
    match s1 with
    | String c rest =>
        if Ascii.eqb c "-" then (-1, rest)
        else if Ascii.eqb c "+" then (1, rest)
        else (1, s1)
    | EmptyString => (1, s1)
    end in
  let s2 :=
    match signed.2 with
    | String z (String x rest) =>
        if Ascii.eqb z "0" && (Ascii.eqb x "x" || Ascii.eqb x "X") then rest
        else signed.2
    | other => other
    end in
  match hexPrefix s2 None with
  | Some n => Some (signed.1 * n)
  | None => None
  end.

(** Storing a number in a [Uint8Array]: [NaN] is stored as 0, anything
    else modulo 256. *)
Definition toUint8 (n : option Z) : Byte.byte :=
  match n with
  | Some v => ofZ (v mod 256)
  | None => Byte.x00
  end.

(** The loop of [hexToBytes]: the array has [cleanHex.length / 2] slots
    (the length is truncated), so the write for a last odd character falls
    outside of it. *)
Fixpoint hexPairs (s : string) : list Byte.byte :=
  match s with
  | String a (String b rest) =>
      toUint8 (parseInt16 (String a (String b ""))) :: hexPairs rest
  | _ => []
  end.

(** [hex.replace(/^0x/, '')] *)
Definition stripHexPrefix (s : string) : string :=
  match s with
  | String z (String x rest) =>
      if Ascii.eqb z "0" && Ascii.eqb x "x" then rest else s
  | other => other
  end.

(** [hexToBytes] of [orderly-auth.ts]. *)
Definition hexToBytes (hex : string) : list Byte.byte :=
  hexPairs (stripHexPrefix hex).

End Hex.

Module Base58.
Import Text Base64 Hex.

(** The Bitcoin alphabet. *)
Definition ALPHABET : string :=
  "123456789ABCDEFGHJKLMNPQRSTUVWXYZabcdefghijkmnopqrstuvwxyz".

(** [BigInt('0x' + hex)]: the bytes as a big-endian number. *)
Definition bigEndian (bytes : list Byte.byte) : Z :=
  fold_left (fun acc b => acc * 256 + byteZ b) bytes 0.

(** [while (num > 0n)]: one digit is put in front of [result] per pass;
    [fuel] bounds the number of passes. *)
Fixpoint digitsLoop (fuel : nat) (num : Z) (result : string) : string :=
  match fuel with
  | O => result
  | S fuel' =>
      if Z.ltb 0 num
      then digitsLoop fuel' (num / 58) (String (digit ALPHABET (num mod 58)) result)
      else result
  end.

(** [for (i = 0; i < bytes.length && bytes[i] === 0; i++)] *)
Fixpoint zerosLoop (bytes : list Byte.byte) (result : string) : string :=
  match bytes with
  | b :: rest =>
      if Z.eqb (byteZ b) 0 then zerosLoop rest (String (digit ALPHABET 0) result)
      else result
  | [] => result
  end.

(** [base58Encode]; [BigInt('0x')] is a [SyntaxError].  A number below
    [256 ^ n] has at most [2 * n] digits in base 58. *)
Definition base58Encode (bytes : list Byte.byte) : Result string :=
  match bytes with
  | [] => Throw "Cannot convert 0x to a BigInt"
  | _ =>
      let num := bigEndian bytes in
      let result := digitsLoop (2 * length bytes) num "" in
      Ok (zerosLoop bytes result)
  end.

End Base58.

Module Keypair.
Import Text Base64 Hex Base58 OrderlyAuth.

(** What [generateEd25519Keypair] returns for the key bytes that
    [ed.utils.randomPrivateKey] and [ed.getPublicKeyAsync] gave. *)
Record GeneratedKeypair := {
  privateKeyHex : string;
  publicKeyBase58 : string
}.

Definition generateEd25519Keypair (privateKeyBytes publicKeyBytes : list Byte.byte)
    : Result GeneratedKeypair :=
  match base58Encode publicKeyBytes with
  | Throw e => Throw e
  | Ok encoded =>
      Ok {| privateKeyHex := toHex privateKeyBytes; publicKeyBase58 := encoded |}
  end.

(** The constructor of [OrderlyAuth]. *)
Definition newOrderlyAuth (privateKeyHex publicKeyBase58 account : string) : Signer :=
  {| privateKey := hexToBytes privateKeyHex;
     publicKey := publicKeyBase58;
     accountId := account |}.

End Keypair.

(** The vocabulary of the statements about keys. *)
Module KeySpec.
Import Hex.

(** A text of hexadecimal digits only. *)
Fixpoint allHex (s : string) : bool :=
  match s with
  | EmptyString => true
  | String c rest =>
      match hexValue c with Some _ => allHex rest | None => false end
  end.

(** The place of a character in an alphabet. *)
Fixpoint indexIn (alphabet : string) (c : ascii) : option Z :=
  match alphabet with
  | EmptyString => None
  | String x rest =>
      if Ascii.eqb x c then Some 0 else Z.succ <$> indexIn rest c
  end.

(** A Base58 text read as a number in base 58, most significant digit
    first, continuing from [acc]. *)
Fixpoint value58 (s : string) (acc : Z) : Z :=
  match s with
  | EmptyString => acc
  | String c rest =>
      value58 rest (acc * 58 + default 0 (indexIn Base58.ALPHABET c))
  end.

(** The number of zero bytes that begin a byte string, and of the
    characters [c] that begin a text. *)
Fixpoint leadingZeros (bytes : list Byte.byte) : nat :=
  match bytes with
  | b :: rest => if Z.eqb (Base64.byteZ b) 0 then S (leadingZeros rest) else O
  | [] => O
  end.

Fixpoint leadingChars (c : ascii) (s : string) : nat :=
  match s with
  | String x rest => if Ascii.eqb x c then S (leadingChars c rest) else O
  | EmptyString => O
  end.

(** [k] times the character [c], in front of [s]. *)
Fixpoint repeated (c : ascii) (k : nat) (s : string) : string :=
  match k with
  | O => s
  | S k' => String c (repeated c k' s)
  end.

End KeySpec.

(** ** The exchange client around its retry loop: [orderly-api.ts] *)

Module ApiClient.
Import Text Json OrderlyErrors OrderlyApi OrderlyAuth.

(** *** [redactHeaders] *)

Definition sensitiveKeys : list string :=
  ["orderly-signature"; "orderly-key"; "Authorization"].

Definition REDACTED : json := JString "[REDACTED]".

(** [if (redacted[key]) redacted[key] = '[REDACTED]'] *)
Definition redactKey (redacted : gmap string json) (key : string) : gmap string json :=
  if truthy (redacted !! key) then <[key := REDACTED]> redacted else redacted.

(** [redactHeaders]: a copy of the headers, the keys visited in order. *)
Definition redactHeaders (headers : gmap string json) : gmap string json :=
  fold_left redactKey sensitiveKeys headers.

(** *** The request methods *)

(** The fields of an [OrderlyApiClient] the requests read. *)
Record Client := {
  auth : option Signer;
  maxRetries : Z
}.

(** The constructor: [config.maxRetries || 3]. *)
Definition newClient (configAuth : option Signer) (configMaxRetries : option Z) : Client :=
  {| auth := configAuth; maxRetries := maxRetriesOf configMaxRetries |}.

(** The argument of [axios.request]. *)
Record Sent := {
  sentMethod : Method;
  sentUrl : string;
  sentData : option json;
  sentParams : option json;
  sentHeaders : option OrderlyAuthHeaders     (* [None]: the empty object *)
}.

Section Requests.
Context {T : Type}.
Variable ed25519_sign : list Byte.byte -> list Byte.byte -> list Byte.byte.
(** The two readings of [Date.now()] that signing takes in attempt [k]. *)
Variable clock : Z -> Z * Z.
(** What becomes of the request that attempt [k] hands to axios. *)
Variable transport : Z -> Sent -> Attempt T.

Variable self : Client.

(** The [try] block of [request] in attempt [k]: the headers are made
    inside it, so an error of the signer is caught like any other. *)
Definition attemptOf (m : Method) (p : string) (requestBody params : option json)
    (requireAuth : bool) (k : Z) : Attempt T :=
  let sent headers :=
    {| sentMethod := m; sentUrl := p; sentData := requestBody;
       sentParams := params; sentHeaders := headers |} in
  match (if requireAuth then auth self else None) with
  | Some signer =>
      match generateAuthHeaders ed25519_sign signer (clock k).1 (clock k).2
              m p requestBody None with
      | Ok authHeaders => transport k (sent (Some authHeaders))
      | Throw e => OtherError e
      end
  | None => transport k (sent None)
  end.

Definition requestWith (m : Method) (p : string) (requestBody params : option json)
    (requireAuth : bool) : Run T :=
  request (maxRetries self) (attemptOf m p requestBody params requireAuth).

Definition get (p : string) (params : option json) : Run T :=
  requestWith GET p None params false.

Definition post (p : string) (requestBody : option json) : Run T :=
  requestWith POST p requestBody None false.



(** [registerAccount] and [getRegistrationNonce], two of the public calls. *)
Definition registerAccount (registration : json) : Run T :=
  post "/v1/register_account" (Some registration).

Definition getRegistrationNonce : Run T := get "/v1/registration_nonce" None.

End Requests.

End ApiClient.

(** The vocabulary of the statements about the client. *)
Module ClientSpec.
Import Text Json OrderlyErrors OrderlyApi OrderlyAuth ApiClient.


(** The headers a signer makes at [ts] for a request. *)
Definition signedAt (ed25519_sign : list Byte.byte -> list Byte.byte -> list Byte.byte)
    (signer : Signer) (ts : Z) (m : Method) (p : string) (requestBody : option json)
    : OrderlyAuthHeaders :=
  {| contentType :=
       match m with
       | GET | DELETE => "application/x-www-form-urlencoded"
       | _ => "application/json"
       end;
     orderlyTimestamp := showZ ts;
     orderlyAccountId := accountId signer;
     orderlyKey := publicKey signer;
     orderlySignature := signMessage ed25519_sign signer (canonicalOf ts m p requestBody);
     xRecvWindow := None |}.

End ClientSpec.

(** ** The master key and the key store: [encryption.service.ts],
       [orderly-key.service.ts] *)

Module MasterKey.
Import Text Base64 Hex.

(** The constructor of [EncryptionService]; [env] is
    [process.env.MASTER_ENCRYPTION_KEY].  The result is [this.masterKey]. *)
Definition newEncryptionService (env : option string) : Result (list Byte.byte) :=
  match env with
  | None | Some "" => Throw "MASTER_ENCRYPTION_KEY environment variable not set"
  | Some masterKeyHex =>
      if decide (String.length masterKeyHex = 64%nat)
      then Ok (bufferFromHex masterKeyHex)
      else Throw "MASTER_ENCRYPTION_KEY must be 32 bytes (64 hex characters)"
  end.

(** [generateMasterKey]; [random] is [crypto.randomBytes(32)]. *)
Definition generateMasterKey (random : list Byte.byte) : string := toHex random.

End MasterKey.

Module KeyService.
Import Text Json Base64 Hex Base58 Keypair Encryption.

(** The [orderlyKey] field of a user document. *)
Record StoredOrderlyKey := {
  storedPublicKey : string;
  encryptedPrivateKey : string;
  storedScope : string;
  expirationTimestamp : Z;
  createdAt : Z
}.

(** The user documents by id, each with its [orderlyKey] field; [None] is
    a document without the field, or with [null] in it. *)
Abbreviation KeyStore := (gmap string (option StoredOrderlyKey)).

(** What [getKeyForAccount] resolves to. *)
Record KeyInfo := {
  infoPublicKey : string;
  infoPrivateKeyHex : string;
  infoScope : string;
  infoExpiration : Z
}.

Record KeyExpiration := {
  isExpired : bool;
  expiresAt : Z;
  daysRemaining : Z
}.

Definition DAY_MS : Z := 24 * 60 * 60 * 1000.

Section Service.
Variable aes256gcm_seal :
  list Byte.byte -> list Byte.byte -> list Byte.byte -> list Byte.byte * list Byte.byte.
Variable aes256gcm_open :
  list Byte.byte -> list Byte.byte -> list Byte.byte -> list Byte.byte ->
  option (list Byte.byte).
Variable JSON_parse : string -> option json.
Variable masterKey : list Byte.byte.

(** [generateKeyForAccount]; [privateKeyBytes], [publicKeyBytes] and [iv]
    are what the random sources gave, [now1] and [now2] the two readings of
    [Date.now()].  Firestore's [update] fails on a missing document. *)
Definition generateKeyForAccount (privateKeyBytes publicKeyBytes iv : list Byte.byte)
    (now1 now2 : Z) (account scope : string) (expirationDays : Z)
    (store : KeyStore) : Result GeneratedKeypair * KeyStore :=
  match generateEd25519Keypair privateKeyBytes publicKeyBytes with
  | Throw e => (Throw e, store)
  | Ok generated =>
      let expiration := now1 + expirationDays * 24 * 60 * 60 * 1000 in
      match encrypt aes256gcm_seal masterKey iv (privateKeyHex generated) with
      | Throw e => (Throw e, store)
      | Ok sealed =>
          match store !! account with
          | None => (Throw "NOT_FOUND: no document to update", store)
          | Some _ =>
              (Ok generated,
               <[account := Some {| storedPublicKey := publicKeyBase58 generated;
                                    encryptedPrivateKey := sealed;
                                    storedScope := scope;
                                    expirationTimestamp := expiration;
                                    createdAt := now2 |}]> store)
          end
      end
  end.

(** [getKeyForAccount]; [None] is [null]. *)
Definition getKeyForAccount (now : Z) (account : string) (store : KeyStore)
    : Result (option KeyInfo) :=
  match store !! account with
  | None => Ok None                                   (* no such document *)
  | Some None => Ok None                              (* no key data *)
  | Some (Some keyData) =>
      if Z.ltb (expirationTimestamp keyData) now then Ok None
      else
        match decrypt aes256gcm_open JSON_parse masterKey
                (encryptedPrivateKey keyData) with
        | Throw e => Throw e
        | Ok hex =>
            Ok (Some {| infoPublicKey := storedPublicKey keyData;
                        infoPrivateKeyHex := hex;
                        infoScope := storedScope keyData;
                        infoExpiration := expirationTimestamp keyData |})
        end
  end.

Definition hasValidKey (now : Z) (account : string) (store : KeyStore) : Result bool :=
  match getKeyForAccount now account store with
  | Throw e => Throw e
  | Ok key => Ok (bool_decide (is_Some key))
  end.

Definition deleteKeyForAccount (account : string) (store : KeyStore)
    : Result unit * KeyStore :=
  match store !! account with
  | None => (Throw "NOT_FOUND: no document to update", store)
  | Some _ => (Ok tt, <[account := None]> store)
  end.

(** [getKeyExpiration]; [now1] is read inside [getKeyForAccount], [now2]
    after it. *)
Definition getKeyExpiration (now1 now2 : Z) (account : string) (store : KeyStore)
    : Result (option KeyExpiration) :=
  match getKeyForAccount now1 account store with
  | Throw e => Throw e
  | Ok None => Ok None
  | Ok (Some key) =>
      Ok (Some {| isExpired := Z.ltb (infoExpiration key) now2;
                  expiresAt := infoExpiration key;
                  daysRemaining :=
                    Z.max 0 ((infoExpiration key - now2) / (24 * 60 * 60 * 1000)) |})
  end.

End Service.

End KeyService.

(** A key store to run the key service on, under the stand-in cipher. *)
Module KeyScenarios.
Import Text Json Base64 Encryption KeyService StandIns.

Definition sealedAbcd : string :=
  match encrypt mirrorSeal key32 nonce12 "abcd" with
  | Ok sealed => sealed
  | Throw _ => ""
  end.

Definition keyStore0 : KeyStore :=
  {[ "0xacc" := Some {| storedPublicKey := "2";
                        encryptedPrivateKey := sealedAbcd;
                        storedScope := "trading";
                        expirationTimestamp := 1000 + 365 * DAY_MS;
                        createdAt := 1001 |} ]}.

End KeyScenarios.

(** ** One-time key exports: the key-export part of [db.service.ts] and
       [api/routes/export.ts] *)

Module KeyExports.
Import Text.

(** A Firestore [Timestamp]. *)
Record Timestamp := {
  seconds : Z;
  nanoseconds : Z
}.

(** [Timestamp.now()] at the clock reading [ms]: whole milliseconds. *)
Definition Timestamp_now (ms : Z) : Timestamp :=
  {| seconds := ms / 1000; nanoseconds := (ms mod 1000) * 1000000 |}.

Definition toMillis (t : Timestamp) : Z :=
  seconds t * 1000 + nanoseconds t / 1000000.

(** [models/user.ts]: a document of [key_exports]; its id is the secret
    path. *)
Record KeyExport := {
  privateKey : string;
  createdAt : Timestamp;
  expiresAt : Timestamp;
  accessed : bool
}.

Abbreviation ExportStore := (gmap string KeyExport).

(** The Firestore round trips of the key-export methods. *)
Inductive ExportOp :=
| OpSet (secretPath : string)
| OpGet (secretPath : string)
| OpUpdate (secretPath : string)
| OpDelete (secretPath : string).

Section DbService.
(** Which round trips fail. *)
Variable firestore : ExportOp -> Result unit.

(** [createKeyExport(secretPath, privateKey, ttlSeconds)]; [clock] is the
    reading behind [Timestamp.now()]. *)
Definition createKeyExport (clock : Z) (secretPath key : string) (ttlSeconds : Z)
    (store : ExportStore) : Result unit * ExportStore :=
  let now := Timestamp_now clock in
  let expires :=
    {| seconds := seconds now + ttlSeconds; nanoseconds := nanoseconds now |} in
  match firestore (OpSet secretPath) with
  | Throw e => (Throw e, store)
  | Ok _ =>
      (Ok tt,
       <[secretPath := {| privateKey := key; createdAt := now;
                          expiresAt := expires; accessed := false |}]> store)
  end.

(** [deleteKeyExport]: deleting a missing document is no error. *)
Definition deleteKeyExport (secretPath : string) (store : ExportStore)
    : Result unit * ExportStore :=
  match firestore (OpDelete secretPath) with
  | Throw e => (Throw e, store)
  | Ok _ => (Ok tt, delete secretPath store)
  end.

(** [getKeyExport]; [clock] is [Date.now()]. *)
Definition getKeyExport (clock : Z) (secretPath : string) (store : ExportStore)
    : Result (option KeyExport) * ExportStore :=
  match firestore (OpGet secretPath) with
  | Throw e => (Throw e, store)
  | Ok _ =>
      match store !! secretPath with
      | None => (Ok None, store)
      | Some data =>
          if Z.ltb (toMillis (expiresAt data)) clock
          then match deleteKeyExport secretPath store with
               | (Throw e, store') => (Throw e, store')
               | (Ok _, store') => (Ok None, store')
               end
          else (Ok (Some data), store)
      end
  end.

(** [markKeyExportAccessed]: an [update], which needs the document. *)
Definition markKeyExportAccessed (secretPath : string) (store : ExportStore)
    : Result unit * ExportStore :=
  match firestore (OpUpdate secretPath) with
  | Throw e => (Throw e, store)
  | Ok _ =>
      match store !! secretPath with
      | None => (Throw "NOT_FOUND: no document to update", store)
      | Some data =>
          (Ok tt,
           <[secretPath := {| privateKey := privateKey data;
                              createdAt := createdAt data;
                              expiresAt := expiresAt data;
                              accessed := true |}]> store)
      end
  end.

(** What the route answers. *)
Inductive Response :=
| Served (key : string)              (* 200, with the private key *)
| NotFound                           (* 404 *)
| Gone                               (* 410 *)
| ServerError (message : string).    (* 500 *)

(** [GET /api/export/:secretPath], one request from its start to its end
    with no other request in between. *)
Definition getExport (clock : Z) (secretPath : string) (store : ExportStore)
    : Response * ExportStore :=
  match getKeyExport clock secretPath store with
  | (Throw e, store1) => (ServerError e, store1)
  | (Ok None, store1) => (NotFound, store1)
  | (Ok (Some keyExport), store1) =>
      if accessed keyExport
      then match deleteKeyExport secretPath store1 with
           | (Throw e, store2) => (ServerError e, store2)
           | (Ok _, store2) => (Gone, store2)
           end
      else match deleteKeyExport secretPath store1 with
           | (Throw e, store2) => (ServerError e, store2)
           | (Ok _, store2) => (Served (privateKey keyExport), store2)
           end
  end.

End DbService.

End KeyExports.

(** ** Verifying one deposit transaction: [BlockchainService.verifyUSDCDeposit] *)

Module ChainVerify.
Import Text Chain.

(** A log of a transaction receipt; [parsed] is what [iface.parseLog]
    makes of it: the [from], [to] and [value] of a transfer, or an error. *)
Record ReceiptLog := {
  logAddress : string;
  topic0 : option string;
  parsed : Result (string * string * Z)
}.

(** [ethers.utils.id('Transfer(address,address,uint256)')] *)
Definition TRANSFER_TOPIC : string :=
  "0xddf252ad1be2c89b69c2b068fc378daa952ba7f163c4a11628f55a4df523b3ef".

(** What [verifyUSDCDeposit] resolves to when it does not resolve to
    [null]. *)
Record Verified := {
  valid : bool;
  verifiedAmount : Q;
  verifiedFrom : string;
  verifiedBlock : Z;
  verifiedConfirmations : Z
}.

Section Service.
Variable rpc : Rpc.
(** [receipt.logs] of the receipt of a transaction; [None] when absent. *)
Variable logsOf : string -> option (list ReceiptLog).
Variable usdcAddress : string.

(** The predicate of [receipt.logs.find]. *)
Definition isUsdcTransfer (log : ReceiptLog) : bool :=
  String.eqb (toLowerCase (logAddress log)) (toLowerCase usdcAddress) &&
  match topic0 log with
  | Some t => String.eqb t TRANSFER_TOPIC
  | None => false
  end.

(** [minAmount && amount < minAmount]; an absent or zero minimum is
    falsy. *)
Definition belowMinimum (minAmount : option Q) (amount : Q) : bool :=
  match minAmount with
  | None => false
  | Some m =>
      if Qeq_bool m 0 then false
      else if Qlt_le_dec amount m then true else false
  end.

(** The [try] block of [verifyUSDCDeposit]. *)
Definition verifyUSDCDeposit_try (h expectedTo : string) (minAmount : option Q)
    : Result (option Verified) :=
  match getTransaction rpc h with
  | None => Ok None
  | Some receipt =>
      match logsOf h with
      | None => Ok None
      | Some logs =>
          match find isUsdcTransfer logs with
          | None => Ok None
          | Some transferEvent =>
              match parsed transferEvent with
              | Throw e => Throw e
              | Ok (sender, recipient, value) =>
                  if negb (String.eqb (toLowerCase recipient) (toLowerCase expectedTo))
                  then Ok None                          (* transfer to wrong address *)
                  else
                    match decimals rpc with
                    | Throw e => Throw e
                    | Ok dec =>
                        let amount := formatUnits value dec in
                        if belowMinimum minAmount amount then Ok None
                        else
                          match getCurrentBlock rpc with
                          | Throw e => Throw e
                          | Ok currentBlock =>
                              Ok (Some
                                {| valid := true;
                                   verifiedAmount := amount;
                                   verifiedFrom := sender;
                                   verifiedBlock := receiptBlockNumber receipt;
                                   verifiedConfirmations :=
                                     currentBlock - receiptBlockNumber receipt |})
                          end
                    end
              end
          end
      end
  end.

(** [verifyUSDCDeposit]: [catch (error) { ...; return null; }] *)
Definition verifyUSDCDeposit (h expectedTo : string) (minAmount : option Q)
    : option Verified :=
  match verifyUSDCDeposit_try h expectedTo minAmount with
  | Ok r => r
  | Throw _ => None
  end.

End Service.

End ChainVerify.

(** A transaction with two transfers, to run the verification on. *)
Module VerifyScenarios.
Import Text Chain ChainVerify.

Definition usdc : string := "0xaf88d065e77c8cC2239327C5EDb3A432268e5831".
Definition platform : string := "0xPlatform".

Definition transferTo (recipient : string) (value : Z) : ReceiptLog :=
  {| logAddress := usdc; topic0 := Some TRANSFER_TOPIC;
     parsed := Ok ("0xSender", recipient, value) |}.

Definition minedRpc : Rpc :=
  {| getBlockNumber := Ok 120;
     queryFilter := fun _ _ _ => Ok [];
     decimals := Ok 6;
     getTransactionReceipt := fun _ => Ok (Some {| receiptBlockNumber := 100 |}) |}.

End VerifyScenarios.

(** ** The other typed-data signatures of [orderly-wallet.ts] *)

Module OrderlyWallet.
Import Text Eip712.

(** [orderlyKey.startsWith('ed25519:') ? orderlyKey : `ed25519:${orderlyKey}`] *)
Definition formattedKey (orderlyKey : string) : string :=
  if String.prefix "ed25519:" orderlyKey then orderlyKey
  else "ed25519:" ++ orderlyKey.

(** [signAddOrderlyKey]: what it hands to [_signTypedData]; [now] is
    [Date.now()]. *)
Definition signAddOrderlyKey (now : Z) (brokerId : string) (chain : Z)
    (orderlyKey scope : string) (expirationDays : Z) : TypedData :=
  let expiration := now + expirationDays * 24 * 60 * 60 * 1000 in
  {| domain := createDomain chain OFF_CHAIN_VERIFYING_CONTRACT;
     types := ADD_ORDERLY_KEY_TYPES;
     message :=
       [ ("brokerId", VString brokerId);
         ("chainId", VNumber chain);
         ("orderlyKey", VString (formattedKey orderlyKey));
         ("scope", VString scope);
         ("timestamp", VNumber now);
         ("expiration", VNumber expiration) ] |}.

(** [signWithdraw] *)
Definition signWithdraw (now : Z) (brokerId : string) (chain : Z)
    (receiver token amount : string) (withdrawNonce : Z) (ledgerAddress : string)
    : TypedData :=
  {| domain := createDomain chain ledgerAddress;
     types := WITHDRAW_TYPES;
     message :=
       [ ("brokerId", VString brokerId);
         ("chainId", VNumber chain);
         ("receiver", VString receiver);
         ("token", VString token);
         ("amount", VString amount);
         ("withdrawNonce", VNumber withdrawNonce);
         ("timestamp", VNumber now) ] |}.

(** [signSettlePnl] *)
Definition signSettlePnl (now : Z) (brokerId : string) (chain : Z)
    (settleNonce : Z) (ledgerAddress : string) : TypedData :=
  {| domain := createDomain chain ledgerAddress;
     types := SETTLE_PNL_TYPES;
     message :=
       [ ("brokerId", VString brokerId);
         ("chainId", VNumber chain);
         ("settleNonce", VNumber settleNonce);
         ("timestamp", VNumber now) ] |}.

(** [addOrderlyKeyToAccount]: the scope defaults to [trading], the
    expiry to 365 days. *)
Definition addOrderlyKeyToAccount (now : Z) (brokerId : string) (chain : Z)
    (orderlyKeyBase58 : string) (scope : option string) : TypedData :=
  signAddOrderlyKey now brokerId chain orderlyKeyBase58
    (match scope with Some s => s | None => "trading" end) 365.

End OrderlyWallet.

(** The vocabulary of the statements about typed data. *)
Module WalletSpec.
Import Text Eip712.

(** The message has exactly the members of its one struct type, in the
    order of the type. *)
Definition conforms (t : TypedData) : Prop :=
  exists struct fields,
    types t = [(struct, fields)] /\ map fst (message t) = map fieldName fields.

(** The characters of a text. *)
Fixpoint chars (s : string) : list ascii :=
  match s with
  | EmptyString => []
  | String c rest => c :: chars rest
  end.

End WalletSpec.

(** ** The legacy signer and service: [wallet.service.ts], [orderly.service.ts] *)

From Stdlib Require DecimalPos.

Module WalletService.
Import Text Json Base64 Hex.

(** [Number.MAX_SAFE_INTEGER], [2 ^ 53 - 1]: up to it every integer is a
    number of its own and [toString] prints all its digits; beyond it
    [toString] prints the shortest digits that read back as the same
    number, which is not what [showZ] prints. *)
Definition MAX_SAFE_INTEGER : Z := 9007199254740991.

(** A value of the order parameters.  [VInt n] is a number that is the
    integer [n], for [n] up to [MAX_SAFE_INTEGER] in absolute value;
    [VFraction] is any other number, given by the text its [toString]
    prints; [VText] is a string and [VFlag] a boolean. *)
Inductive OrderValue :=
| VInt (n : Z)
| VFraction (shown : string)
| VText (s : string)
| VFlag (b : bool).

(** A text that is [0+] or [.0+]: what [/\.?0+$/] matches when it starts
    at the head of the text. *)
Fixpoint allZeros (s : string) : bool :=
  match s with
  | EmptyString => true
  | String c rest => Ascii.eqb c "0" && allZeros rest
  end.

Definition zerosToTheEnd (s : string) : bool :=
  match s with
  | EmptyString => false
  | String c rest =>
      if Ascii.eqb c "." then negb (String.eqb rest "") && allZeros rest
      else Ascii.eqb c "0" && allZeros rest
  end.

(** [s.replace(/\.?0+$/, '')]: the match that starts leftmost is removed. *)
Fixpoint stripZeros (s : string) : string :=
  if zerosToTheEnd s then EmptyString
  else match s with
       | EmptyString => EmptyString
       | String c rest => String c (stripZeros rest)
       end.

(** One pass of the loop of [normalizeOrderParams]; on [VInt n] it is
    the code's text for [n] within the safe range only. *)
Definition normalizeValue (value : OrderValue) : string :=
  match value with
  | VInt n => stripZeros (showZ n)
  | VFraction shown => stripZeros shown
  | VText s => s
  | VFlag true => "true"
  | VFlag false => "false"
  end.

(** [normalizeOrderParams]: the entries in the order of [Object.entries]. *)
Definition normalizeOrderParams (params : list (string * OrderValue))
    : list (string * string) :=
  map (fun entry => (entry.1, normalizeValue entry.2)) params.

(** [parts.join('&')] *)
Fixpoint joinAmp (parts : list string) : string :=
  match parts with
  | [] => ""
  | [x] => x
  | x :: rest => x ++ "&" ++ joinAmp rest
  end.

Section Signing.
(** [entries.sort(([a], [b]) => a.localeCompare(b))] *)
Variable sortByKey : list (string * string) -> list (string * string).
(** [wallet.signMessage(arrayify(keccak256(toUtf8Bytes(text))))] under a
    trading key. *)
Variable signDigest : string -> string -> string.
(** [ed.sign(message, privateKey)] *)
Variable ed25519_sign : list Byte.byte -> list Byte.byte -> list Byte.byte.

(** The [queryString] of [signTradingOrder]. *)
Definition queryString (orderParams : list (string * OrderValue)) : string :=
  joinAmp (map (fun entry => entry.1 ++ "=" ++ entry.2)
               (sortByKey (normalizeOrderParams orderParams))).

Definition signTradingOrder (tradingPrivateKey : string)
    (orderParams : list (string * OrderValue)) : string :=
  signDigest tradingPrivateKey (queryString orderParams).

(** [signOrderlyRequest]: [Buffer.from(signature).toString('base64url')] *)
Definition signOrderlyRequest (privateKeyHex message : string) : string :=
  let privateKeyBytes := bufferFromHex privateKeyHex in
  let messageBytes := list_byte_of_string message in
  base64url (ed25519_sign messageBytes privateKeyBytes).

End Signing.

End WalletService.

Module OrderlyService.
Import Text Json Base64 Hex WalletService.

Section Service.
Variable ed25519_sign : list Byte.byte -> list Byte.byte -> list Byte.byte.

(** The headers the service puts on a signed call. *)
Record SignedCall := {
  authMessage : string;
  callSignature : string;
  callTimestamp : string
}.

Definition signedCall (orderlyPrivateKey : string) (timestamp : Z) (authMessage : string)
    : SignedCall :=
  {| authMessage := authMessage;
     callSignature := signOrderlyRequest ed25519_sign orderlyPrivateKey authMessage;
     callTimestamp := showZ timestamp |}.

(** [getBalance]: [`${timestamp}GET${path}`] with [/v1/client/holding] *)
Definition getBalance (orderlyPrivateKey : string) (timestamp : Z) : SignedCall :=
  signedCall orderlyPrivateKey timestamp
    (showZ timestamp ++ "GET" ++ "/v1/client/holding").

(** [getPositions] *)
Definition getPositions (orderlyPrivateKey : string) (timestamp : Z) : SignedCall :=
  signedCall orderlyPrivateKey timestamp (showZ timestamp ++ "GET" ++ "/v1/positions").

(** [creditAccountBalance]:
    [`${timestamp}POST/v1/broker/credit${JSON.stringify(bodyData)}`];
    [amount] is the amount as a JSON number. *)
Definition creditBody (account : string) (amount : json) : json :=
  JObject [("account_id", JString account); ("token", JString "USDC"); ("amount", amount)].

Definition creditAccountBalance (orderlyPrivateKey : string) (timestamp : Z)
    (account : string) (amount : json) : SignedCall :=
  signedCall orderlyPrivateKey timestamp
    (showZ timestamp ++ "POST/v1/broker/credit" ++ stringify (creditBody account amount)).

(** [placeOrder]: the body that is signed carries the trading signature. *)
Definition placeOrder (orderlyPrivateKey : string) (timestamp : Z)
    (bodyWithSignature : json) : SignedCall :=
  signedCall orderlyPrivateKey timestamp
    (showZ timestamp ++ "POST/v1/order" ++ stringify bodyWithSignature).

End Service.

End OrderlyService.

(** The vocabulary of the statements about the legacy signer. *)
Module TradingSpec.

(** A text of decimal digits only. *)
Fixpoint allDigits (s : string) : bool :=
  match s with
  | EmptyString => true
  | String c rest =>
      ((48 <=? nat_of_ascii c) && (nat_of_ascii c <=? 57))%nat && allDigits rest
  end.

End TradingSpec.

(** ** Order validation: [api/routes/orderly-order.ts] *)

Module OrderRoute.
Import Text.

(** A JavaScript number: not-a-number, an infinity, or a finite value. *)
Inductive num :=
| NaN
| Infinity (negative : bool)
| Num (q : Q).

(** [order.field] in a condition: [undefined], [NaN] and zero are falsy. *)
Definition given (x : option num) : bool :=
  match x with
  | Some (Num q) => negb (Qeq_bool q 0)
  | Some (Infinity _) => true
  | Some NaN | None => false
  end.

(** [order.field !== undefined && order.field <= 0] *)
Definition notPositive (x : option num) : bool :=
  match x with
  | Some (Num q) => Qle_bool q 0
  | Some (Infinity negative) => negative
  | Some NaN | None => false
  end.

(** The fields of [CreateOrderRequest] that the validation reads;
    [order_type] and [side] are whatever texts the request body held. *)
Record CreateOrderRequest := {
  symbol : string;
  order_type : string;
  side : string;
  order_price : option num;
  order_quantity : option num;
  order_amount : option num
}.

Definition oneOf (options : list string) (s : string) : bool :=
  existsb (String.eqb s) options.

(** [validateOrder]: the first complaint, or [None] for [null]. *)
Definition validateOrder (order : CreateOrderRequest) : option string :=
  if String.eqb (order_type order) "LIMIT" && negb (given (order_price order))
  then Some "LIMIT orders require order_price"
  else if oneOf ["MARKET"; "ASK"; "BID"] (order_type order) && given (order_price order)
  then Some (order_type order ++ " orders should not specify order_price")
  else if oneOf ["ASK"; "BID"] (order_type order)
          && (given (order_quantity order) || given (order_amount order))
  then Some (order_type order ++ " orders should not specify quantity/amount")
  else if given (order_quantity order) && given (order_amount order)
  then Some "Cannot specify both order_quantity and order_amount"
  else if negb (oneOf ["BUY"; "SELL"] (side order))
  then Some "side must be BUY or SELL"
  else if notPositive (order_price order)
  then Some "order_price must be positive"
  else if notPositive (order_quantity order)
  then Some "order_quantity must be positive"
  else if notPositive (order_amount order)
  then Some "order_amount must be positive"
  else None.

End OrderRoute.

(** The vocabulary of the statements about orders. *)
Module OrderSpec.
Import OrderRoute.

(** A finite number above zero, or plus infinity. *)
Definition positive (x : option num) : Prop :=
  match x with
  | Some (Num q) => (0 < q)%Q
  | Some (Infinity negative) => negative = false
  | _ => False
  end.

(** Nothing that counts: absent, or not a number. *)
Definition blank (x : option num) : Prop := x = None \/ x = Some NaN.

End OrderSpec.

(** ** The vocabulary of the statements about a whole tick of the worker *)

Module LedgerSpec.
Import Chain Deposits.

(** The document that [recordTransfer] and [createDeposit] write for a
    transfer [t] seen at block height [currentBlock]. *)
Definition recordOf (w : World) (platformAddress : string) (currentBlock : Z)
    (t : Transfer) : Deposit :=
  {| userId := ""; twitterHandle := "";
     depTxHash := txHash t; depAmount := amount t;
     fromAddress := from t; toAddress := platformAddress;
     depBlockNumber := blockNumber t;
     confirmations := currentBlock - blockNumber t;
     requiredConfirmations := CONFIRMATIONS_REQUIRED;
     status :=
       if decide (CONFIRMATIONS_REQUIRED <= currentBlock - blockNumber t)
       then confirmed else pending;
     orderlyConfirmed := false;
     detectedAt := clock w;
     confirmedAt := None; creditedAt := None;
     errorMessage := None; retryCount := 0 |}.

(** No two deposit documents carry the same transaction hash. *)
Definition uniqueHashes (db : Db) : Prop :=
  forall id1 id2 x1 x2,
    deposits db !! id1 = Some x1 -> deposits db !! id2 = Some x2 ->
    depTxHash x1 = depTxHash x2 -> id1 = id2.

(** Deposit [id] and user [uid] are as they were. *)
Definition untouched (id uid : string) : relation Db :=
  fun a b => deposits b !! id = deposits a !! id /\ users b !! uid = users a !! uid.

(** No document went away, and no user or wallet document was added. *)
Definition nothingDeleted : relation Db :=
  fun a b =>
    dom (deposits a) ⊆ dom (deposits b) /\
    dom (users b) = dom (users a) /\
    dom (platform_wallets b) = dom (platform_wallets a).

(** The event is not a ledger credit to user [uid]. *)
Definition notCreditTo (uid : string) (e : Event) : Prop :=
  forall amt, e <> LogCreditedInternal uid amt.

(** [id] is the only pending deposit of its user. *)
Definition onlyPendingOf (db : Db) (id : string) (d : Deposit) : Prop :=
  forall id' d', (id', d') ∈ pendingDeposits db -> id' <> id -> userId d' <> userId d.

End LedgerSpec.

Module LedgerScenarios.
Import Chain Deposits Scenarios.

(** Everything works, and the chain is five blocks past the transfer. *)
Definition shallowWorld : World :=
  {| clock := 5;
     rpc := {| getBlockNumber := Ok 105;
               queryFilter := fun _ _ _ => Ok [transferLog];
               decimals := Ok 0;
               getTransactionReceipt :=
                 fun _ => Ok (Some {| receiptBlockNumber := 100 |}) |};
     decrypt := fun _ => Ok "key";
     creditAccountBalance := fun _ _ _ => Ok tt;
     firestore := fun _ => Ok tt |}.

(** A second claimed deposit of alice, and the store with both. *)
Definition d2 : Deposit :=
  {| userId := "u1"; twitterHandle := "alice";
     depTxHash := "0xdef"; depAmount := 50%Q;
     fromAddress := "0xsender"; toAddress := "0xplatform";
     depBlockNumber := 100; confirmations := 3; requiredConfirmations := 12;
     status := pending; orderlyConfirmed := false;
     detectedAt := 0; confirmedAt := None; creditedAt := None;
     errorMessage := None; retryCount := 0 |}.

Definition twoDeposits : Db :=
  {| deposits := {["d1" := d1; "d2" := d2]}; users := {["u1" := alice]};
     platform_wallets := {["w1" := wallet0]} |}.

End LedgerScenarios.

(** ** The worker over time, and handlers that overlap *)

(** The monad [M] of the deposit worker runs one call from its start to its
    end on a store that nobody else writes in between.  The two modules
    below go beyond one call: [Ticks] runs the worker tick after tick, as
    [setInterval(monitorDeposits, SCAN_INTERVAL)] does when no tick outlasts
    the interval; [Overlap] cuts two handlers at an [await] and lets a
    second call run between the two halves of the first. *)

Module Ticks.
Import Chain Deposits.

(** One call of [tick] per world of the list, each on the store the one
    before left; the result is the last store and everything logged. *)
Fixpoint runs (tick : World -> M unit) (worlds : list World) (db : Db)
    : Db * list Event :=
  match worlds with
  | [] => (db, [])
  | w :: rest =>
      let '(db2, t2) := runs tick rest (exec (tick w) db) in
      (db2, (trace (tick w) db ++ t2)%list)
  end.

End Ticks.

Module Overlap.
Import Chain Deposits.

(** *** The loop body of [scanForNewDeposits], cut at its first [await] *)

(** Up to [await dbService.getDepositByTxHash(...)]: what the query
    returned, or [None] when it threw and the [catch] ended the pass. *)
Definition checkTransfer (w : World) (t : Transfer)
    : M (option (option (string * Deposit))) :=
  tryCatch
    (do existing <- getDepositByTxHash w (txHash t);
     ret (Some existing))
    (fun e => run emit (LogError e); ret None).

(** From there to the end of the pass, given what the query returned. *)
Definition addTransfer (w : World) (platformAddress : string) (currentBlock : Z)
    (t : Transfer) (checked : option (option (string * Deposit))) : M unit :=
  match checked with
  | None => ret tt
  | Some existing =>
      tryCatch
        (match existing with
         | Some _ => ret tt
         | None =>
             if Qlt_le_dec (amount t) 10 then ret tt
             else
               let confs := currentBlock - blockNumber t in
               let st :=
                 if decide (CONFIRMATIONS_REQUIRED <= confs) then confirmed
                 else pending in
               do rec <- createDeposit w
                 {| userId := ""; twitterHandle := "";
                    depTxHash := txHash t; depAmount := amount t;
                    fromAddress := from t; toAddress := platformAddress;
                    depBlockNumber := blockNumber t;
                    confirmations := confs;
                    requiredConfirmations := CONFIRMATIONS_REQUIRED;
                    status := st; orderlyConfirmed := false;
                    detectedAt := clock w;
                    confirmedAt := None; creditedAt := None;
                    errorMessage := None; retryCount := 0 |};
               emit (LogRecorded rec.1 st)
         end)
        (fun e => emit (LogError e))
  end.

(** Two passes over the same transfer, of two ticks that overlap (a tick
    is started by the timer whether or not the one before has returned):
    the second pass makes its query while the first waits for its own. *)
Definition overlappingPasses (wA wB : World) (platformAddress : string)
    (currentBlockA currentBlockB : Z) (t : Transfer) : M unit :=
  do checkedA <- checkTransfer wA t;
  do checkedB <- checkTransfer wB t;
  run addTransfer wA platformAddress currentBlockA t checkedA;
  addTransfer wB platformAddress currentBlockB t checkedB.

End Overlap.

(** *** The handler of [GET /api/export/:secretPath], cut after its read *)

Module ExportOverlap.
Import KeyExports.

(** From the answer of [getKeyExport] to the response. *)
Definition afterRead (firestore : ExportOp -> Result unit) (secretPath : string)
    (read : Result (option KeyExport) * ExportStore) : Response * ExportStore :=
  match read with
  | (Throw e, store1) => (ServerError e, store1)
  | (Ok None, store1) => (NotFound, store1)
  | (Ok (Some keyExport), store1) =>
      if accessed keyExport
      then match deleteKeyExport firestore secretPath store1 with
           | (Throw e, store2) => (ServerError e, store2)
           | (Ok _, store2) => (Gone, store2)
           end
      else match deleteKeyExport firestore secretPath store1 with
           | (Throw e, store2) => (ServerError e, store2)
           | (Ok _, store2) => (Served (privateKey keyExport), store2)
           end
  end.

(** Two requests for one path; the second one reads while the first waits
    for its delete.  The result is the two responses and the store. *)
Definition overlappingRequests (firestoreA firestoreB : ExportOp -> Result unit)
    (clockA clockB : Z) (secretPath : string) (store : ExportStore)
    : Response * Response * ExportStore :=
  let '(readA, store1) := getKeyExport firestoreA clockA secretPath store in
  let '(readB, store2) := getKeyExport firestoreB clockB secretPath store1 in
  let '(responseA, store3) := afterRead firestoreA secretPath (readA, store2) in
  let '(responseB, store4) := afterRead firestoreB secretPath (readB, store3) in
  (responseA, responseB, store4).

End ExportOverlap.

(** The vocabulary of the statements about runs of ticks. *)
Module TickSpec.
Import Chain Deposits.

Definition noAlert (e : Event) : Prop := forall id n, e <> LogAlert id n.

(** Every pending deposit has failed fewer than three times. *)
Definition fewRetries (db : Db) : Prop :=
  forall id x, (id, x) ∈ pendingDeposits db -> retryCount x < 3.

(** The record [id] is there with retry count [r] ... *)
Definition keepsCount (id : string) (r : Z) (db : Db) : Prop :=
  exists x, deposits db !! id = Some x /\ retryCount x = r.

(** ... or has been marked [failed]. *)
Definition countOrFailed (id : string) (r : Z) (db : Db) : Prop :=
  exists x, deposits db !! id = Some x /\ (retryCount x = r \/ status x = failed).

(** What holds before still holds after. *)
Definition stable (Q : Db -> Prop) : relation Db := fun a b => Q a -> Q b.

(** The node answers an event query with logs of the blocks asked for. *)
Definition honest (node : Rpc) : Prop :=
  forall platformAddress fromBlock toBlock logs,
    queryFilter node platformAddress fromBlock toBlock = Ok logs ->
    Forall (fun l => fromBlock <= logBlockNumber l <= toBlock) logs.

(** The store holds one wallet, the platform's, scanned up to [cursor]. *)
Definition scannedTo (cursor : Z) (db : Db) : Prop :=
  exists wid wallet,
    platform_wallets db = {[wid := wallet]} /\
    network wallet = "arbitrum" /\ lastScannedBlock wallet = cursor.

(** The wallets are as they were, and every record was there before, in
    the same block. *)
Definition sameBlocks : relation Db :=
  fun a b =>
    platform_wallets b = platform_wallets a /\
    forall id x', deposits b !! id = Some x' ->
      exists x, deposits a !! id = Some x /\ depBlockNumber x' = depBlockNumber x.

(** The one wallet has been scanned to [gapEnd] or beyond, and no record
    is of a block up to [gapEnd]. *)
Definition pastGap (gapEnd : Z) (db : Db) : Prop :=
  (exists cursor, gapEnd <= cursor /\ scannedTo cursor db) /\
  forall id x, deposits db !! id = Some x -> gapEnd < depBlockNumber x.

End TickSpec.

Module TickScenarios.
Import Chain Deposits Scenarios.

(** The claimed deposit after three failed credits, put back by hand. *)
Definition d1_thrice : Deposit :=
  {| userId := "u1"; twitterHandle := "alice";
     depTxHash := "0xabc"; depAmount := 100%Q;
     fromAddress := "0xsender"; toAddress := "0xplatform";
     depBlockNumber := 100; confirmations := 12; requiredConfirmations := 12;
     status := confirmed; orderlyConfirmed := false;
     detectedAt := 0; confirmedAt := Some 0; creditedAt := None;
     errorMessage := Some "Orderly credit error: unavailable"; retryCount := 3 |}.

Definition ledger3 : Db :=
  {| deposits := {["d1" := d1_thrice]}; users := {["u1" := alice]};
     platform_wallets := {["w1" := wallet0]} |}.

(** A node at height [height] that has the 100-unit transfer in block 100
    and returns it for the ranges that hold block 100. *)
Definition archiveNode (height : Z) : Rpc :=
  {| getBlockNumber := Ok height;
     queryFilter := fun _ fromBlock toBlock =>
       Ok (if Z.leb fromBlock 100 && Z.leb 100 toBlock then [transferLog] else []);
     decimals := Ok 0;
     getTransactionReceipt := fun _ => Ok (Some {| receiptBlockNumber := 100 |}) |}.

Definition worldOf (node : Rpc) : World :=
  {| clock := 5; rpc := node;
     decrypt := fun _ => Ok "key";
     creditAccountBalance := fun _ _ _ => Ok tt;
     firestore := fun _ => Ok tt |}.

(** A second transfer, of 50 in block 105. *)
Definition otherLog : TransferLog :=
  {| transactionHash := "0xdef"; args := Some ("0xsender", 50);
     logBlockNumber := 105 |}.

(** A node that returns the transfer on record, and the new one twice. *)
Definition repeatingNode : Rpc :=
  {| getBlockNumber := Ok 112;
     queryFilter := fun _ _ _ => Ok [transferLog; otherLog; otherLog];
     decimals := Ok 0;
     getTransactionReceipt := fun _ => Ok (Some {| receiptBlockNumber := 100 |}) |}.

End TickScenarios.

(** * Properties of the chain scanner *)

Module ChainFacts.
Import Chain Scenarios.

Lemma quietRpc_scan addr fromBlock toBlock :
  scanForDeposits_try quietRpc addr fromBlock toBlock = Ok [].
Proof.
  unfold scanForDeposits_try. destruct toBlock as [t|]; simpl; [|reflexivity].
  destruct (decide (t = 0)); reflexivity.
Qed.

(** The three remote calls of a scan; each failure makes the [try] block
    throw. *)
Lemma queryFilter_failure rpc addr fromBlock t message :
  t <> 0 ->
  queryFilter rpc addr fromBlock t = Throw message ->
  scanForDeposits_try rpc addr fromBlock (Some t) = Throw message.
Proof.
  intros Ht Hq. unfold scanForDeposits_try.
  destruct (decide (t = 0)); [contradiction|]. rewrite Hq. reflexivity.
Qed.

Lemma decimals_failure rpc addr fromBlock t events message :
  t <> 0 ->
  queryFilter rpc addr fromBlock t = Ok events ->
  decimals rpc = Throw message ->
  scanForDeposits_try rpc addr fromBlock (Some t) = Throw message.
Proof.
  intros Ht Hq Hd. unfold scanForDeposits_try.
  destruct (decide (t = 0)); [contradiction|]. rewrite Hq, Hd. reflexivity.
Qed.

Lemma getBlockNumber_failure rpc addr fromBlock message :
  getBlockNumber rpc = Throw message ->
  scanForDeposits_try rpc addr fromBlock None = Throw message.
Proof. intros Hb. unfold scanForDeposits_try, getCurrentBlock. rewrite Hb. reflexivity. Qed.

(** C10.  Whatever makes the scan fail (the block-height call, the event
    query, the decimals call, an undecodable log), [scanForDeposits]
    swallows the error and returns the empty list: the very answer a
    successful scan over a range without transfers gives, so the result
    alone does not tell the two apart. *)
Theorem scan_failure_indistinguishable
    (rpc : Rpc) (addr : string) (fromBlock : Z) (toBlock : option Z) (message : string) :
  scanForDeposits_try rpc addr fromBlock toBlock = Throw message ->
  scanForDeposits rpc addr fromBlock toBlock = [] /\
  exists ok : Rpc,
    scanForDeposits_try ok addr fromBlock toBlock = Ok [] /\
    scanForDeposits ok addr fromBlock toBlock
      = scanForDeposits rpc addr fromBlock toBlock.
Proof.
  intros Hfail. unfold scanForDeposits. rewrite Hfail. split; [reflexivity|].
  exists quietRpc. rewrite quietRpc_scan. split; reflexivity.
Qed.

Lemma scan_failure_indistinguishable_witness :
  scanForDeposits timeoutRpc "0xplatform" 100 (Some 112) = [] /\
  exists ok : Rpc,
    scanForDeposits_try ok "0xplatform" 100 (Some 112) = Ok [] /\
    scanForDeposits ok "0xplatform" 100 (Some 112)
      = scanForDeposits timeoutRpc "0xplatform" 100 (Some 112).
Proof.
  apply (scan_failure_indistinguishable timeoutRpc "0xplatform" 100 (Some 112)
           "timeout exceeded").
  reflexivity.
Defined.

End ChainFacts.

(** * Properties of the deposit pipeline *)

Module DepositFacts.
Import Chain Deposits DepositSpec Scenarios.

(** ** A small program logic: frame conditions on the store and the trace *)

Section Logic.
Context (I : relation Db) (P : Event -> Prop).
Context `{!Reflexive I, !Transitive I}.

Lemma preserves_ret {A} (a : A) : preserves I P (ret a).
Proof. intros db. split; [reflexivity | constructor]. Qed.

Lemma preserves_throw {A} e : preserves I P (@throw A e).
Proof. intros db. split; [reflexivity | constructor]. Qed.

Lemma preserves_lift {A} (r : Result A) : preserves I P (lift r).
Proof. intros db. split; [reflexivity | constructor]. Qed.

Lemma preserves_get : preserves I P get.
Proof. intros db. split; [reflexivity | constructor]. Qed.

Lemma preserves_emit e : P e -> preserves I P (emit e).
Proof. intros He db. split; [reflexivity | repeat constructor; exact He]. Qed.

Lemma preserves_modify f : (forall db, I db (f db)) -> preserves I P (modify f).
Proof. intros Hf db. split; [apply Hf | constructor]. Qed.

Lemma preserves_bind {A B} (m : M A) (k : A -> M B) :
  preserves I P m -> (forall a, preserves I P (k a)) -> preserves I P (bind m k).
Proof.
  intros Hm Hk db. specialize (Hm db).
  unfold exec, trace, bind in *.
  destruct (m db) as [[[a|e] db1] t1]; simpl in *; [|exact Hm].
  specialize (Hk a db1). unfold exec, trace in Hk.
  destruct (k a db1) as [[r db2] t2]; simpl in *.
  destruct Hm as [HI1 HP1], Hk as [HI2 HP2]. split.
  - etrans; eassumption.
  - apply Forall_app; split; assumption.
Qed.

Lemma preserves_tryCatch {A} (m : M A) (h : string -> M A) :
  preserves I P m -> (forall e, preserves I P (h e)) -> preserves I P (tryCatch m h).
Proof.
  intros Hm Hh db. specialize (Hm db).
  unfold exec, trace, tryCatch in *.
  destruct (m db) as [[[a|e] db1] t1]; simpl in *; [exact Hm|].
  specialize (Hh e db1). unfold exec, trace in Hh.
  destruct (h e db1) as [[r db2] t2]; simpl in *.
  destruct Hm as [HI1 HP1], Hh as [HI2 HP2]. split.
  - etrans; eassumption.
  - apply Forall_app; split; assumption.
Qed.

Lemma preserves_forOf {A} (xs : list A) (body : A -> M unit) :
  (forall x, x ∈ xs -> preserves I P (body x)) -> preserves I P (forOf xs body).
Proof.
  induction xs as [|x xs IH]; intros Hbody; simpl.
  - apply preserves_ret.
  - apply preserves_bind.
    + apply Hbody. left.
    + intros _. apply IH. intros y Hy. apply Hbody. right. exact Hy.
Qed.

End Logic.

(** Walks through a monadic program, leaving the conditions on its
    [modify] and [emit] leaves. *)
Ltac walk :=
  repeat match goal with
    | |- Reflexive _ => apply _
    | |- Transitive _ => apply _
    | |- forall _, preserves _ _ _ => intros ?
    | |- preserves _ _ (ret _) => apply preserves_ret
    | |- preserves _ _ (throw _) => apply preserves_throw
    | |- preserves _ _ (lift _) => apply preserves_lift
    | |- preserves _ _ get => apply preserves_get
    | |- preserves _ _ (bind _ _) => apply preserves_bind
    | |- preserves _ _ (tryCatch _ _) => apply preserves_tryCatch
    | |- preserves _ _ (forOf _ _) => apply preserves_forOf; [.. | intros ? ?]
    | |- preserves _ _ (match ?x with _ => _ end) => destruct x
    | |- preserves _ _ (let _ := _ in _) => cbv zeta
    | |- preserves _ _ (emit _) => apply preserves_emit
    | |- preserves _ _ (modify _) => apply preserves_modify; [.. | intros ?]
    end.

(** Exposes the state-passing code behind the monadic notation. *)
Ltac unfold_monad :=
  unfold tryCatch, bind, setDeposits, call, lift, get, ret, emit, modify, throw.

(** A handler that only logs turns every outcome into a normal return. *)
Lemma tryCatch_log_ok (m : M unit) (f : string -> Event) db :
  (tryCatch m (fun e => emit (f e)) db).1.1 = Ok tt.
Proof.
  unfold tryCatch, emit. destruct (m db) as [[[[]|e] db1] t1]; reflexivity.
Qed.

Lemma forOf_ok {A} (xs : list A) (body : A -> M unit) :
  (forall x db, (body x db).1.1 = Ok tt) ->
  forall db, (forOf xs body db).1.1 = Ok tt.
Proof.
  intros Hbody. induction xs as [|x xs IH]; intros db; simpl; [reflexivity|].
  unfold bind. specialize (Hbody x db).
  destruct (body x db) as [[r db1] t1]; simpl in *. subst r.
  specialize (IH db1). destruct (forOf xs body db1) as [[r db2] t2]; simpl in *.
  exact IH.
Qed.

Lemma forOf_app {A} (xs ys : list A) (body : A -> M unit) db :
  forOf (xs ++ ys) body db =
  bind (forOf xs body) (fun _ => forOf ys body) db.
Proof.
  revert db. induction xs as [|x xs IH]; intros db; simpl.
  - unfold bind, ret. destruct (forOf ys body db) as [[r d] t]. reflexivity.
  - unfold bind in *. destruct (body x db) as [[[[]|e] db1] t1]; simpl; [|reflexivity].
    rewrite IH.
    destruct (forOf xs body db1) as [[[[]|e2] db2] t2]; simpl; [|reflexivity].
    destruct (forOf ys body db2) as [[r3 db3] t3]. simpl.
    rewrite app_assoc. reflexivity.
Qed.


(** ** The scan loop and the cursor *)

#[local] Instance sameWallets_refl : Reflexive sameWallets.
Proof. intros a. reflexivity. Qed.

#[local] Instance sameWallets_trans : Transitive sameWallets.
Proof. unfold sameWallets. intros a b c -> ->. reflexivity. Qed.

Lemma recordTransfer_wallets w addr cur t :
  preserves sameWallets notScanning (recordTransfer w addr cur t).
Proof.
  unfold recordTransfer, getDepositByTxHash, createDeposit, setDeposits, call.
  walk; try (intros f0 t0; discriminate).
  reflexivity.
Qed.

(** The loop over the found transfers always runs to its end, leaves the
    wallets alone and announces no scan. *)
Lemma record_loop w addr cur found db :
  exists db1 t1,
    forOf found (recordTransfer w addr cur) db = (Ok tt, db1, t1) /\
    platform_wallets db1 = platform_wallets db /\
    Forall notScanning t1.
Proof.
  pose proof (forOf_ok found (recordTransfer w addr cur)
                (fun x d => tryCatch_log_ok _ _ d) db) as Hok.
  assert (Hp : preserves sameWallets notScanning
                 (forOf found (recordTransfer w addr cur))).
  { apply preserves_forOf; try apply _. intros x _. apply recordTransfer_wallets. }
  specialize (Hp db). unfold exec, trace in Hp.
  destruct (forOf found (recordTransfer w addr cur) db) as [[r db1] t1].
  simpl in *. subst r. exists db1, t1. destruct Hp as [Hw Hn]. auto.
Qed.

Lemma arbitrumWallet_lookup db wid wallet :
  arbitrumWallet db = Some (wid, wallet) ->
  platform_wallets db !! wid = Some wallet.
Proof.
  unfold arbitrumWallet. intros Hh.
  apply head_Some_elem_of in Hh.
  apply elem_of_map_to_list in Hh.
  apply map_lookup_filter_Some in Hh. tauto.
Qed.


(** What one scan does to the cursor.  It never moves backwards; the scan
    that is announced is the one from [lastScannedBlock + 1] to the current
    block; the cursor moves only to the end of the range announced in the
    same tick.  It is written whenever the wallet lookup, the block-height
    call and the cursor write go through: neither the answer of the event
    query (a failed query is an empty result) nor the fate of a found
    transfer is consulted. *)
Lemma scan_cursor (w : World) (db : Db) (wid : string) (wallet : PlatformWallet) :
  arbitrumWallet db = Some (wid, wallet) ->
  exists wallet',
    platform_wallets (exec (scanForNewDeposits w) db) !! wid = Some wallet' /\
    lastScannedBlock wallet <= lastScannedBlock wallet' /\
    (forall f t, LogScanning f t ∈ trace (scanForNewDeposits w) db ->
       f = lastScannedBlock wallet + 1 /\ f <= t /\
       getBlockNumber (rpc w) = Ok t) /\
    (lastScannedBlock wallet' = lastScannedBlock wallet \/
     LogScanning (lastScannedBlock wallet + 1) (lastScannedBlock wallet')
       ∈ trace (scanForNewDeposits w) db) /\
    (forall cur,
       firestore w OpGetPlatformWallet = Ok tt ->
       getBlockNumber (rpc w) = Ok cur ->
       lastScannedBlock wallet < cur ->
       firestore w (OpUpdatePlatformWalletBlock wid cur) = Ok tt ->
       lastScannedBlock wallet' = cur).
Proof.
  intros Hq. pose proof (arbitrumWallet_lookup _ _ _ Hq) as Hl.
  destruct (record_loop w (address wallet)
              (match getBlockNumber (rpc w) with Ok c => c | Throw _ => 0 end)
              (scanForDeposits (rpc w) (address wallet)
                 (lastScannedBlock wallet + 1)
                 (Some (match getBlockNumber (rpc w) with Ok c => c | Throw _ => 0 end)))
              db)
    as (db1 & t1 & Hloop & Hw1 & Hn1).
  unfold exec, trace, scanForNewDeposits, getPlatformWallet,
    updatePlatformWalletBlock, updateDoc, getCurrentBlock.
  unfold_monad.
  destruct (firestore w OpGetPlatformWallet) as [[]|e0] eqn:Hop; simpl.
  2:{ exists wallet. split_and!; try done; try lia.
      intros f t Hin. apply list_elem_of_singleton in Hin. discriminate. }
  rewrite Hq. simpl.
  destruct (getBlockNumber (rpc w)) as [cur|e1] eqn:Hcur; simpl.
  2:{ exists wallet. split_and!; try done; try lia.
      intros f t Hin. apply list_elem_of_singleton in Hin. discriminate. }
  destruct (decide (lastScannedBlock wallet + 1 > cur)) as [Hgt|Hle]; simpl.
  { exists wallet. split_and!; try done; try lia.
    - intros f t Hin. by apply elem_of_nil in Hin.
    - intros cur' _ [= <-]. lia. }
  rewrite Hloop. simpl.
  assert (Hscan : forall f t tl,
            LogScanning f t ∈ LogScanning (lastScannedBlock wallet + 1) cur :: tl ->
            Forall notScanning tl ->
            f = lastScannedBlock wallet + 1 /\ f <= t /\ Ok cur = Ok t).
  { intros f t tl Hin Htl. apply elem_of_cons in Hin as [Heq|Hin].
    - injection Heq as -> ->. split_and!; try done; lia.
    - exfalso. rewrite Forall_forall in Htl. by apply (Htl _ Hin f t). }
  assert (Hlog : forall e, notScanning (LogError e)) by (intros e f t; discriminate).
  destruct (firestore w (OpUpdatePlatformWalletBlock wid cur)) as [[]|e2] eqn:Hup;
    simpl.
  2:{ exists wallet. rewrite Hw1. split_and!; try done; try lia.
      - intros f t Hin. eapply Hscan; [exact Hin|].
        repeat (apply Forall_app; split); auto.
      - intros cur' _ [= <-] _ Hup'. congruence. }
  rewrite Hw1, Hl. simpl.
  exists {| address := address wallet; network := network wallet;
            lastScannedBlock := cur |}.
  split_and!.
  - rewrite Hw1. rewrite lookup_alter_eq, Hl. reflexivity.
  - simpl. lia.
  - intros f t Hin. eapply Hscan; [exact Hin|].
    repeat (apply Forall_app; split); auto.
  - right. simpl. left.
  - intros cur' _ [= <-] _ _. reflexivity.
Qed.


(** ** The crediting loop *)

#[local] Instance frame_refl id : Reflexive (frame id).
Proof. intros a. split; [reflexivity|]. intros uid u Hu. eauto. Qed.

#[local] Instance frame_trans id : Transitive (frame id).
Proof.
  intros a b c [Hab Sab] [Hbc Sbc]. split; [congruence|].
  intros uid u Hu. destruct (Sab _ _ Hu) as (u1 & Hu1 & Ha1 & Hk1).
  destruct (Sbc _ _ Hu1) as (u2 & Hu2 & Ha2 & Hk2).
  exists u2. split_and!; congruence.
Qed.

Lemma processDeposit_frame w id entry :
  entry.1 <> id ->
  preserves (frame id) (notAlertFor id) (processDeposit w entry).
Proof.
  intros Hne.
  unfold processDeposit, refreshConfirmations, creditDeposit, creditFailed,
    updateDepositStatus, creditUserDeposit, getUserById, updateDoc,
    setDeposits, call.
  walk.
  all: try (intros k Hk; (discriminate Hk || (injection Hk as Hk _; contradiction))).
  all: split; simpl;
    try (rewrite lookup_alter_ne by exact Hne); try reflexivity;
    try (intros uidx ux Hux; exists ux; split_and!; done).
  all: intros uidx ux Hux; simpl;
    destruct (decide (userId entry.2 = uidx)) as [<-|Hd];
    [ rewrite lookup_alter_eq, Hux; simpl; eauto
    | rewrite lookup_alter_ne by exact Hd; eauto ].
Qed.

Lemma forOf_processDeposit_frame w id (l : list (string * Deposit)) :
  id ∉ l.*1 ->
  preserves (frame id) (notAlertFor id) (forOf l (processDeposit w)).
Proof.
  intros Hid. apply preserves_forOf; try apply _.
  intros x Hx. apply processDeposit_frame. intros <-.
  apply Hid. apply list_elem_of_fmap. exists x. auto.
Qed.


(** Running a computation whose outcome is known. *)
Lemma bind_Ok {A B} (m : M A) (k : A -> M B) db a db1 t1 :
  m db = (Ok a, db1, t1) ->
  bind m k db = ((k a db1).1.1, (k a db1).1.2, (t1 ++ (k a db1).2)%list).
Proof. intros H. unfold bind. rewrite H. by destruct (k a db1) as [[r d2] t2]. Qed.

Lemma bind_Throw {A B} (m : M A) (k : A -> M B) db e db1 t1 :
  m db = (Throw e, db1, t1) -> bind m k db = (Throw e, db1, t1).
Proof. intros H. unfold bind. by rewrite H. Qed.

Lemma tryCatch_Throw {A} (m : M A) (h : string -> M A) db e db1 t1 :
  m db = (Throw e, db1, t1) ->
  tryCatch m h db = ((h e db1).1.1, (h e db1).1.2, (t1 ++ (h e db1).2)%list).
Proof. intros H. unfold tryCatch. rewrite H. by destruct (h e db1) as [[r d2] t2]. Qed.

Lemma tryCatch_Ok {A} (m : M A) (h : string -> M A) db a db1 t1 :
  m db = (Ok a, db1, t1) -> tryCatch m h db = (Ok a, db1, t1).
Proof. intros H. unfold tryCatch. by rewrite H. Qed.

Section StoreUp.
Variable w : World.
Hypothesis store_up : forall op, firestore w op = Ok tt.

(** With the store available, [updateDepositStatus] rewrites the document
    it finds. *)
Lemma updateDepositStatus_found id st upd db d0 :
  deposits db !! id = Some d0 ->
  updateDepositStatus w id st upd db =
    (Ok tt,
     {| deposits := <[id := applyUpdate w st upd d0]> (deposits db);
        users := users db; platform_wallets := platform_wallets db |},
     []).
Proof.
  intros Hd. unfold updateDepositStatus, updateDoc. unfold_monad.
  rewrite store_up. simpl. rewrite Hd. simpl.
  do 2 f_equal. f_equal.
  apply map_eq. intros j. destruct (decide (id = j)) as [<-|Hne].
  - by rewrite lookup_alter_eq, lookup_insert_eq, Hd.
  - by rewrite lookup_alter_ne, lookup_insert_ne.
Qed.

Lemma refreshConfirmations_found id d confs db :
  deposits db !! id = Some d ->
  exists d1,
    refreshConfirmations w id d confs db =
      (Ok tt,
       {| deposits := <[id := d1]> (deposits db);
          users := users db; platform_wallets := platform_wallets db |}, []) /\
    retryCount d1 = retryCount d /\ orderlyConfirmed d1 = orderlyConfirmed d /\
    errorMessage d1 = errorMessage d.
Proof.
  intros Hd. unfold refreshConfirmations.
  destruct (decide (confs = confirmations d)).
  - exists d. split; [|done]. unfold ret. do 2 f_equal.
    rewrite insert_id by done. by destruct db.
  - destruct (decide _).
    + eexists. split; [by apply updateDepositStatus_found|done].
    + eexists. split; [by apply updateDepositStatus_found|done].
Qed.

End StoreUp.

(** The loop over deposits other than [id]: it runs to its end and keeps
    the frame. *)
Lemma loop_frame w id (l : list (string * Deposit)) db :
  id ∉ l.*1 ->
  exists db1 t1,
    forOf l (processDeposit w) db = (Ok tt, db1, t1) /\
    frame id db db1 /\ Forall (notAlertFor id) t1.
Proof.
  intros Hid.
  pose proof (forOf_ok l (processDeposit w)
                (fun x d => tryCatch_log_ok _ _ d) db) as Hok.
  pose proof (forOf_processDeposit_frame w id l Hid db) as [Hf Ht].
  unfold exec, trace in *.
  destruct (forOf l (processDeposit w) db) as [[r db1] t1]. simpl in *.
  subst r. eauto.
Qed.

Lemma pendingDeposits_lookup db id d :
  (id, d) ∈ pendingDeposits db <->
  deposits db !! id = Some d /\ isPendingDeposit (id, d).
Proof.
  unfold pendingDeposits. rewrite elem_of_map_to_list.
  rewrite map_lookup_filter_Some. reflexivity.
Qed.

(** A deposit outside the pending set is not touched by a crediting tick,
    in any world. *)
Lemma not_pending_untouched w db id :
  id ∉ (pendingDeposits db).*1 ->
  deposits (exec (processPendingDeposits w) db) !! id = deposits db !! id.
Proof.
  intros Hid. unfold exec, processPendingDeposits, getPendingDeposits.
  unfold_monad. destruct (firestore w OpGetPendingDeposits); simpl; [|done].
  destruct (loop_frame w id (pendingDeposits db) db Hid)
    as (db1 & t1 & Hrun & [Hdep _] & _).
  rewrite Hrun. simpl. exact Hdep.
Qed.

Section CreditFailure.
Variables (w : World) (id : string) (d : Deposit) (u : User).
Variables (tx : Receipt) (cur : Z) (key message : string).
Hypothesis store_up : forall op, firestore w op = Ok tt.
Hypothesis linked : userId d <> "".
Hypothesis receipt : getTransactionReceipt (rpc w) (depTxHash d) = Ok (Some tx).
Hypothesis height : getBlockNumber (rpc w) = Ok cur.
Hypothesis deep : requiredConfirmations d <= cur - receiptBlockNumber tx.
Hypothesis opens : decrypt w (encryptedOrderlyPrivateKey u) = Ok key.
Hypothesis mirror_fails :
  creditAccountBalance w (accountId u) (depAmount d) key = Throw message.

(** The [try] block credits the ledger, then throws at the venue call. *)
Lemma creditDeposit_mirror_failure db u1 :
  users db !! userId d = Some u1 ->
  accountId u1 = accountId u ->
  encryptedOrderlyPrivateKey u1 = encryptedOrderlyPrivateKey u ->
  exists db1 u',
    creditDeposit w id d db
      = (Throw message, db1, [LogCreditedInternal (userId d) (depAmount d)]) /\
    deposits db1 = deposits db /\
    users db1 !! userId d = Some u' /\
    internalBalance u' = (internalBalance u1 + depAmount d)%Q.
Proof.
  intros Hu Hacc Hkey.
  unfold creditDeposit, creditUserDeposit, getUserById, updateDoc.
  unfold_monad. repeat (progress (simpl; rewrite ?store_up, ?Hu)).
  rewrite Hkey, opens. simpl. rewrite Hacc, mirror_fails. simpl.
  eexists _, _. split; [reflexivity|]. simpl. split; [reflexivity|].
  rewrite lookup_alter_eq, Hu. simpl. split; reflexivity.
Qed.

(** The [catch] block: mark the record, alert past the threshold. *)
Lemma creditFailed_found db d1 msg :
  deposits db !! id = Some d1 ->
  creditFailed w id d msg db =
    (Ok tt,
     {| deposits :=
          <[id := applyUpdate w failed (SetFailure msg (retryCount d + 1)) d1]>
            (deposits db);
        users := users db; platform_wallets := platform_wallets db |},
     if decide (3 <= retryCount d) then [LogAlert id (retryCount d + 1)] else []).
Proof.
  intros Hd. unfold creditFailed.
  erewrite bind_Ok by (apply updateDepositStatus_found; eassumption).
  destruct (decide (3 <= retryCount d)); reflexivity.
Qed.

(** One pass of the loop body over a deposit whose venue credit fails. *)
Lemma processDeposit_mirror_failure db u1 :
  deposits db !! id = Some d ->
  orderlyConfirmed d = false ->
  users db !! userId d = Some u1 ->
  accountId u1 = accountId u ->
  encryptedOrderlyPrivateKey u1 = encryptedOrderlyPrivateKey u ->
  exists db' tr d' u',
    processDeposit w (id, d) db = (Ok tt, db', tr) /\
    deposits db' !! id = Some d' /\
    status d' = failed /\
    retryCount d' = retryCount d + 1 /\
    errorMessage d' = Some message /\
    orderlyConfirmed d' = false /\
    (LogAlert id (retryCount d + 1) ∈ tr <-> 3 <= retryCount d) /\
    users db' !! userId d = Some u' /\
    internalBalance u' = (internalBalance u1 + depAmount d)%Q.
Proof.
  intros Hd unmarked Hu Hacc Hkey.
  destruct (refreshConfirmations_found w store_up id d
              (cur - receiptBlockNumber tx) db Hd)
    as (d1 & Hrefresh & Hrc1 & Hoc1 & Hem1).
  set (dbA := {| deposits := <[id := d1]> (deposits db); users := users db;
                 platform_wallets := platform_wallets db |}) in *.
  destruct (creditDeposit_mirror_failure dbA u1 Hu Hacc Hkey)
    as (dbB & u' & Hcredit & HdepB & HuB & Hbal).
  assert (HdB : deposits dbB !! id = Some d1).
  { rewrite HdepB. simpl. apply lookup_insert_eq. }
  pose proof (creditFailed_found dbB d1 message HdB) as Hfail.
  eexists _, _, _, u'. split.
  { unfold processDeposit. simpl.
    destruct (decide (userId d = "")) as [|_]; [contradiction|].
    unfold getTransaction, getCurrentBlock. rewrite receipt, height.
    erewrite tryCatch_Ok; [reflexivity|].
    erewrite bind_Ok by reflexivity.
    erewrite bind_Ok by exact Hrefresh.
    destruct (decide (requiredConfirmations d <= cur - receiptBlockNumber tx
                      /\ orderlyConfirmed d = false)) as [_|Hn];
      [|exfalso; apply Hn; split; assumption].
    erewrite tryCatch_Throw by exact Hcredit.
    rewrite Hfail. simpl. reflexivity. }
  simpl. rewrite lookup_insert_eq. split_and!; try reflexivity.
  - simpl. rewrite Hoc1. exact unmarked.
  - destruct (decide (3 <= retryCount d)) as [Hge|Hlt]; simpl.
    + split; [done|]. intros _. apply elem_of_cons. right. apply elem_of_cons. by left.
    + split; [|done]. intros Hin. apply elem_of_cons in Hin as [Hin|Hin]; [discriminate|].
      by apply elem_of_nil in Hin.
  - exact HuB.
  - exact Hbal.
Qed.

(** When the venue mirror of a due deposit fails, the tick marks the
    record [failed] (it does not stay [confirmed]), adds one to
    [retryCount], stores the error message, and raises the operator alert
    exactly when the new [retryCount] exceeds 3; the record then is no
    longer among the pending deposits, and a later crediting tick, in
    whatever world, leaves it as it is. *)
Lemma failed_credit_is_parked (db : Db) :
  (id, d) ∈ pendingDeposits db ->
  users db !! userId d = Some u ->
  exists d',
    deposits (exec (processPendingDeposits w) db) !! id = Some d' /\
    status d' = failed /\
    retryCount d' = retryCount d + 1 /\
    errorMessage d' = Some message /\
    (LogAlert id (retryCount d + 1) ∈ trace (processPendingDeposits w) db
       <-> 3 < retryCount d + 1) /\
    (forall x, (id, x) ∉ pendingDeposits (exec (processPendingDeposits w) db)) /\
    (forall w2,
       deposits (exec (processPendingDeposits w2)
                   (exec (processPendingDeposits w) db)) !! id = Some d').
Proof.
  intros Hin Hu.
  pose proof (proj1 (pendingDeposits_lookup _ _ _) Hin) as [Hd [_ Hoc]].
  simpl in Hoc.
  destruct (list_elem_of_split _ _ Hin) as (l1 & l2 & Hsplit).
  pose proof (NoDup_fst_map_to_list (filter isPendingDeposit (deposits db))) as Hnd.
  fold (pendingDeposits db) in Hnd. rewrite Hsplit in Hnd.
  rewrite fmap_app, fmap_cons in Hnd. simpl in Hnd.
  apply NoDup_app in Hnd as (_ & H1 & Hnd).
  apply NoDup_cons in Hnd as [H2 _].
  assert (Hl1 : id ∉ l1.*1).
  { intros Hc. apply (H1 _ Hc). left. }
  destruct (loop_frame w id l1 db Hl1) as (db1 & t1 & Hrun1 & [Hdep1 Hus1] & Hal1).
  destruct (Hus1 _ _ Hu) as (u1 & Hu1 & Hacc1 & Hkey1).
  rewrite Hd in Hdep1.
  destruct (processDeposit_mirror_failure db1 u1 Hdep1 Hoc Hu1 Hacc1 Hkey1)
    as (db2 & t2 & d' & u' & Hrun2 & Hdep2 & Hst & Hrc & Hem & Hoc' & Halert & _).
  destruct (loop_frame w id l2 db2 H2) as (db3 & t3 & Hrun3 & [Hdep3 _] & Hal3).
  assert (Hrun : processPendingDeposits w db = (Ok tt, db3, (t1 ++ t2 ++ t3)%list)).
  { unfold processPendingDeposits, getPendingDeposits.
    erewrite tryCatch_Ok; [reflexivity|].
    unfold call. rewrite store_up.
    erewrite bind_Ok by (unfold bind, lift, get, ret; simpl; reflexivity).
    rewrite Hsplit, forOf_app.
    erewrite bind_Ok by exact Hrun1. simpl.
    erewrite bind_Ok by exact Hrun2. rewrite Hrun3. simpl. reflexivity. }
  assert (Hnp : forall x, (id, x) ∉ pendingDeposits db3).
  { intros x Hx. apply pendingDeposits_lookup in Hx as [Hx [[Hp|Hp] _]];
      simpl in Hp; rewrite Hdep3, Hdep2 in Hx; injection Hx as <-; congruence. }
  exists d'. unfold exec, trace. rewrite Hrun. simpl.
  split_and!; try assumption.
  - by rewrite Hdep3.
  - assert (Hthr : 3 < retryCount d + 1 <-> 3 <= retryCount d) by lia.
    rewrite Hthr, <- Halert, !elem_of_app. split; [|tauto].
    rewrite Forall_forall in Hal1, Hal3.
    intros [Hc|[Hc|Hc]]; [exfalso; by eapply Hal1|done|exfalso; by eapply Hal3].
  - intros w2. fold (exec (processPendingDeposits w2) db3).
    rewrite not_pending_untouched; [by rewrite Hdep3|].
    intros Hc. apply list_elem_of_fmap in Hc as ([i x] & Hi & Hx).
    simpl in Hi. subst i. by apply (Hnp x).
Qed.

End CreditFailure.


Lemma failed_credit_is_parked_witness :
  exists d',
    deposits (exec (processPendingDeposits mirrorDown) ledger0) !! "d1" = Some d' /\
    status d' = failed /\
    retryCount d' = retryCount d1 + 1 /\
    errorMessage d' = Some "Orderly credit error: unavailable" /\
    (LogAlert "d1" (retryCount d1 + 1) ∈ trace (processPendingDeposits mirrorDown) ledger0
       <-> 3 < retryCount d1 + 1) /\
    (forall x, ("d1", x) ∉ pendingDeposits (exec (processPendingDeposits mirrorDown) ledger0)) /\
    (forall w2,
       deposits (exec (processPendingDeposits w2)
                   (exec (processPendingDeposits mirrorDown) ledger0)) !! "d1" = Some d').
Proof.
  apply (failed_credit_is_parked mirrorDown "d1" d1 alice
           {| receiptBlockNumber := 100 |} 112 "key"
           "Orderly credit error: unavailable").
  - intros op. reflexivity.
  - discriminate.
  - reflexivity.
  - reflexivity.
  - simpl. lia.
  - reflexivity.
  - reflexivity.
  - apply pendingDeposits_lookup. split; [reflexivity|].
    split; [right|]; reflexivity.
  - reflexivity.
Defined.

(** After a failed mirror call the record is [failed], not [confirmed],
    and the pending set no longer holds it. *)
Lemma failed_credit_leaves_pending_set :
  status <$> deposits ledger0 !! "d1" = Some confirmed /\
  status <$> deposits (exec (processPendingDeposits mirrorDown) ledger0) !! "d1"
    = Some failed /\
  pendingDeposits (exec (processPendingDeposits mirrorDown) ledger0) = [] /\
  trace (processPendingDeposits calm)
    (exec (processPendingDeposits mirrorDown) ledger0) = [].
Proof. vm_compute. auto. Qed.

(** ** Exactly-once crediting *)

(** A transfer whose hash is already on record is skipped. *)
Lemma recordTransfer_existing w addr cur t db entry :
  head (depositsWithTxHash (txHash t) db) = Some entry ->
  exec (recordTransfer w addr cur t) db = db.
Proof.
  intros Hex. unfold exec, recordTransfer, getDepositByTxHash.
  unfold_monad. destruct (firestore w _); simpl; [|reflexivity].
  rewrite Hex. reflexivity.
Qed.

(** A second sighting of the same transaction (the cursor write failed, so
    the range is scanned again) leaves one record. *)
Lemma second_sighting_one_record :
  length (depositsWithTxHash "0xabc"
            (exec (scanForNewDeposits calm)
               (exec (scanForNewDeposits cursorStuck) emptyLedger))) = 1%nat /\
  trace (scanForNewDeposits calm)
    (exec (scanForNewDeposits cursorStuck) emptyLedger) = [LogScanning 100 112].
Proof. vm_compute. auto. Qed.

(** C1 fails on the code.  Tick one credits alice's ledger balance and then
    loses both deposit updates (to [credited], and to [failed] in the
    handler): the record is still [confirmed] with [orderlyConfirmed]
    unset, which is all the guard looks at.  Tick two, with nothing wrong,
    credits the balance again.  One record, two increments. *)
Theorem rerun_after_partial_failure_credits_twice :
  let db1 := exec (processPendingDeposits outage) ledger0 in
  let db2 := exec (processPendingDeposits calm) db1 in
  internalBalance <$> users ledger0 !! "u1" = Some 0%Q /\
  depAmount <$> deposits ledger0 !! "d1" = Some 100%Q /\
  (internalBalance <$> users db1 !! "u1" = Some 100%Q /\
   status <$> deposits db1 !! "d1" = Some confirmed /\
   orderlyConfirmed <$> deposits db1 !! "d1" = Some false) /\
  (internalBalance <$> users db2 !! "u1" = Some 200%Q /\
   status <$> deposits db2 !! "d1" = Some credited /\
   length (depositsWithTxHash "0xabc" db2) = 1%nat).
Proof. vm_compute. repeat split; reflexivity. Qed.

(** The documented manual retry of a failed credit runs into the same
    defect without any fault of the store: the ledger half is repeated. *)
Lemma manual_retry_credits_twice :
  let db1 := exec (processPendingDeposits mirrorDown) ledger0 in
  let db2 := exec (manualRetry calm "d1") db1 in
  let db3 := exec (processPendingDeposits calm) db2 in
  internalBalance <$> users db1 !! "u1" = Some 100%Q /\
  status <$> deposits db1 !! "d1" = Some failed /\
  internalBalance <$> users db3 !! "u1" = Some 200%Q /\
  status <$> deposits db3 !! "d1" = Some credited.
Proof. vm_compute. repeat split; reflexivity. Qed.

(** ** The cursor, on concrete ticks *)

Lemma scan_cursor_witness :
  exists wallet',
    platform_wallets (exec (scanForNewDeposits rpcTimeout) emptyLedger) !! "w1"
      = Some wallet' /\
    lastScannedBlock wallet0 <= lastScannedBlock wallet' /\
    (forall f t, LogScanning f t ∈ trace (scanForNewDeposits rpcTimeout) emptyLedger ->
       f = lastScannedBlock wallet0 + 1 /\ f <= t /\
       getBlockNumber (rpc rpcTimeout) = Ok t) /\
    (lastScannedBlock wallet' = lastScannedBlock wallet0 \/
     LogScanning (lastScannedBlock wallet0 + 1) (lastScannedBlock wallet')
       ∈ trace (scanForNewDeposits rpcTimeout) emptyLedger) /\
    (forall cur,
       firestore rpcTimeout OpGetPlatformWallet = Ok tt ->
       getBlockNumber (rpc rpcTimeout) = Ok cur ->
       lastScannedBlock wallet0 < cur ->
       firestore rpcTimeout (OpUpdatePlatformWalletBlock "w1" cur) = Ok tt ->
       lastScannedBlock wallet' = cur).
Proof.
  apply (scan_cursor rpcTimeout emptyLedger "w1" wallet0).
  reflexivity.
Defined.

(** The event query for blocks 100..112 times out, and a tick in which the
    store refuses the found transfer records nothing; both ticks still
    move the cursor from 99 to 112. *)
Lemma failed_scan_moves_cursor :
  scanForDeposits_try (rpc rpcTimeout) "0xplatform" 100 (Some 112)
    = Throw "timeout exceeded" /\
  lastScannedBlock <$> platform_wallets emptyLedger !! "w1" = Some 99 /\
  lastScannedBlock <$>
    platform_wallets (exec (scanForNewDeposits rpcTimeout) emptyLedger) !! "w1"
    = Some 112 /\
  deposits (exec (scanForNewDeposits rpcTimeout) emptyLedger) = ∅ /\
  trace (scanForNewDeposits addRefused) emptyLedger
    = [LogScanning 100 112; LogError "UNAVAILABLE"] /\
  lastScannedBlock <$>
    platform_wallets (exec (scanForNewDeposits addRefused) emptyLedger) !! "w1"
    = Some 112 /\
  deposits (exec (scanForNewDeposits addRefused) emptyLedger) = ∅.
Proof. vm_compute. repeat split; reflexivity. Qed.

End DepositFacts.

(** * Properties of the exchange client's retry policy *)

Module ApiFacts.
Import Text OrderlyErrors OrderlyApi ApiSpec ClientScenarios.

(** ** Classification of venue codes *)

Lemma isRetryableError_false code :
  isRetryableError code = false <->
  code ∈ [INVALID_SIGNATURE; UNAUTHORIZED; INVALID_PARAM; UNKNOWN_PARAM;
          DUPLICATE_REQUEST].
Proof.
  unfold isRetryableError, nonRetryableCodes. rewrite negb_false_iff.
  rewrite existsb_exists. split.
  - intros (x & Hin & Heq). apply Z.eqb_eq in Heq. subst x.
    by apply list_elem_of_In.
  - intros Hin. exists code. split; [by apply list_elem_of_In | apply Z.eqb_refl].
Qed.

Lemma clock_skew_is_not_retryable code message :
  isClockSkewError code message = true -> isRetryableError code = false.
Proof.
  unfold isClockSkewError. intros H. apply andb_true_iff in H as [Hc _].
  apply Z.eqb_eq in Hc. subst code. reflexivity.
Qed.

(** The verdict on an HTTP error that carries a code and a message. *)
Lemma classify_retryable {T} c m :
  c <> 0 -> m <> "" -> isRetryableError c = true ->
  classify (T := T) (HttpError (Some c) (Some m))
    = Some (Remember (ApiError (createOrderlyError c m))).
Proof.
  intros Hc Hm Hr. unfold classify, truthyCode, truthyText.
  apply Z.eqb_neq in Hc. rewrite Hc. destruct m as [|x m']; [done|].
  rewrite Hr. simpl.
  destruct (isClockSkewError c (String x m')) eqn:Hk; [|reflexivity].
  apply clock_skew_is_not_retryable in Hk. congruence.
Qed.

Lemma classify_non_retryable {T} c m :
  c <> 0 -> m <> "" -> isRetryableError c = false ->
  classify (T := T) (HttpError (Some c) (Some m))
    = Some (ThrowNow (ApiError (createOrderlyError c m))).
Proof.
  intros Hc Hm Hr. unfold classify, truthyCode, truthyText.
  apply Z.eqb_neq in Hc. rewrite Hc. destruct m as [|x m']; [done|].
  rewrite Hr. reflexivity.
Qed.

(** The clock-skew branch sits behind the non-retryable test, which every
    clock-skew error already fails: no verdict ever carries its error. *)
Lemma classify_never_clock_skew {T} (a : Attempt T) v :
  classify a = Some v ->
  forall text, v <> ThrowNow (ClockSkewError text) /\ v <> Remember (ClockSkewError text).
Proof.
  intros Hv text. destruct a as [d|c m| |c m|m|m]; simpl in Hv;
    try (injection Hv as <-; split; discriminate); try discriminate.
  destruct (truthyCode c) as [c'|]; [|injection Hv as <-; split; discriminate].
  destruct (truthyText m) as [m'|]; [|injection Hv as <-; split; discriminate].
  destruct (isRetryableError c') eqn:Hr; simpl in Hv.
  - destruct (isClockSkewError c' m') eqn:Hk.
    + apply clock_skew_is_not_retryable in Hk. congruence.
    + injection Hv as <-. split; discriminate.
  - injection Hv as <-. split; discriminate.
Qed.


(** ** The loop *)

Section Loop.
Context {T : Type}.
Variable maxRetries : Z.
Variable send : Z -> Attempt T.

Lemma classify_None (a : Attempt T) :
  classify a = None -> exists data, a = Responded data.
Proof.
  destruct a as [d|c m| |c m|m|m]; simpl; try discriminate; [eauto|].
  destruct (truthyCode c), (truthyText m); try discriminate.
  destruct (negb _); [discriminate|]. destruct (isClockSkewError _ _); discriminate.
Qed.

(** One pass, by the verdict on the attempt. *)
Lemma loop_S fuel a last :
  loop maxRetries send (S fuel) a last =
  match classify (send a) with
  | None =>
      match send a with
      | Responded data => {| outcome := Returned data; attempts := 1; delays := [] |}
      | _ => {| outcome := Threw last; attempts := 1; delays := [] |}
      end
  | Some (ThrowNow e) => {| outcome := Threw (Some e); attempts := 1; delays := [] |}
  | Some (Remember e) =>
      let rest := loop maxRetries send fuel (a + 1) (Some e) in
      {| outcome := outcome rest;
         attempts := S (attempts rest);
         delays := (if Z.ltb a maxRetries then [backoff a] else []) ++ delays rest |}
  end.
Proof. simpl. destruct (send a); reflexivity. Qed.

Lemma loop_spec fuel : forall a last,
  a + Z.of_nat fuel = maxRetries + 1 -> (0 < fuel)%nat ->
  let r := loop maxRetries send fuel a last in
  (1 <= attempts r <= fuel)%nat /\
  delays r = backoff <$> seqZ a (Z.of_nat (attempts r) - 1) /\
  (forall k, a <= k < a + Z.of_nat (attempts r) - 1 ->
     exists e, classify (send k) = Some (Remember e)) /\
  lastPass send r a fuel.
Proof.
  induction fuel as [|fuel IH]; intros a last Hsum Hpos; [lia|].
  rewrite loop_S. unfold lastPass.
  destruct (classify (send a)) as [[e|e]|] eqn:Hv.
  - (* thrown at once *)
    simpl. replace (a + Z.of_nat 1 - 1) with a by lia. rewrite Hv.
    split_and!; try done; try lia.
  - (* remembered *)
    destruct fuel as [|fuel'].
    + simpl. replace (a + Z.of_nat 1 - 1) with a by lia. rewrite Hv.
      assert (Hlt : Z.ltb a maxRetries = false) by (apply Z.ltb_ge; lia).
      rewrite Hlt. split_and!; try done; try lia.
    + specialize (IH (a + 1) (Some e) ltac:(lia) ltac:(lia)).
      cbv zeta in IH. destruct IH as ([Hlo Hhi] & Hdel & Hmid & Hlast).
      set (rest := loop maxRetries send (S fuel') (a + 1) (Some e)) in *.
      cbv zeta. cbn [attempts delays outcome].
      assert (Hlt : Z.ltb a maxRetries = true) by (apply Z.ltb_lt; lia).
      rewrite Hlt. clearbody rest. split_and!.
      * lia.
      * lia.
      * rewrite Hdel.
        replace (Z.of_nat (S (attempts rest)) - 1)
          with (Z.succ (Z.of_nat (attempts rest) - 1)) by lia.
        rewrite (seqZ_cons a) by lia. simpl.
        replace (Z.succ a) with (a + 1) by lia.
        replace (Z.pred (Z.succ (Z.of_nat (attempts rest) - 1)))
          with (Z.of_nat (attempts rest) - 1) by lia.
        reflexivity.
      * intros k Hk. destruct (decide (k = a)) as [->|Hne]; [eauto|].
        apply Hmid. lia.
      * unfold lastPass in Hlast.
        replace (a + Z.of_nat (S (attempts rest)) - 1)
          with (a + 1 + Z.of_nat (attempts rest) - 1) by lia.
        destruct (classify (send (a + 1 + Z.of_nat (attempts rest) - 1)))
          as [[e'|e']|]; try exact Hlast.
        destruct Hlast as [-> Hout]. split; [reflexivity|exact Hout].
  - (* answered *)
    destruct (classify_None _ Hv) as [data Hdata]. rewrite Hdata. simpl.
    replace (a + Z.of_nat 1 - 1) with a by lia. rewrite Hv.
    split_and!; try done; try lia. eauto.
Qed.

End Loop.


(** The policy on answers that reach the loop as axios errors.  The
    non-retryable codes are exactly invalid-signature, unauthorized,
    invalid-param, unknown-param and duplicate-request.  A call makes at
    least one and at most [maxRetries + 1] attempts and sleeps
    [min (1000 * 2^k) 10000] ms after failed attempt [k]; every attempt
    before the last one failed in a way the policy retries; an HTTP error
    with a retryable code is retried as long as attempts are left, one
    with a non-retryable code ends the call with that error. *)
Lemma retry_policy {T : Type} (maxRetries : Z) (send : Z -> Attempt T) :
  0 <= maxRetries ->
  let r := request maxRetries send in
  (forall code,
     isRetryableError code = false <->
     code ∈ [INVALID_SIGNATURE; UNAUTHORIZED; INVALID_PARAM; UNKNOWN_PARAM;
             DUPLICATE_REQUEST]) /\
  (1 <= attempts r <= Z.to_nat (maxRetries + 1))%nat /\
  delays r
    = (fun k => Z.min (1000 * 2 ^ k) 10000) <$> seqZ 0 (Z.of_nat (attempts r) - 1) /\
  (forall k, 0 <= k < Z.of_nat (attempts r) - 1 ->
     exists e, classify (send k) = Some (Remember e)) /\
  (forall k c m,
     0 <= k < Z.of_nat (attempts r) -> k < maxRetries ->
     send k = HttpError (Some c) (Some m) -> c <> 0 -> m <> "" ->
     isRetryableError c = true ->
     k + 1 < Z.of_nat (attempts r)) /\
  (forall k c m,
     0 <= k < Z.of_nat (attempts r) ->
     send k = HttpError (Some c) (Some m) -> c <> 0 -> m <> "" ->
     isRetryableError c = false ->
     Z.of_nat (attempts r) = k + 1 /\
     outcome r = Threw (Some (ApiError (createOrderlyError c m)))).
Proof.
  intros Hmax r.
  destruct (loop_spec maxRetries send (Z.to_nat (maxRetries + 1)) 0 None
              ltac:(lia) ltac:(lia)) as (Hbound & Hdel & Hmid & Hlast).
  fold (request maxRetries send) in Hbound, Hdel, Hmid, Hlast. fold r in Hbound, Hdel, Hmid, Hlast.
  unfold lastPass in Hlast.
  split_and!.
  - apply isRetryableError_false.
  - lia.
  - lia.
  - exact Hdel.
  - intros k Hk. apply Hmid. lia.
  - intros k c m Hk Hleft Hsend Hc Hm Hr.
    destruct (decide (k + 1 < Z.of_nat (attempts r))) as [|Hn]; [assumption|].
    exfalso. replace (0 + Z.of_nat (attempts r) - 1) with k in Hlast by lia.
    rewrite Hsend, (classify_retryable c m Hc Hm Hr) in Hlast.
    destruct Hlast as [Hall _]. lia.
  - intros k c m Hk Hsend Hc Hm Hr.
    destruct (decide (k < Z.of_nat (attempts r) - 1)) as [Hlt|Hge].
    + destruct (Hmid k ltac:(lia)) as [e He].
      rewrite Hsend, (classify_non_retryable c m Hc Hm Hr) in He. discriminate.
    + replace (0 + Z.of_nat (attempts r) - 1) with k in Hlast by lia.
      rewrite Hsend, (classify_non_retryable c m Hc Hm Hr) in Hlast.
      split; [lia|exact Hlast].
Qed.

Example rateLimitedTwice_run :
  request 3 rateLimitedTwice
    = {| outcome := Returned "ok"; attempts := 3; delays := [1000; 2000] |}.
Proof. reflexivity. Qed.

Example backoff_is_capped : backoff <$> [0; 1; 2; 3; 4; 5] = [1000; 2000; 4000; 8000; 10000; 10000].
Proof. reflexivity. Qed.

Lemma retry_policy_witness :
  let r := request 3 rateLimitedTwice in
  (forall code,
     isRetryableError code = false <->
     code ∈ [INVALID_SIGNATURE; UNAUTHORIZED; INVALID_PARAM; UNKNOWN_PARAM;
             DUPLICATE_REQUEST]) /\
  (1 <= attempts r <= Z.to_nat (3 + 1))%nat /\
  delays r
    = (fun k => Z.min (1000 * 2 ^ k) 10000) <$> seqZ 0 (Z.of_nat (attempts r) - 1) /\
  (forall k, 0 <= k < Z.of_nat (attempts r) - 1 ->
     exists e, classify (rateLimitedTwice k) = Some (Remember e)) /\
  (forall k c m,
     0 <= k < Z.of_nat (attempts r) -> k < 3 ->
     rateLimitedTwice k = HttpError (Some c) (Some m) -> c <> 0 -> m <> "" ->
     isRetryableError c = true ->
     k + 1 < Z.of_nat (attempts r)) /\
  (forall k c m,
     0 <= k < Z.of_nat (attempts r) ->
     rateLimitedTwice k = HttpError (Some c) (Some m) -> c <> 0 -> m <> "" ->
     isRetryableError c = false ->
     Z.of_nat (attempts r) = k + 1 /\
     outcome r = Threw (Some (ApiError (createOrderlyError c m)))).
Proof.
  apply (retry_policy 3 rateLimitedTwice). lia.
Defined.

(** ** Clock skew *)

(** The loop never throws the error of the clock-skew branch. *)
Lemma loop_never_clock_skew {T} maxRetries (send : Z -> Attempt T) fuel :
  forall a last text,
    last <> Some (ClockSkewError text) ->
    outcome (loop maxRetries send fuel a last) <> Threw (Some (ClockSkewError text)).
Proof.
  induction fuel as [|fuel IH]; intros a last text Hlast.
  - simpl. congruence.
  - rewrite loop_S. destruct (classify (send a)) as [[e|e]|] eqn:Hv.
    + simpl. destruct (classify_never_clock_skew _ _ Hv text) as [Hne _]. congruence.
    + simpl. apply IH. destruct (classify_never_clock_skew _ _ Hv text) as [_ Hne].
      congruence.
    + destruct (send a); simpl; congruence.
Qed.

Lemma request_never_clock_skew {T} maxRetries (send : Z -> Attempt T) text :
  outcome (request maxRetries send) <> Threw (Some (ClockSkewError text)).
Proof. apply loop_never_clock_skew. discriminate. Qed.

(** C7 fails on the code.  An unauthorized error that mentions the
    timestamp is recognised as clock skew and is surfaced at once, without
    a retry; but it leaves through the non-retryable exit that comes first,
    as the plain venue error, and its message carries no word about the
    clock. *)
Theorem clock_skew_error_has_no_guidance :
  isClockSkewError UNAUTHORIZED "orderly timestamp expired" = true /\
  request 3 staleTimestamp =
    {| outcome := Threw (Some (ApiError
         {| errCode := -1002;
            errMessage := "UNAUTHORIZED: orderly timestamp expired. Invalid, expired, revoked credentials or lack permissions";
            errHttpStatus := Some 401 |}));
       attempts := 1;
       delays := [] |} /\
  includes
    (toLowerCase (errMessage (createOrderlyError UNAUTHORIZED "orderly timestamp expired")))
    "clock" = false.
Proof. repeat split; reflexivity. Qed.

(** Through a 2xx body with [success: false] the same error is not even
    surfaced at once: that path is retried whatever the code. *)
Example declined_clock_skew_is_retried :
  request (T := string) 3 (fun _ => Declined UNAUTHORIZED "orderly timestamp expired")
    = {| outcome := Threw (Some (ApiError
           (createOrderlyError UNAUTHORIZED "orderly timestamp expired")));
         attempts := 4;
         delays := [1000; 2000; 4000] |}.
Proof. reflexivity. Qed.

End ApiFacts.

(** * Properties of the encodings *)

Module Base64Facts.
Import Text Base64 TextSpec.

(** Induction over a list three elements at a time. *)
Lemma list_ind3 {A} (P : list A -> Prop) :
  P [] -> (forall a, P [a]) -> (forall a b, P [a; b]) ->
  (forall a b c rest, P rest -> P (a :: b :: c :: rest)) ->
  forall l, P l.
Proof.
  intros H0 H1 H2 H3 l.
  assert (H : P l /\ (forall a, P (a :: l)) /\ (forall a b, P (a :: b :: l))).
  { induction l as [|x l (IH0 & IH1 & IH2)]; [auto|].
    split_and!; auto. }
  apply H.
Qed.

Lemma byteZ_range b : 0 <= byteZ b < 256.
Proof. unfold byteZ. pose proof (Byte.to_N_bounded b). lia. Qed.

Lemma ofZ_byteZ b : ofZ (byteZ b) = b.
Proof. unfold ofZ, byteZ. by rewrite N2Z.id, Byte.of_to_N. Qed.

Ltac divmod := unfold sextet1, sextet2, sextet3, sextet4; Z.div_mod_to_equations; lia.

Lemma sextet1_range a : 0 <= a < 256 -> 0 <= sextet1 a < 64.
Proof. intros. divmod. Qed.
Lemma sextet2_range a b : 0 <= a < 256 -> 0 <= b < 256 -> 0 <= sextet2 a b < 64.
Proof. intros. divmod. Qed.
Lemma sextet3_range b c : 0 <= b < 256 -> 0 <= c < 256 -> 0 <= sextet3 b c < 64.
Proof. intros. divmod. Qed.
Lemma sextet4_range c : 0 <= c < 256 -> 0 <= sextet4 c < 64.
Proof. intros. divmod. Qed.

(** A property of every sextet value, checked value by value. *)
Lemma below_64 (P : Z -> Prop) :
  Forall P (seqZ 0 64) -> forall n, 0 <= n < 64 -> P n.
Proof.
  intros HP n Hn. rewrite Forall_forall in HP. apply HP.
  apply elem_of_seqZ. lia.
Qed.

Lemma replace_both c rest :
  replaceChar "/" "_" (replaceChar "+" "-" (String c rest))
  = String (urlSafe c) (replaceChar "/" "_" (replaceChar "+" "-" rest)).
Proof. reflexivity. Qed.

Lemma stripTrailing_keep c x rest :
  x <> c -> stripTrailing c (String x rest) = String x (stripTrailing c rest).
Proof.
  intros Hne. simpl. apply Ascii.eqb_neq in Hne. rewrite Hne.
  destruct (stripTrailing c rest); reflexivity.
Qed.

Lemma digit_urlSafe n :
  0 <= n < 64 ->
  urlSafe (digit standardAlphabet n) = digit urlAlphabet n /\
  digit urlAlphabet n <> "="%char /\
  valueOf (digit standardAlphabet n) = Some n /\
  digit standardAlphabet n <> "="%char.
Proof.
  revert n. apply below_64. vm_compute.
  repeat (constructor; [split_and!; (reflexivity || discriminate)|]).
  constructor.
Qed.

(** [signMessage] makes standard base64 URL-safe by replacing [+] and [/]
    and dropping the padding; the result is the URL-safe unpadded encoding
    of RFC 4648. *)
Theorem urlSafe_toBase64 bytes :
  stripTrailing "=" (replaceChar "/" "_" (replaceChar "+" "-" (toBase64 bytes)))
  = base64url bytes.
Proof.
  unfold toBase64, base64url.
  induction bytes as [|a|a b|a b c rest IH] using list_ind3.
  - reflexivity.
  - pose proof (byteZ_range a) as Ha.
    destruct (digit_urlSafe (sextet1 (byteZ a)) (sextet1_range _ Ha)) as (E1 & N1 & _).
    destruct (digit_urlSafe (sextet2 (byteZ a) 0) (sextet2_range _ 0 Ha ltac:(lia)))
      as (E2 & N2 & _).
    cbn [encodeWith]. rewrite !replace_both, E1, E2.
    rewrite !stripTrailing_keep by assumption. reflexivity.
  - pose proof (byteZ_range a) as Ha. pose proof (byteZ_range b) as Hb.
    destruct (digit_urlSafe (sextet1 (byteZ a)) (sextet1_range _ Ha)) as (E1 & N1 & _).
    destruct (digit_urlSafe (sextet2 (byteZ a) (byteZ b)) (sextet2_range _ _ Ha Hb))
      as (E2 & N2 & _).
    destruct (digit_urlSafe (sextet3 (byteZ b) 0) (sextet3_range _ 0 Hb ltac:(lia)))
      as (E3 & N3 & _).
    cbn [encodeWith]. rewrite !replace_both, E1, E2, E3.
    rewrite !stripTrailing_keep by assumption. reflexivity.
  - pose proof (byteZ_range a) as Ha. pose proof (byteZ_range b) as Hb.
    pose proof (byteZ_range c) as Hc.
    destruct (digit_urlSafe (sextet1 (byteZ a)) (sextet1_range _ Ha)) as (E1 & N1 & _).
    destruct (digit_urlSafe (sextet2 (byteZ a) (byteZ b)) (sextet2_range _ _ Ha Hb))
      as (E2 & N2 & _).
    destruct (digit_urlSafe (sextet3 (byteZ b) (byteZ c)) (sextet3_range _ _ Hb Hc))
      as (E3 & N3 & _).
    destruct (digit_urlSafe (sextet4 (byteZ c)) (sextet4_range _ Hc)) as (E4 & N4 & _).
    cbn [encodeWith]. rewrite !replace_both, E1, E2, E3, E4.
    rewrite !stripTrailing_keep by assumption. rewrite IH. reflexivity.
Qed.

(** Reading back what was written. *)
Lemma sextetsOf_digit n rest :
  0 <= n < 64 ->
  sextetsOf (String (digit standardAlphabet n) rest) = n :: sextetsOf rest.
Proof.
  intros Hn. destruct (digit_urlSafe n Hn) as (_ & _ & Hv & Hne).
  simpl. apply Ascii.eqb_neq in Hne. rewrite Hne, Hv. reflexivity.
Qed.

Lemma regroup1 a : 0 <= a < 256 -> sextet1 a * 4 + sextet2 a 0 / 16 = a.
Proof. intros. divmod. Qed.
Lemma regroup2 a b :
  0 <= a < 256 -> 0 <= b < 256 -> sextet1 a * 4 + sextet2 a b / 16 = a.
Proof. intros. divmod. Qed.
Lemma regroup3 a b c :
  0 <= a < 256 -> 0 <= b < 256 -> 0 <= c < 256 ->
  (sextet2 a b mod 16) * 16 + sextet3 b c / 4 = b.
Proof. intros. divmod. Qed.
Lemma regroup4 b c :
  0 <= b < 256 -> 0 <= c < 256 -> (sextet3 b c mod 4) * 64 + sextet4 c = c.
Proof. intros. divmod. Qed.

Theorem fromBase64_toBase64 bytes : fromBase64 (toBase64 bytes) = bytes.
Proof.
  unfold fromBase64, toBase64.
  induction bytes as [|a|a b|a b c rest IH] using list_ind3.
  - reflexivity.
  - pose proof (byteZ_range a) as Ha. cbn [encodeWith].
    rewrite !sextetsOf_digit
      by (apply sextet1_range || apply sextet2_range; lia).
    simpl. rewrite regroup1, ofZ_byteZ by lia. reflexivity.
  - pose proof (byteZ_range a) as Ha. pose proof (byteZ_range b) as Hb.
    cbn [encodeWith].
    rewrite !sextetsOf_digit
      by (apply sextet1_range || apply sextet2_range || apply sextet3_range; lia).
    simpl. rewrite regroup2, (regroup3 _ _ 0), !ofZ_byteZ by lia. reflexivity.
  - pose proof (byteZ_range a) as Ha. pose proof (byteZ_range b) as Hb.
    pose proof (byteZ_range c) as Hc. cbn [encodeWith].
    rewrite !sextetsOf_digit
      by (apply sextet1_range || apply sextet2_range || apply sextet3_range
          || apply sextet4_range; lia).
    cbn [bytesOf]. rewrite IH.
    rewrite regroup2, regroup3, regroup4, !ofZ_byteZ by lia. reflexivity.
Qed.

End Base64Facts.

Module JsonFacts.
Import Text Json TextSpec.

Lemma append_assoc (s t u : string) : (s ++ t) ++ u = s ++ (t ++ u).
Proof.
  induction s as [|c s IH]; [reflexivity|].
  change (String c ((s ++ t) ++ u) = String c (s ++ (t ++ u))). by rewrite IH.
Qed.

Lemma noSpace_app s t : noSpace (s ++ t) = noSpace s && noSpace t.
Proof.
  induction s as [|c s IH]; [reflexivity|].
  change (negb (isSpace c) && noSpace (s ++ t)
          = negb (isSpace c) && noSpace s && noSpace t).
  rewrite IH. apply andb_assoc.
Qed.

Lemma noSpace_quoteChar c : noSpace (quoteChar c) = negb (Ascii.eqb c " ").
Proof.
  destruct c as [[] [] [] [] [] [] [] []]; vm_compute; reflexivity.
Qed.

Lemma noSpace_quoteChars s : noSpace (quoteChars s) = noBlank s.
Proof.
  induction s as [|c s IH]; simpl; [reflexivity|].
  by rewrite noSpace_app, noSpace_quoteChar, IH.
Qed.

Lemma noSpace_quote s : noSpace (quote s) = noBlank s.
Proof.
  unfold quote. cbn [noSpace]. rewrite noSpace_app, noSpace_quoteChars.
  cbn. by rewrite andb_true_r.
Qed.

Lemma noSpace_uint d : noSpace (NilEmpty.string_of_uint d) = true.
Proof. induction d; simpl; auto. Qed.

Lemma noSpace_showZ n : noSpace (showZ n) = true.
Proof.
  unfold showZ, NilZero.string_of_int.
  destruct (Z.to_int n) as [d|d]; simpl; unfold NilZero.string_of_uint;
    destruct d; simpl; auto using noSpace_uint.
Qed.

(** Structural induction through the lists of arrays and objects. *)
Lemma json_induction (P : json -> Prop) :
  P JNull -> (forall b, P (JBool b)) -> (forall n, P (JNumber n)) ->
  (forall s, P (JString s)) ->
  (forall items, Forall P items -> P (JArray items)) ->
  (forall fields, Forall (fun kv => P kv.2) fields -> P (JObject fields)) ->
  forall j, P j.
Proof.
  intros Hnull Hbool Hnum Hstr Harr Hobj. fix IH 1. intros [|b|n|s|items|fields].
  - exact Hnull.
  - apply Hbool.
  - apply Hnum.
  - apply Hstr.
  - apply Harr. induction items as [|x items IHl]; constructor; [apply IH|exact IHl].
  - apply Hobj. induction fields as [|[k v] fields IHl]; constructor; [apply IH|exact IHl].
Qed.

Lemma stringify_array items :
  stringify (JArray items) = "[" ++ joinWith "," (map stringify items) ++ "]".
Proof.
  cbn [stringify]. do 2 f_equal.
  induction items as [|x [|y items] IHl]; [reflexivity..|].
  cbn [map joinWith] in *. by rewrite IHl.
Qed.

Lemma stringify_object fields :
  stringify (JObject fields) = "{" ++ joinWith "," (map member fields) ++ "}".
Proof.
  cbn [stringify]. do 2 f_equal.
  induction fields as [|[k v] [|[k' v'] fields] IHl]; [reflexivity..|].
  cbn [map joinWith] in *. unfold member at 1. cbn [fst snd].
  rewrite <- IHl. by rewrite !append_assoc.
Qed.

Lemma noSpace_joinWith parts :
  forallb noSpace parts = true -> noSpace (joinWith "," parts) = true.
Proof.
  induction parts as [|x [|y parts] IHl]; intros H; [reflexivity|..].
  - cbn in *. by rewrite andb_true_r in H.
  - cbn [forallb] in H. apply andb_true_iff in H as [Hx Hrest].
    cbn [joinWith]. rewrite !noSpace_app, Hx. exact (IHl Hrest).
Qed.

(** [JSON.stringify] puts no whitespace between tokens and escapes tabs and
    line breaks inside strings: the text has whitespace only where a key or
    a string of the value has a blank. *)
Theorem stringify_compact j : blankFree j = true -> noSpace (stringify j) = true.
Proof.
  induction j as [|[]|n|s|items IH|fields IH] using json_induction; intros Hj;
    try reflexivity.
  - apply noSpace_showZ.
  - cbn [stringify]. by rewrite noSpace_quote.
  - rewrite stringify_array, !noSpace_app.
    rewrite noSpace_joinWith; [reflexivity|].
    cbn [blankFree] in Hj. rewrite forallb_forall in *.
    intros text Hin. apply in_map_iff in Hin as (x & <- & Hx).
    rewrite Forall_forall in IH. apply IH; [by apply list_elem_of_In|by apply Hj].
  - rewrite stringify_object, !noSpace_app.
    rewrite noSpace_joinWith; [reflexivity|].
    cbn [blankFree] in Hj. rewrite forallb_forall in *.
    intros text Hin. apply in_map_iff in Hin as ([k v] & <- & Hx).
    specialize (Hj _ Hx). apply andb_true_iff in Hj as [Hk Hv].
    cbn [fst snd] in Hk, Hv. unfold member. cbn [fst snd].
    rewrite !noSpace_app, noSpace_quote, Hk.
    rewrite Forall_forall in IH.
    pose proof (IH (k, v) ltac:(by apply list_elem_of_In) Hv) as Hkv.
    cbn [snd] in Hkv. rewrite Hkv. reflexivity.
Qed.

End JsonFacts.

(** * Properties of the request signer *)

Module AuthFacts.
Import Text Json Base64 OrderlyAuth TextSpec ClientScenarios.
Import Base64Facts JsonFacts.

Lemma canonicalOf_parts ts m p requestBody :
  canonicalOf ts m p requestBody
  = showZ ts ++ methodName m ++ p ++ bodyText requestBody.
Proof.
  unfold canonicalOf, constructCanonicalString, bodyString, bodyText.
  destruct requestBody as [j|]; [|reflexivity].
  destruct (truthy (Some j)); reflexivity.
Qed.

(** C5, as the code has it.  The canonical string is the decimal
    timestamp, the method name, the path and the compact JSON of the body,
    one after the other with nothing in between; the JSON has no
    whitespace between its tokens.  The body part is there exactly when a
    truthy body is passed: the signer does not look at the method.  The
    signature header is the URL-safe unpadded base64 of the Ed25519
    signature over the bytes of that string. *)
Theorem signed_request
    (ed25519_sign : list Byte.byte -> list Byte.byte -> list Byte.byte)
    (self : Signer) (clock1 clock2 : Z) (m : Method) (p : string)
    (requestBody : option json) (recvWindow : option Z)
    (headers : OrderlyAuthHeaders) :
  generateAuthHeaders ed25519_sign self clock1 clock2 m p requestBody recvWindow
    = Ok headers ->
  canonicalOf clock1 m p requestBody
    = showZ clock1 ++ methodName m ++ p ++
      match requestBody with
      | Some j => if truthy (Some j) then stringify j else ""
      | None => ""
      end /\
  (forall j, requestBody = Some j -> blankFree j = true ->
     noSpace (stringify j) = true) /\
  orderlyTimestamp headers = showZ clock1 /\
  orderlySignature headers
    = base64url (ed25519_sign
                   (list_byte_of_string (canonicalOf clock1 m p requestBody))
                   (privateKey self)).
Proof.
  unfold generateAuthHeaders. intros Hgen.
  destruct (validateTimestamp clock2 clock1) as [[]|e]; [|discriminate].
  injection Hgen as <-. cbn [orderlyTimestamp orderlySignature].
  split_and!.
  - apply canonicalOf_parts.
  - intros j _. apply stringify_compact.
  - reflexivity.
  - unfold signMessage. apply urlSafe_toBase64.
Qed.

Lemma signed_request_witness :
  exists headers,
    generateAuthHeaders markWith signer0 1700000000000 1700000000002 POST
      "/v1/order" (Some orderBody) None = Ok headers /\
    canonicalOf 1700000000000 POST "/v1/order" (Some orderBody)
      = showZ 1700000000000 ++ methodName POST ++ "/v1/order" ++ stringify orderBody /\
    (forall j, Some orderBody = Some j -> blankFree j = true ->
       noSpace (stringify j) = true) /\
    orderlyTimestamp headers = showZ 1700000000000 /\
    orderlySignature headers
      = base64url (markWith
                     (list_byte_of_string
                        (canonicalOf 1700000000000 POST "/v1/order" (Some orderBody)))
                     (privateKey signer0)).
Proof.
  eexists. split; [reflexivity|].
  apply (signed_request markWith signer0 1700000000000 1700000000002 POST
           "/v1/order" (Some orderBody) None).
  reflexivity.
Defined.

(** C5 as stated does not hold: a GET that is given a body is signed with
    the body in its canonical string (and a POST whose body is the number
    zero is signed without one). *)
Lemma get_with_body_signs_the_body :
  canonicalOf 1700000000000 GET "/v1/orders" None = "1700000000000GET/v1/orders" /\
  canonicalOf 1700000000000 GET "/v1/orders" (Some orderBody)
    = "1700000000000GET/v1/orders" ++ stringify orderBody /\
  canonicalOf 1700000000000 GET "/v1/orders" (Some orderBody)
    <> canonicalOf 1700000000000 GET "/v1/orders" None /\
  canonicalOf 1700000000000 DELETE "/v1/order" (Some orderBody)
    <> canonicalOf 1700000000000 DELETE "/v1/order" None /\
  stringify (JNumber 0) = "0" /\
  canonicalOf 1700000000000 POST "/v1/order" (Some (JNumber 0))
    = "1700000000000POST/v1/order".
Proof. split_and!; try reflexivity; vm_compute; discriminate. Qed.

End AuthFacts.

(** * Properties of the typed-data schemas *)

Module Eip712Facts.
Import Text Eip712 TextSpec.

(** The wallet service signs registrations under exactly that schema and
    the off-chain domain. *)
Lemma signRegistrationMessage_schema m :
  types (signRegistrationMessage m) = [("Registration", registrationSchema)] /\
  domain (signRegistrationMessage m)
    = {| name := "Orderly"; version := "1"; chainId := msgChainId m;
         verifyingContract := OFF_CHAIN_VERIFYING_CONTRACT |} /\
  map fst (message (signRegistrationMessage m)) = map fieldName registrationSchema.
Proof. repeat split. Qed.

(** C3 fails on the code.  The wallet service signs the four-field
    schema; the venue client ([OrderlyWallet.signRegistration], the path
    of [registerUserAccount]) signs under [REGISTRATION_TYPES], which has a
    fifth field [chainType] and types the nonce [uint64]: another type
    string, hence another type hash and signature. *)
Theorem registration_schemas_disagree :
  (forall m,
     types (signRegistrationMessage m) = [("Registration", registrationSchema)] /\
     domain (signRegistrationMessage m)
       = {| name := "Orderly"; version := "1"; chainId := msgChainId m;
            verifyingContract := OFF_CHAIN_VERIFYING_CONTRACT |}) /\
  (forall now brokerId chain nonce,
     types (signRegistration now brokerId chain nonce) = REGISTRATION_TYPES /\
     domain (signRegistration now brokerId chain nonce)
       = {| name := "Orderly"; version := "1"; chainId := chain;
            verifyingContract := OFF_CHAIN_VERIFYING_CONTRACT |}) /\
  REGISTRATION_TYPES <> [("Registration", registrationSchema)] /\
  map encodeType REGISTRATION_TYPES
    = ["Registration(string brokerId,uint256 chainId,string chainType,uint64 timestamp,uint64 registrationNonce)"] /\
  encodeType ("Registration", registrationSchema)
    = "Registration(string brokerId,uint256 chainId,uint64 timestamp,uint256 registrationNonce)" /\
  map fst (message (signRegistration 1700000000000 "woofi_dex" 42161 "194528949540"))
    = ["brokerId"; "chainId"; "chainType"; "timestamp"; "registrationNonce"].
Proof. split_and!; try reflexivity; try (intros; split; reflexivity). discriminate. Qed.

End Eip712Facts.

(** * Properties of the sealed envelope *)

Module EncryptionFacts.
Import Text Json Base64 Encryption Base64Facts JsonFacts.

Section Contracts.
Variable aes256gcm_seal :
  list Byte.byte -> list Byte.byte -> list Byte.byte -> list Byte.byte * list Byte.byte.
Variable aes256gcm_open :
  list Byte.byte -> list Byte.byte -> list Byte.byte -> list Byte.byte ->
  option (list Byte.byte).
Variable JSON_parse : string -> option json.

(** The cipher opens what it sealed under the same key and nonce. *)
Hypothesis gcm_correct : forall key iv plain,
  aes256gcm_open key iv (aes256gcm_seal key iv plain).1 (aes256gcm_seal key iv plain).2
  = Some plain.

(** [JSON.parse] reads back an envelope that [JSON.stringify] wrote. *)
Hypothesis parse_stringify : forall iv encrypted tag : list Byte.byte,
  JSON_parse (stringify (envelope (toBase64 iv) (toBase64 encrypted) (toBase64 tag)))
  = Some (envelope (toBase64 iv) (toBase64 encrypted) (toBase64 tag)).

Abbreviation encrypt := (encrypt aes256gcm_seal).
Abbreviation decrypt := (decrypt aes256gcm_open JSON_parse).



End Contracts.

End EncryptionFacts.

(** * The stand-ins meet the contracts *)

Module StandInFacts.
Import Text Json Base64 Encryption TextSpec StandIns Base64Facts JsonFacts.

Lemma byteZ_inj a b : byteZ a = byteZ b -> a = b.
Proof. intros H. rewrite <- (ofZ_byteZ a), <- (ofZ_byteZ b). by rewrite H. Qed.

Lemma mirror_correct key iv plain :
  mirrorOpen key iv (mirrorSeal key iv plain).1 (mirrorSeal key iv plain).2 = Some plain.
Proof.
  unfold mirrorOpen, mirrorSeal. cbn [fst snd].
  destruct (decide _) as [_|Hne]; [|contradiction].
  by rewrite rev_involutive.
Qed.

Lemma stripPrefix_app p s : stripPrefix p (p ++ s) = Some s.
Proof.
  induction p as [|c p IH]; [reflexivity|].
  change (String c p ++ s) with (String c (p ++ s)). cbn [stripPrefix].
  by rewrite Ascii.eqb_refl.
Qed.

Lemma plain_cons c rest :
  plain (String c rest) = true ->
  quoteChar c = String c "" /\ Ascii.eqb c dquote = false /\ plain rest = true.
Proof.
  cbn [plain]. rewrite !andb_true_iff, !negb_true_iff.
  intros [[[Hq Hb] Hc] Hrest]. split_and!; [|assumption..].
  unfold quoteChar. rewrite Hq, Hb.
  apply Nat.leb_le in Hc.
  repeat match goal with
    | |- context [(?n =? ?k)%nat] =>
        destruct (Nat.eqb_spec n k) as [Heq|_]; [lia|]
    end.
  destruct (Nat.ltb_spec (nat_of_ascii c) 32); [lia|reflexivity].
Qed.

Lemma quoteChars_plain s : plain s = true -> quoteChars s = s.
Proof.
  induction s as [|c s IH]; intros Hs; [reflexivity|].
  apply plain_cons in Hs as (Hq & _ & Hrest).
  cbn [quoteChars]. rewrite Hq, (IH Hrest). reflexivity.
Qed.

Lemma untilQuote_plain s rest :
  plain s = true -> untilQuote (s ++ String dquote rest) = Some (s, rest).
Proof.
  induction s as [|c s IH]; intros Hs.
  - reflexivity.
  - apply plain_cons in Hs as (_ & Hq & Hrest).
    change (String c s ++ String dquote rest) with (String c (s ++ String dquote rest)).
    cbn [untilQuote]. rewrite Hq, (IH Hrest). reflexivity.
Qed.

Lemma digit_plain n :
  0 <= n < 64 -> plain (String (digit standardAlphabet n) "") = true.
Proof.
  revert n. apply below_64. vm_compute.
  repeat (constructor; [reflexivity|]). constructor.
Qed.

Lemma plain_head c rest :
  plain (String c "") = true -> plain rest = true -> plain (String c rest) = true.
Proof. cbn [plain]. rewrite !andb_true_r. by intros -> ->. Qed.

Lemma toBase64_plain bytes : plain (toBase64 bytes) = true.
Proof.
  unfold toBase64.
  induction bytes as [|a|a b|a b c rest IH] using list_ind3; [reflexivity|..];
    pose proof (byteZ_range a) as Ha; cbn [encodeWith].
  - repeat (apply plain_head;
            [apply digit_plain; (apply sextet1_range || apply sextet2_range); lia|]).
    reflexivity.
  - pose proof (byteZ_range b) as Hb.
    repeat (apply plain_head;
            [apply digit_plain;
             (apply sextet1_range || apply sextet2_range || apply sextet3_range); lia|]).
    reflexivity.
  - pose proof (byteZ_range b) as Hb. pose proof (byteZ_range c) as Hc.
    repeat (apply plain_head;
            [apply digit_plain;
             (apply sextet1_range || apply sextet2_range || apply sextet3_range
              || apply sextet4_range); lia|]).
    exact IH.
Qed.

Lemma quote_app s rest :
  quote s ++ rest = String dquote (quoteChars s ++ String dquote rest).
Proof.
  unfold quote.
  change (String dquote (quoteChars s ++ String dquote "") ++ rest)
    with (String dquote ((quoteChars s ++ String dquote "") ++ rest)).
  by rewrite append_assoc.
Qed.

(** The text of an envelope, laid out for the reader. *)
Lemma stringify_envelope iv encrypted tag :
  stringify (envelope iv encrypted tag)
  = envelopeOpening ++ quoteChars iv ++ String dquote
      (envelopeMiddle ++ quoteChars encrypted ++ String dquote
         (envelopeEnding ++ quoteChars tag ++ String dquote "}")).
Proof.
  unfold envelope. cbn [stringify].
  rewrite !append_assoc. rewrite (quote_app tag), (quote_app encrypted), (quote_app iv).
  reflexivity.
Qed.

Lemma readEnvelope_stringify (iv encrypted tag : list Byte.byte) :
  readEnvelope (stringify (envelope (toBase64 iv) (toBase64 encrypted) (toBase64 tag)))
  = Some (envelope (toBase64 iv) (toBase64 encrypted) (toBase64 tag)).
Proof.
  rewrite stringify_envelope.
  rewrite !quoteChars_plain by apply toBase64_plain.
  unfold readEnvelope.
  rewrite stripPrefix_app, untilQuote_plain by apply toBase64_plain.
  rewrite stripPrefix_app, untilQuote_plain by apply toBase64_plain.
  rewrite stripPrefix_app, untilQuote_plain by apply toBase64_plain.
  reflexivity.
Qed.


(** The envelope of that run, and a forged one. *)
Example sealed_text :
  encrypt mirrorSeal key32 nonce12 "key" = Ok
    (String "{" (quote "iv" ++ ":" ++ quote "BwcHBwcHBwcHBwcH" ++ "," ++
                 quote "encrypted" ++ ":" ++ quote "eWVr" ++ "," ++
                 quote "tag" ++ ":" ++
                 quote "BwcHBwcHBwcHBwcHKioqKioqKioqKioqKioqKioqKioqKioqKioqKioqKio=" ++ "}")).
Proof. vm_compute. reflexivity. Qed.

Example forged_tag_is_refused :
  decrypt mirrorOpen readEnvelope key32
    (stringify (envelope "BwcHBwcHBwcHBwcH" "eWVr" "AAAA"))
  = Throw "Decryption failed: Unsupported state or unable to authenticate data".
Proof. vm_compute. reflexivity. Qed.

End StandInFacts.

(** * Properties of the key encodings *)

Module HexFacts.
Import Text Json Base64 Hex Base58 Keypair KeySpec OrderlyAuth Base64Facts.

(** A property of every character, checked character by character. *)
Lemma every_ascii (P : ascii -> bool) :
  forallb P (map ascii_of_nat (seq 0 256)) = true -> forall c, P c = true.
Proof.
  intros H c. rewrite forallb_forall in H. apply H.
  apply in_map_iff. exists (nat_of_ascii c). split.
  - apply ascii_nat_embedding.
  - apply in_seq. pose proof (nat_ascii_bounded c). lia.
Qed.

(** What a hexadecimal digit is not. *)
Lemma hexValue_Some c v :
  hexValue c = Some v ->
  0 <= v < 16 /\ isWhite c = false /\ Ascii.eqb c "-" = false /\
  Ascii.eqb c "+" = false /\ Ascii.eqb c "x" = false /\ Ascii.eqb c "X" = false.
Proof.
  intros H.
  assert (Hc : (match hexValue c with
                | Some v => Z.leb 0 v && Z.ltb v 16 && negb (isWhite c)
                            && negb (Ascii.eqb c "-") && negb (Ascii.eqb c "+")
                            && negb (Ascii.eqb c "x") && negb (Ascii.eqb c "X")
                | None => true
                end) = true).
  { revert c H. intros c _. revert c. apply every_ascii. vm_compute. reflexivity. }
  rewrite H in Hc.
  repeat (apply andb_prop in Hc; destruct Hc as [Hc ?]).
  repeat match goal with
         | H : negb _ = true |- _ => apply negb_true_iff in H
         end.
  split_and!; try assumption; lia.
Qed.

Lemma hexValue_hexDigit n :
  0 <= n < 16 -> hexValue (hexDigit (Z.to_nat n)) = Some n.
Proof.
  revert n.
  assert (H : Forall (fun n => hexValue (hexDigit (Z.to_nat n)) = Some n) (seqZ 0 16)).
  { vm_compute. repeat constructor. }
  intros n Hn. rewrite Forall_forall in H. apply H. apply elem_of_seqZ. lia.
Qed.

(** One pair of digits, as [parseInt] reads it. *)
Lemma parseInt16_pair a b x y :
  hexValue a = Some x -> hexValue b = Some y ->
  parseInt16 (String a (String b "")) = Some (x * 16 + y).
Proof.
  intros Ha Hb.
  destruct (hexValue_Some _ _ Ha) as (_ & Hw & Hm & Hp & _).
  destruct (hexValue_Some _ _ Hb) as (_ & _ & _ & _ & Hx & HX).
  unfold parseInt16. cbn [trimStart]. rewrite Hw. cbn [fst snd].
  rewrite Hm, Hp. cbn [fst snd]. rewrite Hx, HX, andb_false_r.
  cbn [hexPrefix]. rewrite Ha, Hb. f_equal. lia.
Qed.

Lemma toUint8_pair x y :
  0 <= x < 16 -> 0 <= y < 16 -> toUint8 (Some (x * 16 + y)) = ofZ (x * 16 + y).
Proof. intros Hx Hy. unfold toUint8. rewrite Z.mod_small by lia. reflexivity. Qed.

Lemma stripHexPrefix_allHex s : allHex s = true -> stripHexPrefix s = s.
Proof.
  destruct s as [|a [|b rest]]; try reflexivity.
  cbn [allHex]. destruct (hexValue a) eqn:Ha; [|discriminate].
  destruct (hexValue b) eqn:Hb; [|discriminate]. intros _.
  destruct (hexValue_Some _ _ Hb) as (_ & _ & _ & _ & Hx & _).
  unfold stripHexPrefix. by rewrite Hx, andb_false_r.
Qed.

(** Induction over a text two characters at a time. *)
Lemma string_ind2 (P : string -> Prop) :
  P "" -> (forall a, P (String a "")) ->
  (forall a b rest, P rest -> P (String a (String b rest))) ->
  forall s, P s.
Proof.
  intros H0 H1 H2 s.
  assert (H : P s /\ forall a, P (String a s)).
  { induction s as [|x s [IH0 IH1]]; [auto|]. split; auto. }
  apply H.
Qed.

Lemma hexPairs_allHex s : allHex s = true -> hexPairs s = bufferFromHex s.
Proof.
  induction s as [|a|a b rest IH] using string_ind2; try reflexivity.
  cbn [allHex]. destruct (hexValue a) as [x|] eqn:Ha; [|discriminate].
  destruct (hexValue b) as [y|] eqn:Hb; [|discriminate]. intros Hrest.
  cbn [hexPairs bufferFromHex]. rewrite Ha, Hb.
  rewrite (parseInt16_pair _ _ _ _ Ha Hb).
  destruct (hexValue_Some _ _ Ha) as (Hx & _).
  destruct (hexValue_Some _ _ Hb) as (Hy & _).
  rewrite toUint8_pair by assumption. f_equal. auto.
Qed.

Lemma allHex_toHex bytes : allHex (toHex bytes) = true.
Proof.
  induction bytes as [|b rest IH]; [reflexivity|].
  pose proof (byteZ_range b) as Hb.
  cbn [toHex allHex].
  rewrite !hexValue_hexDigit by (Z.div_mod_to_equations; lia). exact IH.
Qed.

Lemma bufferFromHex_toHex bytes : bufferFromHex (toHex bytes) = bytes.
Proof.
  induction bytes as [|b rest IH]; [reflexivity|].
  pose proof (byteZ_range b) as Hb.
  cbn [toHex bufferFromHex].
  rewrite !hexValue_hexDigit by (Z.div_mod_to_equations; lia).
  rewrite IH. f_equal.
  replace (byteZ b / 16 * 16 + byteZ b mod 16) with (byteZ b)
    by (Z.div_mod_to_equations; lia).
  apply ofZ_byteZ.
Qed.

Lemma hexPairs_length s : length (hexPairs s) = (String.length s / 2)%nat.
Proof.
  induction s as [|a|a b rest IH] using string_ind2; try reflexivity.
  cbn [hexPairs String.length length]. rewrite IH.
  change (S (S (String.length rest))) with (2 + String.length rest)%nat.
  replace (2 + String.length rest)%nat with (String.length rest + 1 * 2)%nat by lia.
  rewrite Nat.div_add by lia. lia.
Qed.

Lemma toHex_length bytes : String.length (toHex bytes) = (2 * length bytes)%nat.
Proof.
  induction bytes as [|b rest IH]; [reflexivity|].
  cbn [toHex String.length length]. lia.
Qed.

(** The private key that [generateEd25519Keypair] writes as hexadecimal
    text is read back byte for byte, by [hexToBytes] (with or without a
    leading [0x]) and by [Buffer.from(text, 'hex')] alike. *)
Theorem private_key_hex_round_trip (bytes : list Byte.byte) :
  hexToBytes (toHex bytes) = bytes /\
  hexToBytes ("0x" ++ toHex bytes) = bytes /\
  bufferFromHex (toHex bytes) = bytes /\
  String.length (toHex bytes) = (2 * length bytes)%nat.
Proof.
  assert (H1 : hexPairs (toHex bytes) = bytes).
  { rewrite hexPairs_allHex by apply allHex_toHex. apply bufferFromHex_toHex. }
  split_and!.
  - unfold hexToBytes. rewrite stripHexPrefix_allHex by apply allHex_toHex. exact H1.
  - unfold hexToBytes. change ("0x" ++ toHex bytes) with (String "0" (String "x" (toHex bytes))).
    cbn [stripHexPrefix]. exact H1.
  - apply bufferFromHex_toHex.
  - apply toHex_length.
Qed.

(** [hexToBytes] takes any text: it never throws and always returns half
    as many bytes as the text (without its [0x]) has characters, rounded
    down.  On a text of hexadecimal digits it returns what
    [Buffer.from(text, 'hex')] returns, which never has more bytes. *)
Theorem hexToBytes_lenient (hex : string) :
  length (hexToBytes hex) = (String.length (stripHexPrefix hex) / 2)%nat /\
  (allHex hex = true -> hexToBytes hex = bufferFromHex hex) /\
  (length (bufferFromHex (stripHexPrefix hex)) <= length (hexToBytes hex))%nat.
Proof.
  split_and!.
  - apply hexPairs_length.
  - intros H. unfold hexToBytes. rewrite stripHexPrefix_allHex by assumption.
    by apply hexPairs_allHex.
  - unfold hexToBytes. generalize (stripHexPrefix hex) as s. intros s.
    induction s as [|a|a b rest IH] using string_ind2; try (cbn; lia).
    cbn [hexPairs bufferFromHex].
    destruct (hexValue a), (hexValue b); cbn [length]; lia.
Qed.

End HexFacts.

Module Base58Facts.
Import Text Json Base64 Hex Base58 Keypair KeySpec Base64Facts JsonFacts.

Lemma index_digit n :
  0 <= n < 58 ->
  indexIn ALPHABET (digit ALPHABET n) = Some n /\
  (n <> 0 -> Ascii.eqb (digit ALPHABET n) "1" = false).
Proof.
  revert n.
  assert (H : Forall (fun n => indexIn ALPHABET (digit ALPHABET n) = Some n /\
                               (n <> 0 -> Ascii.eqb (digit ALPHABET n) "1" = false))
                     (seqZ 0 58)).
  { vm_compute. repeat constructor; intros; congruence. }
  intros n Hn. rewrite Forall_forall in H. apply H. apply elem_of_seqZ. lia.
Qed.

Lemma value58_app s t acc : value58 (s ++ t) acc = value58 t (value58 s acc).
Proof.
  revert acc. induction s as [|c s IH]; intros acc; [reflexivity|].
  change (String c s ++ t) with (String c (s ++ t)). cbn [value58]. apply IH.
Qed.

(** The loop puts its digits in front of what it was given. *)
Lemma digitsLoop_acc fuel num acc :
  digitsLoop fuel num acc = digitsLoop fuel num "" ++ acc.
Proof.
  revert num acc. induction fuel as [|fuel IH]; intros num acc; [reflexivity|].
  cbn [digitsLoop]. destruct (Z.ltb 0 num); [|reflexivity].
  rewrite (IH _ (String _ acc)), (IH _ (String _ "")).
  rewrite append_assoc. reflexivity.
Qed.

(** With enough fuel the loop writes the whole number. *)
Lemma digitsLoop_value fuel num :
  0 <= num < 58 ^ Z.of_nat fuel -> value58 (digitsLoop fuel num "") 0 = num.
Proof.
  revert num. induction fuel as [|fuel IH]; intros num Hnum.
  - cbn in *. lia.
  - cbn [digitsLoop]. destruct (Z.ltb_spec 0 num) as [Hpos|Hzero]; [|cbn; lia].
    rewrite digitsLoop_acc, value58_app.
    rewrite Nat2Z.inj_succ, Z.pow_succ_r in Hnum by lia.
    rewrite IH by (Z.div_mod_to_equations; lia).
    cbn [value58].
    destruct (index_digit (num mod 58)) as [-> _]; [Z.div_mod_to_equations; lia|].
    change (default 0 (Some ?x)) with x. Z.div_mod_to_equations; lia.
Qed.

(** Its first digit is the most significant one, which is not zero. *)
Lemma digitsLoop_head fuel num :
  0 < num < 58 ^ Z.of_nat fuel ->
  leadingChars "1" (digitsLoop fuel num "") = O.
Proof.
  revert num. induction fuel as [|fuel IH]; intros num Hnum.
  - cbn in *. lia.
  - cbn [digitsLoop]. destruct (Z.ltb_spec 0 num) as [_|]; [|lia].
    rewrite Nat2Z.inj_succ, Z.pow_succ_r in Hnum by lia.
    rewrite digitsLoop_acc.
    destruct (Z.eq_dec (num / 58) 0) as [Hq|Hq].
    + rewrite Hq. destruct fuel; cbn [digitsLoop Z.ltb Z.compare];
        change ("" ++ ?s) with s; cbn [leadingChars];
        destruct (index_digit (num mod 58)) as [_ ->];
        try reflexivity; Z.div_mod_to_equations; lia.
    + assert (Hrec : 0 < num / 58 < 58 ^ Z.of_nat fuel)
        by (Z.div_mod_to_equations; lia).
      specialize (IH _ Hrec).
      destruct (digitsLoop fuel (num / 58) "") as [|c rest] eqn:Hd.
      * pose proof (digitsLoop_value fuel (num / 58) ltac:(lia)) as Hv.
        rewrite Hd in Hv. cbn in Hv. lia.
      * change (String c rest ++ ?s) with (String c (rest ++ s)).
        cbn [leadingChars] in *. destruct (Ascii.eqb c "1"); [discriminate|reflexivity].
Qed.

Lemma repeated_shift c k s : repeated c k (String c s) = String c (repeated c k s).
Proof. induction k as [|k IH]; [reflexivity|]. cbn [repeated]. by rewrite IH. Qed.

Lemma zerosLoop_repeated bytes result :
  zerosLoop bytes result = repeated "1" (leadingZeros bytes) result.
Proof.
  revert result. induction bytes as [|b rest IH]; intros result; [reflexivity|].
  cbn [zerosLoop leadingZeros]. destruct (Z.eqb (byteZ b) 0); [|reflexivity].
  rewrite IH. change (digit ALPHABET 0) with "1"%char. apply repeated_shift.
Qed.

Lemma value58_repeated k s : value58 (repeated "1" k s) 0 = value58 s 0.
Proof. induction k as [|k IH]; [reflexivity|]. exact IH. Qed.

Lemma leadingChars_repeated k s :
  leadingChars "1" (repeated "1" k s) = (k + leadingChars "1" s)%nat.
Proof. induction k as [|k IH]; [reflexivity|]. cbn [repeated leadingChars]. cbn. by rewrite IH. Qed.

(** *** The bytes as a number *)

Lemma bigEndian_acc bytes acc :
  fold_left (fun a b => a * 256 + byteZ b) bytes acc
  = acc * 256 ^ Z.of_nat (length bytes) + bigEndian bytes.
Proof.
  unfold bigEndian. revert acc.
  induction bytes as [|b rest IH]; intros acc; [cbn; lia|].
  cbn [fold_left length]. rewrite IH, (IH (0 * 256 + byteZ b)).
  rewrite Nat2Z.inj_succ, Z.pow_succ_r by lia. lia.
Qed.

Lemma bigEndian_cons b rest :
  bigEndian (b :: rest) = byteZ b * 256 ^ Z.of_nat (length rest) + bigEndian rest.
Proof. unfold bigEndian at 1. cbn [fold_left]. rewrite bigEndian_acc. lia. Qed.

Lemma bigEndian_range bytes : 0 <= bigEndian bytes < 256 ^ Z.of_nat (length bytes).
Proof.
  induction bytes as [|b rest IH]; [cbn; lia|].
  rewrite bigEndian_cons. cbn [length].
  rewrite Nat2Z.inj_succ, Z.pow_succ_r by lia.
  pose proof (byteZ_range b). nia.
Qed.

Lemma fuel_suffices bytes : bigEndian bytes < 58 ^ Z.of_nat (2 * length bytes).
Proof.
  pose proof (bigEndian_range bytes) as H.
  rewrite Nat2Z.inj_mul, Z.pow_mul_r by lia.
  change (58 ^ Z.of_nat 2) with 3364.
  assert (256 ^ Z.of_nat (length bytes) <= 3364 ^ Z.of_nat (length bytes))
    by (apply Z.pow_le_mono_l; lia).
  lia.
Qed.

(** The shape of every encoding. *)
Lemma base58Encode_Ok bytes s :
  base58Encode bytes = Ok s ->
  s = repeated "1" (leadingZeros bytes)
        (digitsLoop (2 * length bytes) (bigEndian bytes) "").
Proof.
  destruct bytes as [|b rest]; [discriminate|].
  generalize (zerosLoop_repeated (b :: rest)
                (digitsLoop (2 * length (b :: rest)) (bigEndian (b :: rest)) "")).
  change (base58Encode (b :: rest))
    with (Ok (zerosLoop (b :: rest)
                (digitsLoop (2 * length (b :: rest)) (bigEndian (b :: rest)) ""))).
  generalize (zerosLoop (b :: rest)
                (digitsLoop (2 * length (b :: rest)) (bigEndian (b :: rest)) "")).
  intros text Htext Hs. congruence.
Qed.

Lemma encoding_value bytes s : base58Encode bytes = Ok s -> value58 s 0 = bigEndian bytes.
Proof.
  intros ->%base58Encode_Ok. rewrite value58_repeated.
  apply digitsLoop_value. pose proof (bigEndian_range bytes).
  pose proof (fuel_suffices bytes). lia.
Qed.

Lemma encoding_zeros bytes s :
  base58Encode bytes = Ok s -> leadingChars "1" s = leadingZeros bytes.
Proof.
  intros ->%base58Encode_Ok. rewrite leadingChars_repeated.
  pose proof (bigEndian_range bytes) as Hr. pose proof (fuel_suffices bytes) as Hf.
  destruct (Z.eq_dec (bigEndian bytes) 0) as [->|Hne].
  - destruct (2 * length bytes)%nat; cbn; lia.
  - rewrite digitsLoop_head by lia. lia.
Qed.

Lemma byteZ_zero b : byteZ b = 0 -> b = Byte.x00.
Proof. intros H. rewrite <- (ofZ_byteZ b), H. reflexivity. Qed.

(** A byte string is its leading zeros and its number. *)
Lemma zeros_and_number a b :
  leadingZeros a = leadingZeros b -> bigEndian a = bigEndian b -> a = b.
Proof.
  assert (Hlen : forall x y xs ys,
            byteZ x <> 0 -> byteZ y <> 0 ->
            bigEndian (x :: xs) = bigEndian (y :: ys) ->
            ~ (length xs < length ys)%nat).
  { intros x y xs ys Hx Hy Heq Hlt. rewrite !bigEndian_cons in Heq.
    pose proof (bigEndian_range xs). pose proof (bigEndian_range ys).
    pose proof (byteZ_range x). pose proof (byteZ_range y).
    assert (256 * 256 ^ Z.of_nat (length xs) <= 256 ^ Z.of_nat (length ys)).
    { rewrite <- Z.pow_succ_r by lia. apply Z.pow_le_mono_r; lia. }
    nia. }
  assert (Hsame : forall xs ys, length xs = length ys ->
            bigEndian xs = bigEndian ys -> xs = ys).
  { induction xs as [|x xs IH]; intros [|y ys] Hl Heq; try discriminate; [reflexivity|].
    injection Hl as Hl. rewrite !bigEndian_cons, Hl in Heq.
    pose proof (bigEndian_range xs) as Hx. pose proof (bigEndian_range ys) as Hy.
    rewrite Hl in Hx.
    pose proof (byteZ_range x). pose proof (byteZ_range y).
    assert (byteZ x = byteZ y) by nia.
    assert (bigEndian xs = bigEndian ys) by nia.
    f_equal; [|by apply IH].
    rewrite <- (ofZ_byteZ x), <- (ofZ_byteZ y). congruence. }
  revert b. induction a as [|x a IH]; intros [|y b] Hz Hv.
  - reflexivity.
  - cbn [leadingZeros] in Hz. destruct (Z.eqb_spec (byteZ y) 0); [discriminate|].
    rewrite bigEndian_cons in Hv. change (bigEndian []) with 0 in Hv.
    pose proof (bigEndian_range b). pose proof (byteZ_range y).
    assert (0 < 256 ^ Z.of_nat (length b)) by (apply Z.pow_pos_nonneg; lia). nia.
  - cbn [leadingZeros] in Hz. destruct (Z.eqb_spec (byteZ x) 0); [discriminate|].
    rewrite bigEndian_cons in Hv. change (bigEndian []) with 0 in Hv.
    pose proof (bigEndian_range a). pose proof (byteZ_range x).
    assert (0 < 256 ^ Z.of_nat (length a)) by (apply Z.pow_pos_nonneg; lia). nia.
  - cbn [leadingZeros] in Hz.
    destruct (Z.eqb_spec (byteZ x) 0) as [Hx|Hx], (Z.eqb_spec (byteZ y) 0) as [Hy|Hy];
      try discriminate.
    + injection Hz as Hz. rewrite !bigEndian_cons, Hx, Hy in Hv.
      rewrite (byteZ_zero _ Hx), (byteZ_zero _ Hy). f_equal. apply IH; [assumption|lia].
    + apply Hsame; [|assumption]. cbn [length]. f_equal.
      pose proof (Hlen _ _ _ _ Hx Hy Hv). pose proof (Hlen _ _ _ _ Hy Hx (eq_sym Hv)). lia.
Qed.

(** [base58Encode] loses nothing: two byte strings with the same text are
    the same byte string, so a public key is identified by its Base58
    form. *)
Theorem base58Encode_injective (a b : list Byte.byte) (s : string) :
  base58Encode a = Ok s -> base58Encode b = Ok s -> a = b.
Proof.
  intros Ha Hb. apply zeros_and_number.
  - rewrite <- (encoding_zeros _ _ Ha), <- (encoding_zeros _ _ Hb). reflexivity.
  - rewrite <- (encoding_value _ _ Ha), <- (encoding_value _ _ Hb). reflexivity.
Qed.

Lemma base58Encode_injective_witness :
  base58Encode [Byte.x00; Byte.x01] = Ok "12" /\
  ([Byte.x00; Byte.x01] : list Byte.byte) = [Byte.x00; Byte.x01].
Proof.
  split; [reflexivity|].
  apply (base58Encode_injective [Byte.x00; Byte.x01] [Byte.x00; Byte.x01] "12");
    reflexivity.
Defined.

(** [base58Encode] throws on the empty byte string and on nothing else.
    The loop writes the whole number (read back in base 58, the text is
    the number the bytes spell), and the text begins with one [1] for every
    zero byte the byte string begins with. *)
Theorem base58Encode_shape (bytes : list Byte.byte) :
  (bytes = [] <-> exists e, base58Encode bytes = Throw e) /\
  (forall s, base58Encode bytes = Ok s ->
     value58 s 0 = bigEndian bytes /\
     leadingChars "1" s = leadingZeros bytes /\
     s = repeated "1" (leadingZeros bytes)
           (digitsLoop (2 * length bytes) (bigEndian bytes) "") /\
     forall more,
       digitsLoop (more + 2 * length bytes) (bigEndian bytes) ""
       = digitsLoop (2 * length bytes) (bigEndian bytes) "").
Proof.
  split.
  - split.
    + intros ->. eexists. reflexivity.
    + intros [e He]. destruct bytes; [reflexivity|discriminate].
  - intros s Hs. split_and!.
    + by apply encoding_value.
    + by apply encoding_zeros.
    + by apply base58Encode_Ok.
    + intros more. pose proof (bigEndian_range bytes) as Hr.
      pose proof (fuel_suffices bytes) as Hf.
      generalize dependent (bigEndian bytes). generalize (2 * length bytes)%nat as fuel.
      clear. intros fuel. induction fuel as [|fuel IH]; intros num Hr Hf.
      * cbn in Hf. assert (num = 0) as -> by lia.
        destruct more; reflexivity.
      * rewrite Nat.add_succ_r. cbn [digitsLoop].
        destruct (Z.ltb_spec 0 num); [|reflexivity].
        rewrite Nat2Z.inj_succ, Z.pow_succ_r in Hf by lia.
        rewrite (digitsLoop_acc (more + fuel)), (digitsLoop_acc fuel).
        rewrite IH by (Z.div_mod_to_equations; lia). reflexivity.
Qed.

End Base58Facts.

(** * Properties of the signer's clock check and of the client around the loop *)

Module ClientFacts.
Import Text Json OrderlyErrors OrderlyApi OrderlyAuth ApiClient ClientSpec ApiSpec.
Import ApiFacts ClientScenarios.



(** One key, then a list of keys, by lookup. *)
Lemma redactKey_lookup (h : gmap string json) key other :
  redactKey h key !! other
  = if decide (key = other)
    then (if truthy (h !! key) then Some REDACTED else (h !! key))
    else (h !! other).
Proof.
  unfold redactKey. destruct (truthy (h !! key)) eqn:Ht.
  - rewrite lookup_insert. reflexivity.
  - destruct (decide (key = other)) as [->|]; reflexivity.
Qed.

Lemma redact_lookup keys (h : gmap string json) other :
  fold_left redactKey keys h !! other
  = if decide (other ∈ keys)
    then (if truthy (h !! other) then Some REDACTED else (h !! other))
    else (h !! other).
Proof.
  revert h. induction keys as [|key keys IH]; intros h.
  - cbn [fold_left]. destruct (decide _) as [Hin|]; [|reflexivity]. by apply elem_of_nil in Hin.
  - cbn [fold_left]. rewrite IH, redactKey_lookup.
    destruct (decide (key = other)) as [->|Hne].
    + destruct (decide (other ∈ other :: keys)) as [_|Hout]; [|exfalso; apply Hout; left].
      destruct (truthy (h !! other)) eqn:Ht.
      * change (truthy (Some REDACTED)) with true. destruct (decide _); reflexivity.
      * rewrite Ht. destruct (decide _); reflexivity.
    + destruct (decide (other ∈ keys)) as [Hin|Hout].
      * destruct (decide (other ∈ key :: keys)) as [_|Hout]; [reflexivity|].
        exfalso. apply Hout. by right.
      * destruct (decide (other ∈ key :: keys)) as [Hin|_]; [|reflexivity].
        apply elem_of_cons in Hin as [->|Hin]; [congruence|contradiction].
Qed.

(** [redactHeaders] leaves no readable value under the three sensitive
    keys: what is found there afterwards is the marker, or a value that
    was falsy to begin with.  Every other header, the account id and a
    lower-case [authorization] among them, is passed on as it was, and no
    header is added or dropped. *)
Theorem redactHeaders_hides_secrets (headers : gmap string json) :
  (forall key, key ∈ sensitiveKeys ->
     redactHeaders headers !! key
     = if truthy (headers !! key) then Some REDACTED else (headers !! key)) /\
  (forall key, key ∉ sensitiveKeys -> redactHeaders headers !! key = headers !! key) /\
  dom (redactHeaders headers) = dom headers /\
  ("orderly-account-id" ∉ sensitiveKeys) /\ ("authorization" ∉ sensitiveKeys).
Proof.
  assert (Hall : forall other,
            redactHeaders headers !! other
            = if decide (other ∈ sensitiveKeys)
              then (if truthy (headers !! other) then Some REDACTED
                    else (headers !! other))
              else (headers !! other)).
  { intros other. apply redact_lookup. }
  split_and!.
  - intros key Hin. rewrite Hall. destruct (decide _); [reflexivity|contradiction].
  - intros key Hout. rewrite Hall. destruct (decide _); [contradiction|reflexivity].
  - apply set_eq. intros key. rewrite !elem_of_dom, Hall.
    destruct (decide _); [|reflexivity].
    destruct (headers !! key) as [v|] eqn:Hv.
    + destruct (truthy (Some v)); split; eauto.
    + cbn. reflexivity.
  - unfold sensitiveKeys. intros H.
    repeat (apply elem_of_cons in H as [H|H]; [discriminate|]). by apply elem_of_nil in H.
  - unfold sensitiveKeys. intros H.
    repeat (apply elem_of_cons in H as [H|H]; [discriminate|]). by apply elem_of_nil in H.
Qed.

(** A call ends with what its last attempt came to: the data that attempt
    was answered with, the error that made it stop at once, or, when every
    allowed attempt has failed, the error of the last of them and not of an
    earlier one.  With a negative retry budget nothing is sent at all and
    the call throws [undefined]. *)
Theorem request_surfaces_last_attempt {T : Type} (budget : Z) (send : Z -> Attempt T) :
  let r := request budget send in
  (budget < 0 -> r = {| outcome := Threw None; attempts := 0; delays := [] |}) /\
  (0 <= budget ->
     let lastAttempt := send (Z.of_nat (attempts r) - 1) in
     match outcome r with
     | Returned data => lastAttempt = Responded data
     | Threw None => False
     | Threw (Some e) =>
         classify lastAttempt = Some (ThrowNow e) \/
         (classify lastAttempt = Some (Remember e) /\
          Z.of_nat (attempts r) = budget + 1)
     end).
Proof.
  cbv zeta. split.
  - intros Hneg. unfold request.
    replace (Z.to_nat (budget + 1)) with O by lia. reflexivity.
  - intros Hpos.
    destruct (loop_spec budget send (Z.to_nat (budget + 1)) 0 None
                ltac:(lia) ltac:(lia)) as (Hatt & _ & _ & Hlast).
    fold (request budget send) in Hatt, Hlast. unfold lastPass in Hlast.
    replace (0 + Z.of_nat (attempts (request budget send)) - 1)
      with (Z.of_nat (attempts (request budget send)) - 1) in Hlast by lia.
    destruct (classify (send (Z.of_nat (attempts (request budget send)) - 1)))
      as [[e|e]|] eqn:Hv.
    + rewrite Hlast. by left.
    + destruct Hlast as [Hfuel ->]. right. split; [reflexivity|]. lia.
    + destruct Hlast as (data & Hdata & ->). exact Hdata.
Qed.

(** ** The venue's error, as the client reports it *)

Lemma includes_prefix m rest : includes (m ++ rest) m = true.
Proof.
  assert (H : String.prefix m (m ++ rest) = true).
  { induction m as [|c m IH]; [by destruct rest|].
    change (String c m ++ rest) with (String c (m ++ rest)).
    cbn [String.prefix]. destruct (ascii_dec c c); [exact IH|contradiction]. }
  destruct (m ++ rest); cbn [includes]; rewrite H; reflexivity.
Qed.

Lemma includes_app_l front s needle :
  includes s needle = true -> includes (front ++ s) needle = true.
Proof.
  intros H. induction front as [|c front IH]; [exact H|].
  change (String c front ++ s) with (String c (front ++ s)).
  cbn [includes]. rewrite IH. apply orb_true_r.
Qed.

Lemma lookupCode_Some code table info :
  lookupCode code table = Some info -> (code, info) ∈ table.
Proof.
  induction table as [|[k i] table IH]; [discriminate|].
  cbn [lookupCode]. destruct (Z.eqb_spec k code) as [->|_].
  - intros [= ->]. left.
  - intros H. right. auto.
Qed.

(** [createOrderlyError] never loses what the venue said: the error keeps
    the venue's code, and its message contains the venue's message.  A code
    of the table adds the code's name, description and HTTP status, and
    every entry of the table is filed under its own code; any other code
    gives the bare message and no status. *)
Theorem createOrderlyError_keeps_the_venue_error (code : Z) (message : string) :
  let e := createOrderlyError code message in
  errCode e = code /\
  includes (errMessage e) message = true /\
  (forall info, lookupCode code ERROR_CODE_MAP = Some info ->
     infoCode info = code /\
     errMessage e = name info ++ ": " ++ message ++ ". " ++ description info /\
     errHttpStatus e = Some (httpStatus info)) /\
  (lookupCode code ERROR_CODE_MAP = None ->
     errMessage e = message /\ errHttpStatus e = None).
Proof.
  cbv zeta. unfold createOrderlyError.
  destruct (lookupCode code ERROR_CODE_MAP) as [info|] eqn:Hl; cbn [errCode errMessage errHttpStatus].
  - split_and!; try done.
    + apply includes_app_l, (includes_app_l ": "), includes_prefix.
    + intros info' [= <-]. split_and!; try reflexivity.
      apply lookupCode_Some in Hl.
      assert (Hall : Forall (fun entry : Z * ErrorCodeInfo => infoCode entry.2 = entry.1)
                       ERROR_CODE_MAP) by (repeat constructor).
      rewrite Forall_forall in Hall. exact (Hall _ Hl).
  - split_and!; try done.
    rewrite <- (includes_prefix message "") at 1. f_equal.
    clear. induction message as [|c m IH]; [reflexivity|].
    change (String c m ++ "") with (String c (m ++ "")). by rewrite <- IH.
Qed.

Section Requests.
Context {T : Type}.
Variable ed25519_sign : list Byte.byte -> list Byte.byte -> list Byte.byte.
Variable clock : Z -> Z * Z.
Variable transport : Z -> Sent -> Attempt T.
Variable self : Client.


End Requests.

End ClientFacts.

(** * Properties of the master key and of the key store *)

Module MasterKeyFacts.
Import Text Json Base64 Hex KeySpec Encryption MasterKey Base64Facts HexFacts.

Lemma bufferFromHex_short s :
  (length (bufferFromHex s) <= String.length s / 2)%nat.
Proof.
  induction s as [|a|a b rest IH] using string_ind2; try (cbn; lia).
  cbn [bufferFromHex String.length].
  replace (S (S (String.length rest))) with (String.length rest + 1 * 2)%nat by lia.
  rewrite Nat.div_add by lia.
  destruct (hexValue a), (hexValue b); cbn [length]; lia.
Qed.

(** On a text of even length, all pairs are read exactly when all
    characters are hexadecimal digits. *)
Lemma bufferFromHex_full s :
  Nat.even (String.length s) = true ->
  (length (bufferFromHex s) = String.length s / 2)%nat <-> allHex s = true.
Proof.
  induction s as [|a|a b rest IH] using string_ind2; intros Heven.
  - split; reflexivity.
  - discriminate.
  - cbn [bufferFromHex String.length allHex] in *.
    replace (S (S (String.length rest))) with (String.length rest + 1 * 2)%nat by lia.
    rewrite Nat.div_add by lia.
    change (Nat.even (S (S (String.length rest)))) with (Nat.even (String.length rest)) in Heven.
    specialize (IH Heven).
    destruct (hexValue a), (hexValue b); cbn [length].
    + rewrite <- IH. lia.
    + split; [lia|discriminate].
    + split; [lia|discriminate].
    + split; [lia|discriminate].
Qed.

(** The constructor of [EncryptionService] checks the length of the key
    text and nothing else.  A key that [generateMasterKey] wrote is taken
    and read back byte for byte.  Any text of 64 characters is taken; it
    gives a 32-byte key exactly when all of them are hexadecimal digits,
    and with a shorter key every [encrypt] and [decrypt] of the service
    throws. *)
Theorem master_key_must_be_hex :
  (forall random, length random = 32%nat ->
     newEncryptionService (Some (generateMasterKey random)) = Ok random) /\
  (forall text, String.length text = 64%nat ->
     exists key,
       newEncryptionService (Some text) = Ok key /\
       (length key = 32%nat <-> allHex text = true) /\
       (allHex text = false ->
          (forall seal iv plaintext,
             encrypt seal key iv plaintext = Throw "Encryption failed: Invalid key length") /\
          (forall open parse sealed,
             exists e, decrypt open parse key sealed = Throw e))).
Proof.
  assert (Hnew : forall text, String.length text = 64%nat ->
            newEncryptionService (Some text) = Ok (bufferFromHex text)).
  { intros text Hlen. unfold newEncryptionService.
    destruct text as [|c text]; [discriminate|].
    destruct (decide _); [reflexivity|contradiction]. }
  split.
  - intros random Hlen. unfold generateMasterKey.
    rewrite Hnew by (rewrite toHex_length; lia). by rewrite bufferFromHex_toHex.
  - intros text Hlen. exists (bufferFromHex text). split; [by apply Hnew|].
    assert (Hfull := bufferFromHex_full text). rewrite Hlen in Hfull.
    specialize (Hfull eq_refl). change (64 / 2)%nat with 32%nat in Hfull.
    split; [exact Hfull|]. intros Hbad.
    assert (Hkey : length (bufferFromHex text) <> 32%nat).
    { intros H. apply Hfull in H. congruence. }
    split.
    + intros seal iv plaintext. unfold encrypt, checkKey.
      destruct (decide _); [contradiction|reflexivity].
    + intros open parse sealed. unfold decrypt, decrypt_try, checkKey.
      destruct (parse sealed) as [data|]; [|eauto].
      destruct (property data "iv") as [ivField|]; [|eauto].
      destruct (bufferFrom ivField); [|eauto].
      destruct (property data "tag") as [tagField|]; [|eauto].
      destruct (bufferFrom tagField); [|eauto].
      destruct (decide _); [contradiction|eauto].
Qed.

End MasterKeyFacts.

Module KeyServiceFacts.
Import Text Json Base64 Hex Base58 Keypair KeySpec Encryption KeyService OrderlyAuth.
Import Base64Facts JsonFacts HexFacts StandIns StandInFacts KeyScenarios.

Section Contracts.
Variable aes256gcm_seal :
  list Byte.byte -> list Byte.byte -> list Byte.byte -> list Byte.byte * list Byte.byte.
Variable aes256gcm_open :
  list Byte.byte -> list Byte.byte -> list Byte.byte -> list Byte.byte ->
  option (list Byte.byte).
Variable JSON_parse : string -> option json.
Variable masterKey : list Byte.byte.

(** The cipher opens what it sealed under the same key and nonce. *)
Hypothesis gcm_correct : forall key iv plain,
  aes256gcm_open key iv (aes256gcm_seal key iv plain).1 (aes256gcm_seal key iv plain).2
  = Some plain.

(** [JSON.parse] reads back an envelope that [JSON.stringify] wrote. *)
Hypothesis parse_stringify : forall iv encrypted tag : list Byte.byte,
  JSON_parse (stringify (envelope (toBase64 iv) (toBase64 encrypted) (toBase64 tag)))
  = Some (envelope (toBase64 iv) (toBase64 encrypted) (toBase64 tag)).

Hypothesis masterKey_length : length masterKey = 32%nat.

(** What is sealed under the master key is opened again. *)
Lemma sealed_then_opened iv plaintext :
  exists sealed,
    encrypt aes256gcm_seal masterKey iv plaintext = Ok sealed /\
    decrypt aes256gcm_open JSON_parse masterKey sealed = Ok plaintext.
Proof.
  unfold encrypt, checkKey.
  destruct (decide (length masterKey = 32%nat)) as [_|]; [|contradiction].
  eexists. split; [reflexivity|].
  unfold decrypt, decrypt_try. rewrite parse_stringify.
  cbn [property envelope lookupField String.eqb Ascii.eqb Bool.eqb bufferFrom].
  unfold checkKey. destruct (decide (length masterKey = 32%nat)) as [_|]; [|contradiction].
  rewrite !fromBase64_toBase64, gcm_correct.
  by rewrite string_of_list_byte_of_string.
Qed.

(** A key generated for an account whose document exists is stored sealed
    and is handed out again, with the private key that was generated, up to
    and including its expiry [expirationDays] days after [now1]; after
    that, and after [deleteKeyForAccount], there is no key.  The signer
    built from what is handed out holds the generated private key bytes.
    No other account's entry changes. *)
Theorem stored_key_round_trip
    (privateKeyBytes publicKeyBytes iv : list Byte.byte) (now1 now2 : Z)
    (account scope : string) (expirationDays : Z) (store : KeyStore) :
  publicKeyBytes <> [] ->
  is_Some (store !! account) ->
  exists generated store',
    generateKeyForAccount aes256gcm_seal masterKey privateKeyBytes publicKeyBytes iv
      now1 now2 account scope expirationDays store = (Ok generated, store') /\
    privateKeyHex generated = toHex privateKeyBytes /\
    base58Encode publicKeyBytes = Ok (publicKeyBase58 generated) /\
    (forall now, now <= now1 + expirationDays * DAY_MS ->
       exists info,
         getKeyForAccount aes256gcm_open JSON_parse masterKey now account store'
           = Ok (Some info) /\
         infoPublicKey info = publicKeyBase58 generated /\
         infoPrivateKeyHex info = toHex privateKeyBytes /\
         infoScope info = scope /\
         infoExpiration info = now1 + expirationDays * DAY_MS /\
         privateKey (newOrderlyAuth (infoPrivateKeyHex info) (infoPublicKey info) account)
           = privateKeyBytes) /\
    (forall now, now1 + expirationDays * DAY_MS < now ->
       getKeyForAccount aes256gcm_open JSON_parse masterKey now account store' = Ok None /\
       hasValidKey aes256gcm_open JSON_parse masterKey now account store' = Ok false) /\
    (forall now,
       getKeyForAccount aes256gcm_open JSON_parse masterKey now account
         (deleteKeyForAccount account store').2 = Ok None) /\
    (forall other, other <> account -> store' !! other = store !! other).
Proof.
  intros Hpub [old Hold].
  destruct (base58Encode publicKeyBytes) as [encoded|e] eqn:Henc;
    [|destruct publicKeyBytes; [contradiction|discriminate]].
  destruct (sealed_then_opened iv (toHex privateKeyBytes)) as (sealed & Hseal & Hopen).
  unfold generateKeyForAccount, generateEd25519Keypair. rewrite Henc.
  cbn [privateKeyHex publicKeyBase58]. rewrite Hseal, Hold.
  eexists _, _. split; [reflexivity|]. cbn [privateKeyHex publicKeyBase58].
  assert (Hexp : now1 + expirationDays * 24 * 60 * 60 * 1000
                 = now1 + expirationDays * DAY_MS) by (unfold DAY_MS; lia).
  split_and!; try reflexivity.
  - intros now Hnow. unfold getKeyForAccount. rewrite lookup_insert_eq.
    cbn [expirationTimestamp encryptedPrivateKey storedPublicKey storedScope].
    destruct (Z.ltb_spec (now1 + expirationDays * 24 * 60 * 60 * 1000) now) as [Hlt|_];
      [lia|].
    rewrite Hopen. eexists. split; [reflexivity|].
    cbn [infoPublicKey infoPrivateKeyHex infoScope infoExpiration].
    split_and!; try reflexivity; try exact Hexp.
    unfold newOrderlyAuth. cbn [privateKey].
    unfold hexToBytes.
    rewrite stripHexPrefix_allHex by apply allHex_toHex.
    rewrite hexPairs_allHex by apply allHex_toHex. apply bufferFromHex_toHex.
  - intros now Hnow.
    assert (Hget : getKeyForAccount aes256gcm_open JSON_parse masterKey now account
                     (<[account := Some
                          {| storedPublicKey := encoded; encryptedPrivateKey := sealed;
                             storedScope := scope;
                             expirationTimestamp :=
                               now1 + expirationDays * 24 * 60 * 60 * 1000;
                             createdAt := now2 |}]> store) = Ok None).
    { unfold getKeyForAccount. rewrite lookup_insert_eq. cbn [expirationTimestamp].
      destruct (Z.ltb_spec (now1 + expirationDays * 24 * 60 * 60 * 1000) now) as [_|Hge];
        [reflexivity|lia]. }
    split; [exact Hget|]. unfold hasValidKey. rewrite Hget. reflexivity.
  - intros now. unfold deleteKeyForAccount. rewrite lookup_insert_eq. cbn [snd].
    unfold getKeyForAccount. rewrite lookup_insert_eq. reflexivity.
  - intros other Hne. rewrite lookup_insert_ne by congruence. reflexivity.
Qed.

End Contracts.

Section Store.
Variable aes256gcm_seal :
  list Byte.byte -> list Byte.byte -> list Byte.byte -> list Byte.byte * list Byte.byte.
Variable aes256gcm_open :
  list Byte.byte -> list Byte.byte -> list Byte.byte -> list Byte.byte ->
  option (list Byte.byte).
Variable JSON_parse : string -> option json.
Variable masterKey : list Byte.byte.

(** Without a user document under the account id no key is stored: the
    keypair is generated and sealed, the update fails, and the store is as
    it was.  [getKeyForAccount] then finds nothing. *)
Theorem no_key_without_document
    (privateKeyBytes publicKeyBytes iv : list Byte.byte) (now1 now2 : Z)
    (account scope : string) (expirationDays : Z) (store : KeyStore) :
  store !! account = None ->
  (exists e,
     generateKeyForAccount aes256gcm_seal masterKey privateKeyBytes publicKeyBytes iv
       now1 now2 account scope expirationDays store = (Throw e, store)) /\
  (forall now,
     getKeyForAccount aes256gcm_open JSON_parse masterKey now account store = Ok None) /\
  (exists e, deleteKeyForAccount account store = (Throw e, store)).
Proof.
  intros Hnone. split_and!.
  - unfold generateKeyForAccount.
    destruct (generateEd25519Keypair _ _); [|eauto].
    destruct (encrypt _ _ _ _); [|eauto]. rewrite Hnone. eauto.
  - intros now. unfold getKeyForAccount. by rewrite Hnone.
  - unfold deleteKeyForAccount. rewrite Hnone. eauto.
Qed.

(** What [getKeyExpiration] reports is never negative and counts whole
    days.  The key it reports on had not expired at the first reading of
    the clock, so it is reported as expired only if the clock passed the
    expiry between the two readings, and then with no days remaining. *)
Theorem key_expiration_report (now1 now2 : Z) (account : string) (store : KeyStore)
    (report : KeyExpiration) :
  getKeyExpiration aes256gcm_open JSON_parse masterKey now1 now2 account store
    = Ok (Some report) ->
  0 <= daysRemaining report /\
  now1 <= expiresAt report /\
  (exists stored, store !! account = Some (Some stored) /\
                  expiresAt report = expirationTimestamp stored) /\
  (isExpired report = true <-> expiresAt report < now2) /\
  (isExpired report = true -> now1 < now2 /\ daysRemaining report = 0) /\
  (isExpired report = false ->
     daysRemaining report * DAY_MS <= expiresAt report - now2
       < (daysRemaining report + 1) * DAY_MS).
Proof.
  clear aes256gcm_seal.
  unfold getKeyExpiration, getKeyForAccount.
  destruct (store !! account) as [[stored|]|] eqn:Hs; try discriminate.
  destruct (Z.ltb_spec (expirationTimestamp stored) now1) as [|Hlive]; [discriminate|].
  destruct (decrypt _ _ _ _) as [hex|]; [|discriminate].
  intros [= <-]. cbn [daysRemaining expiresAt isExpired infoExpiration].
  unfold DAY_MS. change (24 * 60 * 60 * 1000) with 86400000.
  split_and!.
  - lia.
  - exact Hlive.
  - eauto.
  - apply Z.ltb_lt.
  - intros Hx%Z.ltb_lt. split; [lia|].
    apply Z.max_l. Z.div_mod_to_equations; lia.
  - intros Hx%Z.ltb_ge.
    rewrite Z.max_r by (Z.div_mod_to_equations; lia).
    Z.div_mod_to_equations; lia.
Qed.

End Store.

Lemma stored_key_round_trip_witness :
  ([Byte.x01] : list Byte.byte) <> [] /\
  is_Some (({[ "0xacc" := None ]} : KeyStore) !! "0xacc") /\
  exists generated store',
    generateKeyForAccount mirrorSeal key32 [Byte.xab; Byte.xcd] [Byte.x01] nonce12
      1000 1001 "0xacc" "trading" 365 {[ "0xacc" := None ]} = (Ok generated, store') /\
    privateKeyHex generated = toHex [Byte.xab; Byte.xcd] /\
    base58Encode [Byte.x01] = Ok (publicKeyBase58 generated).
Proof.
  assert (Hpub : ([Byte.x01] : list Byte.byte) <> []) by discriminate.
  assert (Hdoc : is_Some (({[ "0xacc" := None ]} : KeyStore) !! "0xacc"))
    by (rewrite lookup_singleton_eq; eauto).
  split; [exact Hpub|]. split; [exact Hdoc|].
  destruct (stored_key_round_trip mirrorSeal mirrorOpen readEnvelope key32
              mirror_correct readEnvelope_stringify eq_refl
              [Byte.xab; Byte.xcd] [Byte.x01] nonce12 1000 1001 "0xacc" "trading" 365
              {[ "0xacc" := None ]} Hpub Hdoc)
    as (generated & store' & Hgen & Hhex & Hb58 & _).
  exists generated, store'. split_and!; assumption.
Defined.

Lemma no_key_without_document_witness :
  (∅ : KeyStore) !! "0xacc" = None /\
  exists e,
    generateKeyForAccount mirrorSeal key32 [Byte.xab] [Byte.x01] nonce12
      1000 1001 "0xacc" "trading" 365 ∅ = (Throw e, ∅).
Proof.
  split; [reflexivity|].
  exact (proj1 (no_key_without_document mirrorSeal mirrorOpen readEnvelope key32
                  [Byte.xab] [Byte.x01] nonce12 1000 1001 "0xacc" "trading" 365 ∅
                  eq_refl)).
Defined.

Lemma key_expiration_report_witness :
  exists report,
    getKeyExpiration mirrorOpen readEnvelope key32 2000 3000 "0xacc" keyStore0
      = Ok (Some report) /\
    0 <= daysRemaining report /\ 2000 <= expiresAt report.
Proof.
  assert (H : getKeyExpiration mirrorOpen readEnvelope key32 2000 3000 "0xacc" keyStore0
              = Ok (Some {| isExpired := false; expiresAt := 31536001000;
                            daysRemaining := 364 |}))
    by (vm_compute; reflexivity).
  eexists. split; [exact H|].
  destruct (key_expiration_report mirrorOpen readEnvelope key32 2000 3000 "0xacc"
              keyStore0 _ H) as (H1 & H2 & _).
  split; assumption.
Defined.

End KeyServiceFacts.

(** * Properties of the one-time key export *)

Module KeyExportFacts.
Import Text KeyExports.

Lemma toMillis_now ms : toMillis (Timestamp_now ms) = ms.
Proof.
  unfold toMillis, Timestamp_now. cbn [seconds nanoseconds].
  rewrite Z.div_mul by lia. Z.div_mod_to_equations; lia.
Qed.

(** When the route answers, the store has lost the document or is as it
    was. *)
Lemma getExport_store firestore clock path store :
  (getExport firestore clock path store).2 = store \/
  (getExport firestore clock path store).2 = delete path store.
Proof.
  unfold getExport, getKeyExport, deleteKeyExport.
  destruct (firestore (OpGet path)); [|by left].
  destruct (store !! path) as [doc|]; [|by left].
  destruct (Z.ltb _ clock).
  - destruct (firestore (OpDelete path)); [by right|by left].
  - destruct (accessed doc), (firestore (OpDelete path)); cbn; auto.
Qed.

(** Requests that are handled one after the other are handed a private
    key at most once.  When the route serves a key, the document held it
    unread and unexpired, and it is deleted before the answer is sent:
    from the store that is left, no request under the same path is served
    a key, whatever fails or whatever the clock says.  (A request that
    reads before this one has deleted is another matter:
    [overlappingRequests].) *)
Theorem export_is_served_once
    (firestore : ExportOp -> Result unit) (clock : Z) (path key : string)
    (store store' : ExportStore) :
  getExport firestore clock path store = (Served key, store') ->
  (exists doc, store !! path = Some doc /\ privateKey doc = key /\
               accessed doc = false /\ clock <= toMillis (expiresAt doc)) /\
  store' = delete path store /\
  (forall firestore2 clock2 key2,
     (getExport firestore2 clock2 path store').1 <> Served key2) /\
  (forall firestore2 clock2, firestore2 (OpGet path) = Ok tt ->
     getExport firestore2 clock2 path store' = (NotFound, store')).
Proof.
  unfold getExport at 1. unfold getKeyExport, deleteKeyExport.
  destruct (firestore (OpGet path)); [|discriminate].
  destruct (store !! path) as [doc|] eqn:Hdoc; [|discriminate].
  destruct (Z.ltb_spec (toMillis (expiresAt doc)) clock) as [|Hlive].
  { destruct (firestore (OpDelete path)); discriminate. }
  destruct (accessed doc) eqn:Hacc.
  { destruct (firestore (OpDelete path)); discriminate. }
  destruct (firestore (OpDelete path)); [|discriminate].
  intros [= <- <-].
  assert (Hgone : forall firestore2 clock2, firestore2 (OpGet path) = Ok tt ->
            getExport firestore2 clock2 path (delete path store)
            = (NotFound, delete path store)).
  { intros f2 c2 Hget. unfold getExport, getKeyExport.
    rewrite Hget, lookup_delete_eq. reflexivity. }
  split_and!; [eauto|reflexivity| |exact Hgone].
  intros f2 c2 key2. unfold getExport, getKeyExport.
  destruct (f2 (OpGet path)) as [[]|]; [|discriminate].
  rewrite lookup_delete_eq. discriminate.
Qed.

(** A key export lives for its time to live and no longer.  The document
    that [createKeyExport] writes expires [ttlSeconds] seconds after the
    clock reading it was written at; up to that moment a request, when
    nothing fails, is served the key that was written; after it a request
    is never served a key, and the first one whose round trips go through
    deletes the document. *)
Theorem export_expires
    (firestore : ExportOp -> Result unit) (written : Z) (path key : string)
    (ttlSeconds : Z) (store store1 : ExportStore) :
  createKeyExport firestore written path key ttlSeconds store = (Ok tt, store1) ->
  (exists doc, store1 !! path = Some doc /\ privateKey doc = key /\
               accessed doc = false /\
               toMillis (expiresAt doc) = written + ttlSeconds * 1000) /\
  (forall firestore2 clock,
     clock <= written + ttlSeconds * 1000 ->
     (forall op, firestore2 op = Ok tt) ->
     getExport firestore2 clock path store1 = (Served key, delete path store1)) /\
  (forall firestore2 clock key2,
     written + ttlSeconds * 1000 < clock ->
     (getExport firestore2 clock path store1).1 <> Served key2) /\
  (forall firestore2 clock,
     written + ttlSeconds * 1000 < clock ->
     (forall op, firestore2 op = Ok tt) ->
     getExport firestore2 clock path store1 = (NotFound, delete path store1)).
Proof.
  unfold createKeyExport. destruct (firestore (OpSet path)) as [[]|]; [|discriminate].
  remember {| privateKey := key; createdAt := Timestamp_now written;
              expiresAt := {| seconds := seconds (Timestamp_now written) + ttlSeconds;
                              nanoseconds := nanoseconds (Timestamp_now written) |};
              accessed := false |} as doc eqn:Hdoc.
  intros Hstore. assert (store1 = <[path := doc]> store) as -> by congruence.
  clear Hstore.
  assert (Hexp : toMillis (expiresAt doc) = written + ttlSeconds * 1000).
  { pose proof (toMillis_now written) as Hnow. rewrite Hdoc. unfold toMillis in *.
    cbn [expiresAt seconds nanoseconds] in *. lia. }
  assert (Hkey : privateKey doc = key) by (by rewrite Hdoc).
  assert (Hacc : accessed doc = false) by (by rewrite Hdoc).
  clear Hdoc.
  split_and!.
  - exists doc. rewrite lookup_insert_eq. split_and!; try reflexivity; assumption.
  - intros f2 clock Hlive Hup. unfold getExport, getKeyExport, deleteKeyExport.
    rewrite !Hup, lookup_insert_eq. cbv beta iota. rewrite Hexp.
    destruct (Z.ltb_spec (written + ttlSeconds * 1000) clock); [lia|].
    by rewrite Hacc, Hkey.
  - intros f2 clock key2 Hdead. unfold getExport, getKeyExport, deleteKeyExport.
    destruct (f2 (OpGet path)) as [[]|]; [|discriminate].
    rewrite lookup_insert_eq. cbv beta iota. rewrite Hexp.
    destruct (Z.ltb_spec (written + ttlSeconds * 1000) clock); [|lia].
    destruct (f2 (OpDelete path)); discriminate.
  - intros f2 clock Hdead Hup. unfold getExport, getKeyExport, deleteKeyExport.
    rewrite !Hup, lookup_insert_eq. cbv beta iota. rewrite Hexp.
    destruct (Z.ltb_spec (written + ttlSeconds * 1000) clock); [reflexivity|lia].
Qed.

Lemma export_is_served_once_witness :
  getExport (fun _ => Ok tt) 31000 "path-1"
    {[ "path-1" := {| privateKey := "0xkey"; createdAt := Timestamp_now 1000;
                      expiresAt := Timestamp_now 31000; accessed := false |} ]}
  = (Served "0xkey", delete "path-1" {[ "path-1" :=
        {| privateKey := "0xkey"; createdAt := Timestamp_now 1000;
           expiresAt := Timestamp_now 31000; accessed := false |} ]}) /\
  forall firestore2 clock2 key2,
    (getExport firestore2 clock2 "path-1"
       (delete "path-1" {[ "path-1" :=
          {| privateKey := "0xkey"; createdAt := Timestamp_now 1000;
             expiresAt := Timestamp_now 31000; accessed := false |} ]})).1
    <> Served key2.
Proof.
  assert (H : getExport (fun _ => Ok tt) 31000 "path-1"
                {[ "path-1" := {| privateKey := "0xkey"; createdAt := Timestamp_now 1000;
                                  expiresAt := Timestamp_now 31000; accessed := false |} ]}
              = (Served "0xkey", delete "path-1" {[ "path-1" :=
                   {| privateKey := "0xkey"; createdAt := Timestamp_now 1000;
                      expiresAt := Timestamp_now 31000; accessed := false |} ]})).
  { unfold getExport, getKeyExport, deleteKeyExport.
    rewrite lookup_singleton_eq. reflexivity. }
  split; [exact H|].
  exact (proj1 (proj2 (proj2 (export_is_served_once _ _ _ _ _ _ H)))).
Defined.

Lemma export_expires_witness :
  createKeyExport (fun _ => Ok tt) 1000 "path-1" "0xkey" 30 ∅
  = (Ok tt, {[ "path-1" := {| privateKey := "0xkey"; createdAt := Timestamp_now 1000;
                              expiresAt := {| seconds := 31; nanoseconds := 0 |};
                              accessed := false |} ]}) /\
  exists doc,
    ({[ "path-1" := {| privateKey := "0xkey"; createdAt := Timestamp_now 1000;
                       expiresAt := {| seconds := 31; nanoseconds := 0 |};
                       accessed := false |} ]} : ExportStore) !! "path-1" = Some doc /\
    privateKey doc = "0xkey" /\ accessed doc = false /\
    toMillis (expiresAt doc) = 1000 + 30 * 1000.
Proof.
  assert (H : createKeyExport (fun _ => Ok tt) 1000 "path-1" "0xkey" 30 ∅
              = (Ok tt, {[ "path-1" :=
                   {| privateKey := "0xkey"; createdAt := Timestamp_now 1000;
                      expiresAt := {| seconds := 31; nanoseconds := 0 |};
                      accessed := false |} ]})) by reflexivity.
  split; [exact H|].
  exact (proj1 (export_expires _ _ _ _ _ _ _ H)).
Defined.

End KeyExportFacts.

(** * Properties of the verification of a deposit transaction *)

Module ChainVerifyFacts.
Import Text Chain ChainVerify VerifyScenarios.

Lemma find_split {A} (f : A -> bool) l x :
  find f l = Some x ->
  exists before after,
    l = (before ++ x :: after)%list /\
    Forall (fun y => f y = false) before /\ f x = true.
Proof.
  induction l as [|y l IH]; [discriminate|].
  cbn [find]. destruct (f y) eqn:Hy.
  - intros [= ->]. exists [], l. split_and!; [reflexivity|constructor|assumption].
  - intros H. destruct (IH H) as (before & after & -> & Hb & Hx).
    exists (y :: before), after. split_and!; [reflexivity|by constructor|assumption].
Qed.

Lemma find_first {A} (f : A -> bool) before x after :
  Forall (fun y => f y = false) before -> f x = true ->
  find f (before ++ x :: after)%list = Some x.
Proof.
  intros Hb Hx. induction Hb as [|y before Hy _ IH]; cbn [find app].
  - by rewrite Hx.
  - by rewrite Hy.
Qed.

(** What [verifyUSDCDeposit] vouches for.  A result other than [null]
    says that the receipt exists and that the first Transfer log of the
    token contract in it pays the expected address (compared without
    case); the amount, the sender and the confirmations are those of that
    log and receipt, and the amount is not below a minimum that was
    given. *)
Theorem verified_deposit_is_first_transfer
    (rpc : Rpc) (logsOf : string -> option (list ReceiptLog)) (usdcAddress : string)
    (h expectedTo : string) (minAmount : option Q) (v : Verified) :
  verifyUSDCDeposit rpc logsOf usdcAddress h expectedTo minAmount = Some v ->
  valid v = true /\
  exists receipt before ev after recipient value dec cur,
    getTransactionReceipt rpc h = Ok (Some receipt) /\
    logsOf h = Some (before ++ ev :: after)%list /\
    Forall (fun log => isUsdcTransfer usdcAddress log = false) before /\
    isUsdcTransfer usdcAddress ev = true /\
    parsed ev = Ok (verifiedFrom v, recipient, value) /\
    toLowerCase recipient = toLowerCase expectedTo /\
    decimals rpc = Ok dec /\
    verifiedAmount v = formatUnits value dec /\
    belowMinimum minAmount (verifiedAmount v) = false /\
    getBlockNumber rpc = Ok cur /\
    verifiedBlock v = receiptBlockNumber receipt /\
    verifiedConfirmations v = cur - receiptBlockNumber receipt.
Proof.
  unfold verifyUSDCDeposit, verifyUSDCDeposit_try, getTransaction, getCurrentBlock.
  destruct (getTransactionReceipt rpc h) as [[receipt|]|] eqn:Hr; try discriminate.
  destruct (logsOf h) as [logs|] eqn:Hl; [|discriminate].
  destruct (find (isUsdcTransfer usdcAddress) logs) as [ev|] eqn:Hf; [|discriminate].
  destruct (parsed ev) as [[[sender recipient] value]|] eqn:Hp; [|discriminate].
  destruct (String.eqb_spec (toLowerCase recipient) (toLowerCase expectedTo)) as [Hto|];
    [|discriminate].
  cbn [negb].
  destruct (decimals rpc) as [dec|] eqn:Hd; [|discriminate].
  destruct (belowMinimum minAmount (formatUnits value dec)) eqn:Hm; [discriminate|].
  destruct (getBlockNumber rpc) as [cur|] eqn:Hc; [|discriminate].
  intros [= <-]. split; [reflexivity|].
  destruct (find_split _ _ _ Hf) as (before & after & -> & Hb & Hx).
  exists receipt, before, ev, after, recipient, value, dec, cur.
  cbn [verifiedFrom verifiedAmount verifiedBlock verifiedConfirmations].
  split_and!; try reflexivity; assumption.
Qed.

(** Only the first Transfer log of the token contract is looked at.  When
    it pays another address, the transaction is rejected, whatever the
    later logs of the receipt say: a later transfer to the expected address
    does not count. *)
Theorem later_transfers_are_ignored
    (rpc : Rpc) (logsOf : string -> option (list ReceiptLog)) (usdcAddress : string)
    (h expectedTo : string) (minAmount : option Q)
    (before after : list ReceiptLog) (ev : ReceiptLog)
    (sender recipient : string) (value : Z) :
  logsOf h = Some (before ++ ev :: after)%list ->
  Forall (fun log => isUsdcTransfer usdcAddress log = false) before ->
  isUsdcTransfer usdcAddress ev = true ->
  parsed ev = Ok (sender, recipient, value) ->
  toLowerCase recipient <> toLowerCase expectedTo ->
  verifyUSDCDeposit rpc logsOf usdcAddress h expectedTo minAmount = None.
Proof.
  intros Hl Hb Hx Hp Hto.
  unfold verifyUSDCDeposit, verifyUSDCDeposit_try.
  destruct (getTransaction rpc h); [|reflexivity].
  rewrite Hl, (find_first _ _ _ _ Hb Hx), Hp.
  destruct (String.eqb_spec (toLowerCase recipient) (toLowerCase expectedTo));
    [contradiction|reflexivity].
Qed.

Lemma verified_deposit_is_first_transfer_witness :
  verifyUSDCDeposit minedRpc (fun _ => Some [transferTo platform 25000000]) usdc
    "0xabc" "0xPLATFORM" (Some 10%Q)
  = Some {| valid := true; verifiedAmount := formatUnits 25000000 6;
            verifiedFrom := "0xSender"; verifiedBlock := 100;
            verifiedConfirmations := 20 |} /\
  valid {| valid := true; verifiedAmount := formatUnits 25000000 6;
           verifiedFrom := "0xSender"; verifiedBlock := 100;
           verifiedConfirmations := 20 |} = true.
Proof.
  assert (H : verifyUSDCDeposit minedRpc (fun _ => Some [transferTo platform 25000000])
                usdc "0xabc" "0xPLATFORM" (Some 10%Q)
              = Some {| valid := true; verifiedAmount := formatUnits 25000000 6;
                        verifiedFrom := "0xSender"; verifiedBlock := 100;
                        verifiedConfirmations := 20 |})
    by (vm_compute; reflexivity).
  split; [exact H|].
  exact (proj1 (verified_deposit_is_first_transfer _ _ _ _ _ _ _ H)).
Defined.

Lemma later_transfers_are_ignored_witness :
  verifyUSDCDeposit minedRpc
    (fun _ => Some [transferTo "0xSomeoneElse" 1; transferTo platform 25000000])
    usdc "0xabc" platform None
  = None.
Proof.
  apply (later_transfers_are_ignored minedRpc _ usdc "0xabc" platform None
           [] [transferTo platform 25000000] (transferTo "0xSomeoneElse" 1)
           "0xSender" "0xSomeoneElse" 1).
  - reflexivity.
  - constructor.
  - vm_compute. reflexivity.
  - reflexivity.
  - vm_compute. discriminate.
Defined.

End ChainVerifyFacts.

(** * Properties of the typed-data messages *)

Module OrderlyWalletFacts.
Import Text Base64 Eip712 Base58 KeySpec OrderlyWallet WalletSpec.
Import Base64Facts Base58Facts JsonFacts.

(** Every typed-data message of the wallet has exactly the members of the
    schema it is signed under, in the schema's order, under the domain
    [Orderly], version 1, of the given chain.  Registration and key
    addition are verified off chain; withdrawal and settlement name the
    ledger contract they are given. *)
Theorem typed_messages_conform
    (now chain nonce days : Z) (brokerId key scope receiver token amount ledger : string) :
  let registration := signRegistration now brokerId chain key in
  let addKey := signAddOrderlyKey now brokerId chain key scope days in
  let withdraw := signWithdraw now brokerId chain receiver token amount nonce ledger in
  let settle := signSettlePnl now brokerId chain nonce ledger in
  Forall conforms [registration; addKey; withdraw; settle] /\
  Forall (fun t => name (domain t) = "Orderly" /\ version (domain t) = "1" /\
                   chainId (domain t) = chain)
         [registration; addKey; withdraw; settle] /\
  verifyingContract (domain registration) = OFF_CHAIN_VERIFYING_CONTRACT /\
  verifyingContract (domain addKey) = OFF_CHAIN_VERIFYING_CONTRACT /\
  verifyingContract (domain withdraw) = ledger /\
  verifyingContract (domain settle) = ledger /\
  (forall m, conforms (signRegistrationMessage m)).
Proof.
  cbv zeta. split_and!; try reflexivity.
  - repeat constructor; eexists _, _; split; reflexivity.
  - repeat constructor.
  - intros m. eexists _, _. split; reflexivity.
Qed.

(** ** The key name in the AddOrderlyKey message *)

Lemma prefix_app p s : String.prefix p (p ++ s) = true.
Proof.
  induction p as [|c p IH]; [by destruct s|].
  change (String c p ++ s) with (String c (p ++ s)).
  cbn [String.prefix]. destruct (ascii_dec c c); [exact IH|contradiction].
Qed.

Lemma prefix_chars p s : String.prefix p s = true -> forall c, c ∈ chars p -> c ∈ chars s.
Proof.
  revert s. induction p as [|x p IH]; intros s Hp c Hc.
  - by apply elem_of_nil in Hc.
  - destruct s as [|y s]; [discriminate|]. cbn [String.prefix] in Hp.
    destruct (ascii_dec x y) as [->|]; [|discriminate].
    cbn [chars] in *. apply elem_of_cons in Hc as [->|Hc]; [left|right; eauto].
Qed.

Lemma chars_app s t : chars (s ++ t) = (chars s ++ chars t)%list.
Proof.
  induction s as [|c s IH]; [reflexivity|].
  change (String c s ++ t) with (String c (s ++ t)). cbn [chars app]. by rewrite IH.
Qed.

Lemma digit_in_alphabet n : 0 <= n < 58 -> digit ALPHABET n ∈ chars ALPHABET.
Proof.
  revert n.
  assert (H : forallb (fun n => bool_decide (digit ALPHABET n ∈ chars ALPHABET))
                (seqZ 0 58) = true) by (vm_compute; reflexivity).
  intros n Hn. rewrite forallb_forall in H.
  specialize (H n). rewrite bool_decide_eq_true in H. apply H.
  apply list_elem_of_In, elem_of_seqZ. lia.
Qed.

Lemma digitsLoop_chars fuel num acc c :
  c ∈ chars (digitsLoop fuel num acc) -> c ∈ chars ALPHABET \/ c ∈ chars acc.
Proof.
  revert num acc. induction fuel as [|fuel IH]; intros num acc Hc; [by right|].
  cbn [digitsLoop] in Hc. destruct (Z.ltb 0 num); [|by right].
  apply IH in Hc as [Hc|Hc]; [by left|]. cbn [chars] in Hc.
  apply elem_of_cons in Hc as [->|Hc]; [|by right].
  left. apply digit_in_alphabet. Z.div_mod_to_equations; lia.
Qed.

Lemma repeated_chars k s c :
  c ∈ chars (repeated "1" k s) -> c = "1"%char \/ c ∈ chars s.
Proof.
  induction k as [|k IH]; [by right|]. cbn [repeated chars].
  intros [->|Hc]%elem_of_cons; [by left|auto].
Qed.

(** A Base58 text is written in the alphabet. *)
Lemma base58_chars bytes s c :
  base58Encode bytes = Ok s -> c ∈ chars s -> c ∈ chars ALPHABET.
Proof.
  intros ->%base58Encode_Ok Hc.
  apply repeated_chars in Hc as [->|Hc].
  - apply (digit_in_alphabet 0). lia.
  - apply digitsLoop_chars in Hc as [Hc|Hc]; [exact Hc|]. by apply elem_of_nil in Hc.
Qed.

(** The key name that is signed carries the prefix [ed25519:] exactly
    once: a name that has it is left alone, so formatting twice changes
    nothing, and a Base58 public key, which cannot begin with it, gets it
    put in front.  The key expires [expirationDays] days after the
    timestamp of the message. *)
Theorem add_key_message_names_the_key
    (now chain days : Z) (brokerId orderlyKey scope : string) :
  let t := signAddOrderlyKey now brokerId chain orderlyKey scope days in
  String.prefix "ed25519:" (formattedKey orderlyKey) = true /\
  formattedKey (formattedKey orderlyKey) = formattedKey orderlyKey /\
  (forall bytes, base58Encode bytes = Ok orderlyKey ->
     formattedKey orderlyKey = "ed25519:" ++ orderlyKey) /\
  message t
  = [ ("brokerId", VString brokerId); ("chainId", VNumber chain);
      ("orderlyKey", VString (formattedKey orderlyKey));
      ("scope", VString scope); ("timestamp", VNumber now);
      ("expiration", VNumber (now + days * 86400000)) ] /\
  message (addOrderlyKeyToAccount now brokerId chain orderlyKey None)
  = message (signAddOrderlyKey now brokerId chain orderlyKey "trading" 365).
Proof.
  cbv zeta.
  assert (Hfmt : String.prefix "ed25519:" (formattedKey orderlyKey) = true).
  { unfold formattedKey.
    destruct (String.prefix "ed25519:" orderlyKey) eqn:Hp; [exact Hp|apply prefix_app]. }
  split_and!.
  - exact Hfmt.
  - unfold formattedKey at 1. by rewrite Hfmt.
  - intros bytes Henc. unfold formattedKey.
    destruct (String.prefix "ed25519:" orderlyKey) eqn:Hp; [|reflexivity].
    exfalso.
    assert (Hcolon : ":"%char ∈ chars orderlyKey).
    { apply (prefix_chars _ _ Hp).
      assert (H : bool_decide (":"%char ∈ chars "ed25519:") = true)
        by (vm_compute; reflexivity).
      by apply bool_decide_eq_true in H. }
    apply (base58_chars _ _ _ Henc) in Hcolon.
    assert (H : bool_decide (":"%char ∈ chars ALPHABET) = false)
      by (vm_compute; reflexivity).
    by apply bool_decide_eq_false in H.
  - unfold signAddOrderlyKey. cbn [message].
    replace (now + days * 24 * 60 * 60 * 1000) with (now + days * 86400000) by lia.
    reflexivity.
  - reflexivity.
Qed.

End OrderlyWalletFacts.

(** * Properties of the legacy signer *)

Module WalletServiceFacts.
Import Text Json Base64 Hex KeySpec WalletService TradingSpec.
Import Base64Facts JsonFacts HexFacts.

(** ** Decimal numerals *)

Lemma string_of_revapp d acc :
  NilEmpty.string_of_uint (Decimal.revapp d acc)
  = NilEmpty.string_of_uint (Decimal.rev d) ++ NilEmpty.string_of_uint acc.
Proof.
  unfold Decimal.rev. revert acc.
  induction d as [|d IH|d IH|d IH|d IH|d IH|d IH|d IH|d IH|d IH|d IH]; intros acc;
    [reflexivity|..];
    cbn [Decimal.revapp]; rewrite IH; symmetry; rewrite IH;
    rewrite append_assoc; reflexivity.
Qed.

Lemma showZ_pos p : showZ (Zpos p) = NilEmpty.string_of_uint (Pos.to_uint p).
Proof.
  unfold showZ. cbn [Z.to_int NilZero.string_of_int]. unfold NilZero.string_of_uint.
  pose proof (DecimalPos.Unsigned.to_uint_nonnil p) as Hn.
  destruct (Pos.to_uint p); [contradiction|reflexivity..].
Qed.

(** Ten times a positive number is written with one more zero. *)
Lemma showZ_tenfold n : 0 < n -> showZ (10 * n) = showZ n ++ "0".
Proof.
  destruct n as [|p|p]; try lia. intros _.
  change (10 * Z.pos p) with (Z.pos (10 * p)). rewrite !showZ_pos.
  unfold Pos.to_uint.
  change (Pos.to_little_uint (10 * p))
    with (DecimalPos.Unsigned.to_lu (10 * N.pos p)).
  rewrite DecimalPos.Unsigned.to_ldec_tenfold.
  change (DecimalPos.Unsigned.to_lu (N.pos p)) with (Pos.to_little_uint p).
  unfold Decimal.rev at 1. cbn [Decimal.revapp].
  rewrite string_of_revapp. reflexivity.
Qed.

Lemma allDigits_uint d : allDigits (NilEmpty.string_of_uint d) = true.
Proof. induction d; cbn; auto. Qed.

Lemma allDigits_showZ n : 0 < n -> allDigits (showZ n) = true.
Proof.
  destruct n as [|p|p]; try lia. intros _. rewrite showZ_pos. apply allDigits_uint.
Qed.

(** ** The replacement *)

Lemma allZeros_snoc s : allZeros (s ++ "0") = allZeros s.
Proof.
  induction s as [|c s IH]; [reflexivity|].
  change (String c s ++ "0") with (String c (s ++ "0")). cbn [allZeros]. by rewrite IH.
Qed.

Lemma digit_not_dot c :
  ((48 <=? nat_of_ascii c) && (nat_of_ascii c <=? 57))%nat = true ->
  Ascii.eqb c "." = false.
Proof.
  intros H. apply Ascii.eqb_neq. intros ->. discriminate.
Qed.

Lemma stripZeros_snoc s : allDigits s = true -> stripZeros (s ++ "0") = stripZeros s.
Proof.
  induction s as [|c s IH]; intros Hs; [reflexivity|].
  cbn [allDigits] in Hs. apply andb_true_iff in Hs as [Hc Hs].
  change (String c s ++ "0") with (String c (s ++ "0")).
  cbn [stripZeros zerosToTheEnd]. rewrite (digit_not_dot _ Hc), allZeros_snoc.
  destruct (Ascii.eqb c "0" && allZeros s); [reflexivity|].
  by rewrite (IH Hs).
Qed.

(** The normalisation takes the zeros off the end of every number, those
    of an integer too: a positive integer and ten times that integer, both
    within the safe range, are normalised to the same text, the parameters
    that differ in nothing else give the same query string, and so the same
    trading signature is made for both.  Zero is normalised to the empty
    text. *)
Theorem trailing_zeros_are_signed_away
    (sortByKey : list (string * string) -> list (string * string))
    (signDigest : string -> string -> string)
    (n : Z) (key tradingPrivateKey : string)
    (before after : list (string * OrderValue)) :
  0 < n -> 10 * n <= MAX_SAFE_INTEGER ->
  let order q := (before ++ (key, VInt q) :: after)%list in
  normalizeValue (VInt (10 * n)) = normalizeValue (VInt n) /\
  normalizeOrderParams (order (10 * n)) = normalizeOrderParams (order n) /\
  queryString sortByKey (order (10 * n)) = queryString sortByKey (order n) /\
  signTradingOrder sortByKey signDigest tradingPrivateKey (order (10 * n))
  = signTradingOrder sortByKey signDigest tradingPrivateKey (order n) /\
  normalizeValue (VInt 0) = "".
Proof.
  intros Hpos _. cbv zeta.
  assert (Hv : normalizeValue (VInt (10 * n)) = normalizeValue (VInt n)).
  { cbn [normalizeValue]. rewrite showZ_tenfold by assumption.
    apply stripZeros_snoc, allDigits_showZ. assumption. }
  assert (Hp : normalizeOrderParams (before ++ (key, VInt (10 * n)) :: after)
               = normalizeOrderParams (before ++ (key, VInt n) :: after)).
  { unfold normalizeOrderParams. rewrite !map_app. cbn [map fst snd]. by rewrite Hv. }
  split_and!; [exact Hv|exact Hp| | |reflexivity].
  - unfold queryString. by rewrite Hp.
  - unfold signTradingOrder, queryString. by rewrite Hp.
Qed.

Lemma trailing_zeros_are_signed_away_witness :
  0 < 15 /\ 10 * 15 <= MAX_SAFE_INTEGER /\
  normalizeValue (VInt (10 * 15)) = normalizeValue (VInt 15) /\
  normalizeValue (VInt 15) = "15".
Proof.
  split; [lia|]. split; [unfold MAX_SAFE_INTEGER; lia|].
  split; [|reflexivity].
  exact (proj1 (trailing_zeros_are_signed_away (fun l => l) (fun _ text => text)
                  15 "order_quantity" "key"
                  [("symbol", VText "PERP_ETH_USDC")] [] ltac:(lia)
                  ltac:(unfold MAX_SAFE_INTEGER; lia))).
Defined.

End WalletServiceFacts.

Module OrderlyServiceFacts.
Import Text Json Base64 Hex KeySpec Keypair OrderlyAuth WalletService OrderlyService.
Import Base64Facts JsonFacts HexFacts AuthFacts TextSpec ClientSpec ClientScenarios.

(** The service that assembles its signed messages by hand signs what the
    request signer signs.  Under a private key given as hexadecimal
    digits, the message, the signature and the timestamp header of its
    calls are the canonical string, the signature header and the timestamp
    header that [generateAuthHeaders] makes for the same method, path and
    body at the same clock reading. *)
Theorem legacy_service_signs_canonically
    (ed25519_sign : list Byte.byte -> list Byte.byte -> list Byte.byte)
    (privateKeyHex publicKey account : string) (clock1 clock2 : Z)
    (m : Method) (p : string) (requestBody : option json)
    (headers : OrderlyAuthHeaders) :
  allHex privateKeyHex = true ->
  generateAuthHeaders ed25519_sign (newOrderlyAuth privateKeyHex publicKey account)
    clock1 clock2 m p requestBody None = Ok headers ->
  let call := signedCall ed25519_sign privateKeyHex clock1
                (canonicalOf clock1 m p requestBody) in
  orderlySignature headers = callSignature call /\
  orderlyTimestamp headers = callTimestamp call /\
  authMessage (getBalance ed25519_sign privateKeyHex clock1)
  = canonicalOf clock1 GET "/v1/client/holding" None /\
  authMessage (getPositions ed25519_sign privateKeyHex clock1)
  = canonicalOf clock1 GET "/v1/positions" None /\
  (forall to amount,
     authMessage (creditAccountBalance ed25519_sign privateKeyHex clock1 to amount)
     = canonicalOf clock1 POST "/v1/broker/credit" (Some (creditBody to amount))) /\
  (forall fields,
     authMessage (placeOrder ed25519_sign privateKeyHex clock1 (JObject fields))
     = canonicalOf clock1 POST "/v1/order" (Some (JObject fields))).
Proof.
  intros Hhex Hgen. cbv zeta.
  unfold generateAuthHeaders in Hgen.
  destruct (validateTimestamp clock2 clock1); [|discriminate].
  injection Hgen as <-. cbn [orderlySignature orderlyTimestamp].
  unfold signedCall. cbn [callSignature callTimestamp authMessage].
  split.
  { unfold signMessage, signOrderlyRequest, newOrderlyAuth. cbn [privateKey].
    rewrite urlSafe_toBase64. unfold hexToBytes.
    rewrite stripHexPrefix_allHex, hexPairs_allHex by assumption. reflexivity. }
  split; [reflexivity|].
  split; [by rewrite canonicalOf_parts|].
  split; [by rewrite canonicalOf_parts|].
  split; intros; by rewrite canonicalOf_parts.
Qed.

Lemma legacy_service_signs_canonically_witness :
  allHex "0102" = true /\
  exists headers,
    generateAuthHeaders markWith (newOrderlyAuth "0102" "key" "0xacc")
      1000 1000 GET "/v1/positions" None None = Ok headers /\
    orderlySignature headers
    = callSignature (getPositions markWith "0102" 1000).
Proof.
  split; [reflexivity|].
  assert (H : generateAuthHeaders markWith (newOrderlyAuth "0102" "key" "0xacc")
                1000 1000 GET "/v1/positions" None None
              = Ok (signedAt markWith (newOrderlyAuth "0102" "key" "0xacc") 1000 GET
                      "/v1/positions" None)) by reflexivity.
  eexists. split; [exact H|].
  exact (proj1 (legacy_service_signs_canonically markWith "0102" "key" "0xacc"
                  1000 1000 GET "/v1/positions" None _ eq_refl H)).
Defined.

End OrderlyServiceFacts.

(** * Properties of the order validation *)

Module OrderRouteFacts.
Import Text OrderRoute OrderSpec.

(** A field that passed the sign test is blank or positive, and it is
    positive exactly when it is truthy. *)
Lemma passed_sign_test x :
  notPositive x = false ->
  (blank x \/ positive x) /\ (given x = true <-> positive x).
Proof.
  destruct x as [[|[]|q]|]; cbn; intros H; try discriminate.
  - split; [left; by right|]. split; [discriminate|tauto].
  - split; [by right|]. split; auto.
  - assert (Hq : (0 < q)%Q).
    { destruct (Qlt_le_dec 0 q) as [|Hle]; [assumption|].
      apply Qle_bool_iff in Hle. congruence. }
    split; [by right|]. split; [auto|]. intros _.
    apply negb_true_iff. destruct (Qeq_bool q 0) eqn:He; [|reflexivity].
    apply Qeq_bool_iff in He. rewrite He in Hq. by apply Qlt_irrefl in Hq.
  - split; [left; by left|]. split; [discriminate|tauto].
Qed.

(** What an accepted order is.  Its side is BUY or SELL; every number in
    it is positive or blank (absent or not a number); a LIMIT order has a
    positive price, a MARKET, ASK or BID order has none, an ASK or BID
    order has neither quantity nor amount, and no order has both.  A value
    that is not a number is never the reason for a rejection: an accepted
    order stays accepted when its quantity is replaced by [NaN]. *)
Theorem accepted_order (order : CreateOrderRequest) :
  validateOrder order = None ->
  (side order = "BUY" \/ side order = "SELL") /\
  (blank (order_price order) \/ positive (order_price order)) /\
  (blank (order_quantity order) \/ positive (order_quantity order)) /\
  (blank (order_amount order) \/ positive (order_amount order)) /\
  (order_type order = "LIMIT" -> positive (order_price order)) /\
  (order_type order ∈ ["MARKET"; "ASK"; "BID"] -> blank (order_price order)) /\
  (order_type order ∈ ["ASK"; "BID"] ->
     blank (order_quantity order) /\ blank (order_amount order)) /\
  ~ (positive (order_quantity order) /\ positive (order_amount order)) /\
  validateOrder {| symbol := symbol order; order_type := order_type order;
                   side := side order; order_price := order_price order;
                   order_quantity := Some NaN;
                   order_amount := order_amount order |} = None.
Proof.
  unfold validateOrder.
  destruct (String.eqb (order_type order) "LIMIT" && negb (given (order_price order)))
    eqn:H1; [discriminate|].
  destruct (oneOf ["MARKET"; "ASK"; "BID"] (order_type order) && given (order_price order))
    eqn:H2; [discriminate|].
  destruct (oneOf ["ASK"; "BID"] (order_type order)
            && (given (order_quantity order) || given (order_amount order)))
    eqn:H3; [discriminate|].
  destruct (given (order_quantity order) && given (order_amount order))
    eqn:H4; [discriminate|].
  destruct (negb (oneOf ["BUY"; "SELL"] (side order))) eqn:H5; [discriminate|].
  destruct (notPositive (order_price order)) eqn:H6; [discriminate|].
  destruct (notPositive (order_quantity order)) eqn:H7; [discriminate|].
  destruct (notPositive (order_amount order)) eqn:H8; [discriminate|].
  intros _.
  destruct (passed_sign_test _ H6) as [Hp Hpg].
  destruct (passed_sign_test _ H7) as [Hq Hqg].
  destruct (passed_sign_test _ H8) as [Ha Hag].
  assert (Hblank : forall x, (blank x \/ positive x) -> ~ positive x -> blank x) by tauto.
  assert (Hin : forall s options, s ∈ options -> oneOf options s = true).
  { intros s options Hs. unfold oneOf. apply existsb_exists. exists s.
    split; [by apply list_elem_of_In|apply String.eqb_refl]. }
  split_and!; try assumption.
  - apply negb_false_iff in H5. unfold oneOf in H5. cbn [existsb] in H5.
    rewrite orb_false_r in H5. apply orb_true_iff in H5 as [H5|H5];
      apply String.eqb_eq in H5; auto.
  - intros Ht. rewrite Ht in H1. cbn in H1. apply negb_false_iff in H1. by apply Hpg.
  - intros Ht. rewrite (Hin _ _ Ht) in H2. cbn in H2.
    apply Hblank; [assumption|]. rewrite <- Hpg. congruence.
  - intros Ht. rewrite (Hin _ _ Ht) in H3. cbn in H3.
    apply orb_false_iff in H3 as [H3q H3a].
    split; (apply Hblank; [assumption|]).
    + rewrite <- Hqg. congruence.
    + rewrite <- Hag. congruence.
  - intros [Hpq Hpa]. apply Hqg in Hpq. apply Hag in Hpa. rewrite Hpq, Hpa in H4.
    discriminate.
  - cbn [symbol order_type side order_price order_quantity order_amount].
    rewrite H1, H2, H5, H6, H8. cbn [given notPositive andb orb].
    destruct (oneOf ["ASK"; "BID"] (order_type order)) eqn:Hab; cbn [andb].
    + cbn in H3. apply orb_false_iff in H3 as [_ ->]. reflexivity.
    + reflexivity.
Qed.

Lemma accepted_order_witness :
  validateOrder {| symbol := "PERP_ETH_USDC"; order_type := "MARKET"; side := "BUY";
                   order_price := None; order_quantity := Some (Num 2);
                   order_amount := None |} = None /\
  validateOrder {| symbol := "PERP_ETH_USDC"; order_type := "MARKET"; side := "BUY";
                   order_price := None; order_quantity := Some NaN;
                   order_amount := None |} = None.
Proof.
  split; [reflexivity|].
  exact (proj2 (proj2 (proj2 (proj2 (proj2 (proj2 (proj2 (proj2
           (accepted_order {| symbol := "PERP_ETH_USDC"; order_type := "MARKET";
                              side := "BUY"; order_price := None;
                              order_quantity := Some (Num 2);
                              order_amount := None |} eq_refl))))))))).
Defined.

End OrderRouteFacts.

(** * A whole tick of the deposit worker *)

Module LedgerFacts.
Import Chain Deposits DepositSpec LedgerSpec Scenarios LedgerScenarios TickScenarios.
Import DepositFacts.

(** ** What a scan writes *)

(** No document with the hash [h]: the query of [getDepositByTxHash] came
    back empty. *)
Lemma no_such_hash h db :
  head (depositsWithTxHash h db) = None ->
  forall id x, deposits db !! id = Some x -> depTxHash x <> h.
Proof.
  unfold depositsWithTxHash. intros Hh id x Hx Heq.
  destruct (map_to_list (filter (hasTxHash h) (deposits db))) as [|kv l] eqn:Hl;
    [|discriminate].
  apply map_to_list_empty_iff in Hl.
  assert (Hin : filter (hasTxHash h) (deposits db) !! id = Some x).
  { apply map_lookup_filter_Some. split; [exact Hx | exact Heq]. }
  rewrite Hl, lookup_empty in Hin. discriminate.
Qed.

Lemma fresh_id_unused (m : gmap string Deposit) : m !! fresh (dom m) = None.
Proof. apply not_elem_of_dom. apply is_fresh. Qed.

(** One pass of the loop over the found transfers: it returns normally,
    and either leaves the store alone or adds the document of a transfer
    that is large enough and was not on record. *)
Lemma recordTransfer_spec w addr cur t db :
  exists db1 t1,
    recordTransfer w addr cur t db = (Ok tt, db1, t1) /\
    (db1 = db \/
     (head (depositsWithTxHash (txHash t) db) = None /\
      ~ (amount t < 10)%Q /\
      db1 = {| deposits := <[fresh (dom (deposits db)) := recordOf w addr cur t]>
                             (deposits db);
               users := users db; platform_wallets := platform_wallets db |})).
Proof.
  unfold recordTransfer, getDepositByTxHash, createDeposit.
  unfold_monad.
  destruct (firestore w (OpGetDepositByTxHash (txHash t))) as [[]|e0]; simpl;
    [|eauto].
  destruct (head (depositsWithTxHash (txHash t) db)) as [entry|] eqn:Hh; simpl;
    [eauto|].
  destruct (Qlt_le_dec (amount t) 10) as [Hlt|Hge]; simpl; [eauto|].
  destruct (firestore w (OpAddDeposit (txHash t))) as [[]|e1]; simpl; [|eauto].
  assert (Hbig : ~ (amount t < 10)%Q) by (apply Qle_not_lt; exact Hge).
  destruct (firestore w (OpReadDeposit (fresh (dom (deposits db))))) as [[]|e2];
    simpl; eexists _, _; (split; [reflexivity|]); right; split_and!; done.
Qed.

(** The store after the loop over the found transfers. *)
Lemma record_loop_spec w addr cur found db :
  exists db1 t1,
    forOf found (recordTransfer w addr cur) db = (Ok tt, db1, t1) /\
    users db1 = users db /\
    platform_wallets db1 = platform_wallets db /\
    (forall id x, deposits db !! id = Some x -> deposits db1 !! id = Some x) /\
    (forall id x, deposits db !! id = None -> deposits db1 !! id = Some x ->
       exists t, t ∈ found /\ ~ (amount t < 10)%Q /\ x = recordOf w addr cur t) /\
    (uniqueHashes db -> uniqueHashes db1).
Proof.
  revert db. induction found as [|t found IH]; intros db.
  - exists db, []. split_and!; try done. intros id x H1 H2. congruence.
  - destruct (recordTransfer_spec w addr cur t db) as (dbA & tA & Hrun & Hcase).
    destruct (IH dbA) as (db1 & t1 & Hloop & Hus & Hwal & Hkeep & Hnew & Huniq).
    exists db1, (tA ++ t1)%list. split.
    { simpl. erewrite bind_Ok by exact Hrun. rewrite Hloop. reflexivity. }
    destruct Hcase as [->|(Hhead & Hbig & ->)].
    + split_and!; try done.
      intros id x Hnone Hsome. destruct (Hnew id x Hnone Hsome) as (t' & Hin & Hrest).
      exists t'. split; [by right | exact Hrest].
    + simpl in *. pose proof (fresh_id_unused (deposits db)) as Hfresh.
      split_and!; try done.
      * intros id x Hx. apply Hkeep.
        rewrite lookup_insert_ne; [exact Hx|]. intros <-. congruence.
      * intros id x Hnone Hsome.
        destruct (decide (fresh (dom (deposits db)) = id)) as [<-|Hne].
        -- exists t. split; [by left|]. split; [exact Hbig|].
           specialize (Hkeep (fresh (dom (deposits db))) (recordOf w addr cur t)).
           rewrite lookup_insert_eq in Hkeep. specialize (Hkeep eq_refl). congruence.
        -- destruct (Hnew id x) as (t' & Hin & Hrest); [|exact Hsome|].
           { rewrite lookup_insert_ne by exact Hne. exact Hnone. }
           exists t'. split; [by right | exact Hrest].
      * intros Hu. apply Huniq. intros id1 id2 x1 x2 H1 H2 Heq.
        simpl in H1, H2.
        destruct (decide (fresh (dom (deposits db)) = id1)) as [E1|N1];
          destruct (decide (fresh (dom (deposits db)) = id2)) as [E2|N2].
        -- congruence.
        -- exfalso. subst id1. rewrite lookup_insert_eq in H1.
           rewrite lookup_insert_ne in H2 by exact N2. injection H1 as <-.
           apply (no_such_hash _ _ Hhead _ _ H2). simpl in Heq. congruence.
        -- exfalso. subst id2. rewrite lookup_insert_eq in H2.
           rewrite lookup_insert_ne in H1 by exact N1. injection H2 as <-.
           apply (no_such_hash _ _ Hhead _ _ H1). simpl in Heq. congruence.
        -- rewrite lookup_insert_ne in H1 by exact N1.
           rewrite lookup_insert_ne in H2 by exact N2. eauto.
Qed.

(** The store after [scanForNewDeposits]: the deposits are those after the
    loop over what the chain scanner returned, if the scan got that far. *)
Lemma scan_deposits w db :
  users (exec (scanForNewDeposits w) db) = users db /\
  (deposits (exec (scanForNewDeposits w) db) = deposits db \/
   exists wid wallet cur,
     arbitrumWallet db = Some (wid, wallet) /\
     getBlockNumber (rpc w) = Ok cur /\
     deposits (exec (scanForNewDeposits w) db) =
     deposits (exec (forOf (scanForDeposits (rpc w) (address wallet)
                              (lastScannedBlock wallet + 1) (Some cur))
                       (recordTransfer w (address wallet) cur)) db)).
Proof.
  unfold exec at 1 2 3, scanForNewDeposits, getPlatformWallet,
    updatePlatformWalletBlock, updateDoc, getCurrentBlock.
  unfold_monad.
  destruct (firestore w OpGetPlatformWallet) as [[]|e0]; simpl; [|auto].
  destruct (arbitrumWallet db) as [[wid wallet]|] eqn:Hq; simpl; [|auto].
  destruct (getBlockNumber (rpc w)) as [cur|e1] eqn:Hcur; simpl; [|auto].
  destruct (decide (lastScannedBlock wallet + 1 > cur)); simpl; [auto|].
  destruct (record_loop_spec w (address wallet) cur
              (scanForDeposits (rpc w) (address wallet)
                 (lastScannedBlock wallet + 1) (Some cur)) db)
    as (db1 & t1 & Hloop & Hus & Hwal & _).
  assert (Hd : deposits db1 =
               deposits (exec (forOf (scanForDeposits (rpc w) (address wallet)
                                        (lastScannedBlock wallet + 1) (Some cur))
                                 (recordTransfer w (address wallet) cur)) db)).
  { unfold exec. rewrite Hloop. reflexivity. }
  rewrite Hloop. simpl.
  destruct (firestore w (OpUpdatePlatformWalletBlock wid cur)) as [[]|e2]; simpl.
  - destruct (platform_wallets db1 !! wid); simpl;
      (split; [exact Hus|]); right; exists wid, wallet, cur; done.
  - split; [exact Hus|]. right. exists wid, wallet, cur. done.
Qed.

(** A scan keeps the users and every deposit document that was there, and
    each document it adds is the record of a transfer of at least 10 that
    the chain scanner returned for the blocks after the cursor: unlinked,
    not credited, [confirmed] from twelve confirmations on. *)
Theorem scan_adds_only_found_transfers (w : World) (db : Db) :
  users (exec (scanForNewDeposits w) db) = users db /\
  (forall id x, deposits db !! id = Some x ->
     deposits (exec (scanForNewDeposits w) db) !! id = Some x) /\
  (forall id x,
     deposits db !! id = None ->
     deposits (exec (scanForNewDeposits w) db) !! id = Some x ->
     exists wid wallet cur t,
       arbitrumWallet db = Some (wid, wallet) /\
       getBlockNumber (rpc w) = Ok cur /\
       t ∈ scanForDeposits (rpc w) (address wallet)
             (lastScannedBlock wallet + 1) (Some cur) /\
       ~ (amount t < 10)%Q /\
       x = recordOf w (address wallet) cur t /\
       userId x = "" /\ orderlyConfirmed x = false /\ retryCount x = 0 /\
       (status x = confirmed <-> 12 <= confirmations x) /\
       (status x = pending <-> confirmations x < 12)).
Proof.
  destruct (scan_deposits w db) as [Hus [Hsame|(wid & wallet & cur & Hq & Hcur & Hd)]].
  - split; [exact Hus|]. rewrite Hsame. split; [auto|]. intros id x H1 H2. congruence.
  - split; [exact Hus|]. rewrite Hd.
    destruct (record_loop_spec w (address wallet) cur
                (scanForDeposits (rpc w) (address wallet)
                   (lastScannedBlock wallet + 1) (Some cur)) db)
      as (db1 & t1 & Hloop & _ & _ & Hkeep & Hnew & _).
    unfold exec. rewrite Hloop. simpl. split; [exact Hkeep|].
    intros id x Hnone Hsome. destruct (Hnew id x Hnone Hsome) as (t & Hin & Hbig & ->).
    exists wid, wallet, cur, t. split_and!; try done.
    + simpl. unfold CONFIRMATIONS_REQUIRED.
      destruct (decide (12 <= cur - blockNumber t)); split; try done; lia.
    + simpl. unfold CONFIRMATIONS_REQUIRED.
      destruct (decide (12 <= cur - blockNumber t)); split; try done; lia.
Qed.

(** A scan never writes a second document for a transaction hash: if the
    hashes on record are distinct before a scan, they are distinct after
    it, whatever the node returns and whichever writes fail.  This is the
    scan alone on the store: [overlappingPasses] is the case of a second
    writer between the query and the insert. *)
Theorem scan_keeps_hashes_unique (w : World) (db : Db) :
  uniqueHashes db -> uniqueHashes (exec (scanForNewDeposits w) db).
Proof.
  intros Hu.
  destruct (scan_deposits w db) as [_ [Hsame|(wid & wallet & cur & _ & _ & Hd)]].
  - unfold uniqueHashes. rewrite Hsame. exact Hu.
  - unfold uniqueHashes. rewrite Hd.
    destruct (record_loop_spec w (address wallet) cur
                (scanForDeposits (rpc w) (address wallet)
                   (lastScannedBlock wallet + 1) (Some cur)) db)
      as (db1 & t1 & Hloop & _ & _ & _ & _ & Huniq).
    unfold exec. rewrite Hloop. simpl. apply Huniq. exact Hu.
Qed.

(** The node returns the transfer that is on record and a new one twice:
    one record is added. *)
Lemma scan_keeps_hashes_unique_witness :
  uniqueHashes ledger0 /\
  uniqueHashes (exec (scanForNewDeposits (worldOf repeatingNode)) ledger0) /\
  size (dom (deposits ledger0)) = 1%nat /\
  length (scanForDeposits repeatingNode "0xplatform" 100 (Some 112)) = 3%nat /\
  size (dom (deposits (exec (scanForNewDeposits (worldOf repeatingNode)) ledger0)))
    = 2%nat.
Proof.
  assert (H0 : uniqueHashes ledger0).
  { intros id1 id2 x1 x2 H1 H2 _. simpl in H1, H2.
    apply lookup_singleton_Some in H1 as [<- _].
    apply lookup_singleton_Some in H2 as [<- _]. reflexivity. }
  split; [exact H0|]. split.
  - apply (scan_keeps_hashes_unique (worldOf repeatingNode) ledger0). exact H0.
  - split_and!; vm_compute; reflexivity.
Defined.

(** ** What a tick keeps *)

#[local] Instance nothingDeleted_refl : Reflexive nothingDeleted.
Proof. intros a. split_and!; reflexivity. Qed.

#[local] Instance nothingDeleted_trans : Transitive nothingDeleted.
Proof.
  intros a b c (H1 & H2 & H3) (H4 & H5 & H6). split_and!.
  - etrans; eassumption.
  - congruence.
  - congruence.
Qed.

Lemma tick_preserves w : preserves nothingDeleted (notCreditTo "") (monitorDeposits w).
Proof.
  unfold monitorDeposits, scanForNewDeposits, processPendingDeposits,
    getPlatformWallet, getPendingDeposits, updatePlatformWalletBlock,
    recordTransfer, getDepositByTxHash, createDeposit,
    processDeposit, refreshConfirmations, creditDeposit, creditFailed,
    updateDepositStatus, creditUserDeposit, getUserById, updateDoc,
    setDeposits, call.
  walk.
  all: try (intros amt Hk; (discriminate Hk || (injection Hk as Hk _; congruence))).
  all: split_and!; simpl; rewrite ?dom_alter_L, ?dom_insert_L; set_solver.
Qed.

(** A tick of the worker returns normally whatever fails in it, and it
    deletes nothing: every deposit document stays, and the user and wallet
    collections keep exactly their documents. *)
Theorem tick_never_throws_nor_deletes (w : World) (db : Db) :
  (monitorDeposits w db).1.1 = Ok tt /\
  dom (deposits db) ⊆ dom (deposits (exec (monitorDeposits w) db)) /\
  dom (users (exec (monitorDeposits w) db)) = dom (users db) /\
  dom (platform_wallets (exec (monitorDeposits w) db)) = dom (platform_wallets db).
Proof.
  split; [|exact (proj1 (tick_preserves w db))].
  unfold monitorDeposits, bind.
  pose proof (tryCatch_log_ok
                (do platformWallet <- getPlatformWallet w;
                 match platformWallet with
                 | None => emit (LogError "Platform wallet not configured!")
                 | Some (walletId, wallet) =>
                     do currentBlock <- lift (getCurrentBlock (rpc w));
                     if decide (lastScannedBlock wallet + 1 > currentBlock) then ret tt
                     else
                       run emit (LogScanning (lastScannedBlock wallet + 1) currentBlock);
                       run forOf (scanForDeposits (rpc w) (address wallet)
                                    (lastScannedBlock wallet + 1) (Some currentBlock))
                             (recordTransfer w (address wallet) currentBlock);
                       updatePlatformWalletBlock w walletId currentBlock
                 end) LogError db) as Hscan.
  fold (scanForNewDeposits w) in Hscan.
  destruct (scanForNewDeposits w db) as [[r db1] t1]. simpl in Hscan. subst r.
  pose proof (tryCatch_log_ok
                (do pendingList <- getPendingDeposits w;
                 forOf pendingList (processDeposit w)) LogError db1) as Hproc.
  fold (processPendingDeposits w) in Hproc.
  destruct (processPendingDeposits w db1) as [[r db2] t2]. exact Hproc.
Qed.

(** ** The crediting loop around one deposit *)

#[local] Instance untouched_refl id uid : Reflexive (untouched id uid).
Proof. intros a. split; reflexivity. Qed.

#[local] Instance untouched_trans id uid : Transitive (untouched id uid).
Proof. intros a b c [H1 H2] [H3 H4]. split; congruence. Qed.

(** Processing another deposit of another user. *)
Lemma processDeposit_untouched w id uid entry :
  entry.1 <> id -> userId entry.2 <> uid ->
  preserves (untouched id uid) (notCreditTo uid) (processDeposit w entry).
Proof.
  intros Hne Hnu.
  unfold processDeposit, refreshConfirmations, creditDeposit, creditFailed,
    updateDepositStatus, creditUserDeposit, getUserById, updateDoc,
    setDeposits, call.
  walk.
  all: try (intros amt Hk; (discriminate Hk || (injection Hk as Hk _; contradiction))).
  all: split; simpl; rewrite ?lookup_alter_ne by assumption; reflexivity.
Qed.

Lemma loop_untouched w id uid (l : list (string * Deposit)) db db1 t1 :
  (forall e, e ∈ l -> e.1 <> id /\ userId e.2 <> uid) ->
  forOf l (processDeposit w) db = (Ok tt, db1, t1) ->
  untouched id uid db db1 /\ Forall (notCreditTo uid) t1.
Proof.
  intros Hl Hrun.
  assert (Hp : preserves (untouched id uid) (notCreditTo uid)
                 (forOf l (processDeposit w))).
  { apply preserves_forOf; try apply _. intros x Hx.
    apply processDeposit_untouched; apply (Hl x Hx). }
  specialize (Hp db). unfold exec, trace in Hp. rewrite Hrun in Hp. exact Hp.
Qed.

(** A tick whose query goes through, cut at one of the pending deposits. *)
Lemma tick_split w db id d :
  (id, d) ∈ pendingDeposits db ->
  firestore w OpGetPendingDeposits = Ok tt ->
  exists (l1 l2 : list (string * Deposit)) db1 t1 db2 t2 db3 t3,
    pendingDeposits db = (l1 ++ (id, d) :: l2)%list /\
    (id ∉ l1.*1) /\ (id ∉ l2.*1) /\
    forOf l1 (processDeposit w) db = (Ok tt, db1, t1) /\
    processDeposit w (id, d) db1 = (Ok tt, db2, t2) /\
    forOf l2 (processDeposit w) db2 = (Ok tt, db3, t3) /\
    processPendingDeposits w db = (Ok tt, db3, (t1 ++ t2 ++ t3)%list).
Proof.
  intros Hin Hq.
  destruct (list_elem_of_split _ _ Hin) as (l1 & l2 & Hsplit).
  pose proof (NoDup_fst_map_to_list (filter isPendingDeposit (deposits db))) as Hnd.
  fold (pendingDeposits db) in Hnd. rewrite Hsplit in Hnd.
  rewrite fmap_app, fmap_cons in Hnd. simpl in Hnd.
  apply NoDup_app in Hnd as (_ & H1 & Hnd).
  apply NoDup_cons in Hnd as [H2 _].
  assert (Hl1 : id ∉ l1.*1).
  { intros Hc. apply (H1 _ Hc). left. }
  destruct (loop_frame w id l1 db Hl1) as (db1 & t1 & Hrun1 & _).
  pose proof (tryCatch_log_ok
                (if decide (userId d = "") then ret tt
                 else
                   match getTransaction (rpc w) (depTxHash d) with
                   | None => ret tt
                   | Some tx =>
                       do currentBlock <- lift (getCurrentBlock (rpc w));
                       run refreshConfirmations w id d
                             (currentBlock - receiptBlockNumber tx);
                       if decide (requiredConfirmations d
                                    <= currentBlock - receiptBlockNumber tx
                                  /\ orderlyConfirmed d = false)
                       then tryCatch (creditDeposit w id d) (creditFailed w id d)
                       else ret tt
                   end) LogError db1) as Hown.
  change (tryCatch _ _ db1) with (processDeposit w (id, d) db1) in Hown.
  destruct (processDeposit w (id, d) db1) as [[r db2] t2] eqn:Hrun2.
  simpl in Hown. subst r.
  destruct (loop_frame w id l2 db2 H2) as (db3 & t3 & Hrun3 & _).
  exists l1, l2, db1, t1, db2, t2, db3, t3. split_and!; try done.
  unfold processPendingDeposits, getPendingDeposits.
  erewrite tryCatch_Ok; [reflexivity|].
  unfold call. rewrite Hq.
  erewrite bind_Ok by (unfold bind, lift, get, ret; simpl; reflexivity).
  rewrite Hsplit, forOf_app.
  erewrite bind_Ok by exact Hrun1. simpl.
  erewrite bind_Ok by exact Hrun2. rewrite Hrun3. simpl. reflexivity.
Qed.

(** The deposits before and after [id] in the pending list belong to
    other users when [id] is the only pending deposit of its user. *)
Lemma others_of_split db id d (l1 l2 : list (string * Deposit)) :
  pendingDeposits db = (l1 ++ (id, d) :: l2)%list ->
  id ∉ l1.*1 -> id ∉ l2.*1 ->
  onlyPendingOf db id d ->
  (forall e, e ∈ l1 -> e.1 <> id /\ userId e.2 <> userId d) /\
  (forall e, e ∈ l2 -> e.1 <> id /\ userId e.2 <> userId d).
Proof.
  intros Hsplit H1 H2 Honly.
  assert (Hgen : forall (l : list (string * Deposit)) e,
            id ∉ l.*1 -> e ∈ l -> e ∈ pendingDeposits db ->
            e.1 <> id /\ userId e.2 <> userId d).
  { intros l [i x] Hl Hin Hp. simpl.
    assert (Hi : i <> id).
    { intros ->. apply Hl. apply list_elem_of_fmap. exists (id, x). auto. }
    split; [exact Hi|]. exact (Honly i x Hp Hi). }
  split; intros e He.
  - apply (Hgen l1 e H1 He). rewrite Hsplit. apply elem_of_app. by left.
  - apply (Hgen l2 e H2 He). rewrite Hsplit. apply elem_of_app. right. by right.
Qed.

(** An unclaimed deposit: the loop body returns at its first test. *)
Lemma processDeposit_unlinked w id d db :
  userId d = "" -> processDeposit w (id, d) db = (Ok tt, db, []).
Proof.
  intros Hu. unfold processDeposit. simpl.
  destruct (decide (userId d = "")); [reflexivity | contradiction].
Qed.

(** A deposit that nobody has claimed is never credited: in any world a
    crediting tick leaves its record as it is, still pending, and credits
    nothing to the empty user id. *)
Theorem unlinked_deposit_is_left_alone (w : World) (db : Db) (id : string) (d : Deposit) :
  (id, d) ∈ pendingDeposits db ->
  userId d = "" ->
  deposits (exec (processPendingDeposits w) db) !! id = Some d /\
  (id, d) ∈ pendingDeposits (exec (processPendingDeposits w) db) /\
  Forall (notCreditTo "") (trace (processPendingDeposits w) db).
Proof.
  intros Hin Hu.
  pose proof (proj1 (pendingDeposits_lookup _ _ _) Hin) as [Hd Hpend].
  assert (Htr : Forall (notCreditTo "") (trace (processPendingDeposits w) db)).
  { assert (Hp : preserves nothingDeleted (notCreditTo "") (processPendingDeposits w)).
    { unfold processPendingDeposits, getPendingDeposits,
        processDeposit, refreshConfirmations, creditDeposit, creditFailed,
        updateDepositStatus, creditUserDeposit, getUserById, updateDoc,
        setDeposits, call.
      walk.
      all: try (intros amt Hk; (discriminate Hk || (injection Hk as Hk _; congruence))).
      all: split_and!; simpl; rewrite ?dom_alter_L; set_solver. }
    exact (proj2 (Hp db)). }
  assert (Hrec : deposits (exec (processPendingDeposits w) db) !! id = Some d).
  { destruct (firestore w OpGetPendingDeposits) as [[]|e] eqn:Hq.
    - destruct (tick_split w db id d Hin Hq)
        as (l1 & l2 & db1 & t1 & db2 & t2 & db3 & t3
            & Hsplit & Hl1 & Hl2 & Hrun1 & Hrun2 & Hrun3 & Hrun).
      rewrite processDeposit_unlinked in Hrun2 by exact Hu.
      injection Hrun2 as <- <-.
      destruct (loop_frame w id l1 db Hl1) as (dbA & tA & HA & [HdA _] & _).
      destruct (loop_frame w id l2 db1 Hl2) as (dbB & tB & HB & [HdB _] & _).
      rewrite Hrun1 in HA. injection HA as <- <-.
      rewrite Hrun3 in HB. injection HB as <- <-.
      unfold exec. rewrite Hrun. simpl. congruence.
    - unfold exec, processPendingDeposits, getPendingDeposits, call.
      unfold_monad. rewrite Hq. simpl. exact Hd. }
  split_and!; [exact Hrec | | exact Htr].
  apply pendingDeposits_lookup. split; [exact Hrec | exact Hpend].
Qed.

Lemma unlinked_deposit_is_left_alone_witness :
  deposits (exec (processPendingDeposits calm)
              (exec (scanForNewDeposits calm) emptyLedger)) !! "0"
    = Some (recordOf calm "0xplatform" 112
              {| txHash := "0xabc"; from := "0xsender";
                 amount := formatUnits 100 0; blockNumber := 100 |}) /\
  ("0", recordOf calm "0xplatform" 112
          {| txHash := "0xabc"; from := "0xsender";
             amount := formatUnits 100 0; blockNumber := 100 |})
    ∈ pendingDeposits (exec (processPendingDeposits calm)
                         (exec (scanForNewDeposits calm) emptyLedger)) /\
  Forall (notCreditTo "")
    (trace (processPendingDeposits calm) (exec (scanForNewDeposits calm) emptyLedger)).
Proof.
  apply (unlinked_deposit_is_left_alone calm).
  - apply pendingDeposits_lookup. split; [vm_compute; reflexivity|].
    split; [right|]; reflexivity.
  - reflexivity.
Defined.


(** ** A deposit that is not deep enough *)

(** The loop body on a deposit below its required confirmations, in any
    world: at most the confirmation count of the record is rewritten. *)
Lemma processDeposit_shallow w id d db db2 t2 :
  deposits db !! id = Some d ->
  (forall tx cur,
     getTransaction (rpc w) (depTxHash d) = Some tx ->
     getBlockNumber (rpc w) = Ok cur ->
     cur - receiptBlockNumber tx < requiredConfirmations d) ->
  processDeposit w (id, d) db = (Ok tt, db2, t2) ->
  users db2 = users db /\
  Forall (notCreditTo (userId d)) t2 /\
  exists d',
    deposits db2 !! id = Some d' /\
    status d' = status d /\ orderlyConfirmed d' = orderlyConfirmed d /\
    userId d' = userId d /\ depAmount d' = depAmount d /\
    retryCount d' = retryCount d.
Proof.
  intros Hd Hshallow.
  unfold processDeposit, refreshConfirmations, updateDepositStatus, updateDoc,
    getCurrentBlock.
  unfold_monad. cbn [fst snd].
  destruct (getTransaction (rpc w) (depTxHash d)) as [tx|] eqn:Htx;
    [destruct (getBlockNumber (rpc w)) as [cur|e] eqn:Hcur;
       [specialize (Hshallow tx cur eq_refl eq_refl)|]|].
  all: repeat case_decide; try lia; try (exfalso; intuition lia); simpl.
  all: try (destruct (firestore w (OpUpdateDepositStatus id (status d))) as [[]|e];
            simpl; rewrite ?Hd; simpl).
  all: intros [= <- <-]; simpl;
    (split_and!;
     [ done
     | repeat constructor; intros amt; discriminate
     | eexists; split;
       [ first [exact Hd | rewrite lookup_alter_eq, Hd; reflexivity] | done ] ]).
Qed.

(** A deposit below its required confirmations is not credited, in any
    world: the tick keeps its status, amount, user and retry count and
    leaves it pending.  When it is the only pending deposit of its user,
    the tick neither logs a credit to that user nor changes the user's
    document. *)
Theorem shallow_deposit_is_not_credited (w : World) (db : Db) (id : string) (d : Deposit) :
  (id, d) ∈ pendingDeposits db ->
  (forall tx cur,
     getTransaction (rpc w) (depTxHash d) = Some tx ->
     getBlockNumber (rpc w) = Ok cur ->
     cur - receiptBlockNumber tx < requiredConfirmations d) ->
  (exists d',
     (id, d') ∈ pendingDeposits (exec (processPendingDeposits w) db) /\
     status d' = status d /\ userId d' = userId d /\ depAmount d' = depAmount d /\
     retryCount d' = retryCount d) /\
  (onlyPendingOf db id d ->
   users (exec (processPendingDeposits w) db) !! userId d = users db !! userId d /\
   Forall (notCreditTo (userId d)) (trace (processPendingDeposits w) db)).
Proof.
  intros Hin Hshallow.
  pose proof (proj1 (pendingDeposits_lookup _ _ _) Hin) as [Hd [Hst Hoc]].
  simpl in Hst, Hoc.
  destruct (firestore w OpGetPendingDeposits) as [[]|e] eqn:Hq.
  2:{ unfold exec, trace, processPendingDeposits, getPendingDeposits, call.
      unfold_monad. rewrite Hq. simpl. split.
      - exists d. split; [exact Hin | done].
      - intros _. split; [done|]. repeat constructor. intros amt. discriminate. }
  destruct (tick_split w db id d Hin Hq)
    as (l1 & l2 & db1 & t1 & db2 & t2 & db3 & t3
        & Hsplit & Hl1 & Hl2 & Hrun1 & Hrun2 & Hrun3 & Hrun).
  destruct (loop_frame w id l1 db Hl1) as (dbA & tA & HA & [Hd1 _] & _).
  rewrite Hrun1 in HA. injection HA as <- <-. rewrite Hd in Hd1.
  destruct (processDeposit_shallow w id d db1 db2 t2 Hd1 Hshallow Hrun2)
    as (Hu2 & Ht2 & d' & Hd2 & Hst' & Hoc' & Huid & Hamt & Hrc).
  destruct (loop_frame w id l2 db2 Hl2) as (dbB & tB & HB & [Hd3 _] & _).
  rewrite Hrun3 in HB. injection HB as <- <-.
  unfold exec, trace. rewrite Hrun. simpl. split.
  - exists d'. split; [|done]. apply pendingDeposits_lookup.
    split; [congruence|]. split; simpl; congruence.
  - intros Honly.
    destruct (others_of_split db id d l1 l2 Hsplit Hl1 Hl2 Honly) as [Ho1 Ho2].
    destruct (loop_untouched w id (userId d) l1 db db1 t1 Ho1 Hrun1) as [[_ Hu1] Ht1].
    destruct (loop_untouched w id (userId d) l2 db2 db3 t3 Ho2 Hrun3) as [[_ Hu3] Ht3].
    split.
    + rewrite Hu3, Hu2, Hu1. reflexivity.
    + repeat (apply Forall_app; split); assumption.
Qed.

(** On a store where alice has two pending deposits, and on one where she
    has one. *)
Lemma shallow_deposit_is_not_credited_witness :
  (exists d',
     ("d2", d') ∈ pendingDeposits (exec (processPendingDeposits shallowWorld) twoDeposits) /\
     status d' = status d2 /\ userId d' = userId d2 /\ depAmount d' = depAmount d2 /\
     retryCount d' = retryCount d2) /\
  (exists d',
     ("d1", d') ∈ pendingDeposits (exec (processPendingDeposits shallowWorld) ledger0) /\
     status d' = status d1 /\ userId d' = userId d1 /\ depAmount d' = depAmount d1 /\
     retryCount d' = retryCount d1) /\
  users (exec (processPendingDeposits shallowWorld) ledger0) !! userId d1
    = users ledger0 !! userId d1 /\
  Forall (notCreditTo (userId d1)) (trace (processPendingDeposits shallowWorld) ledger0).
Proof.
  assert (Hshallow : forall d tx cur,
            getTransaction (rpc shallowWorld) (depTxHash d) = Some tx ->
            getBlockNumber (rpc shallowWorld) = Ok cur ->
            requiredConfirmations d = 12 ->
            cur - receiptBlockNumber tx < requiredConfirmations d).
  { intros d tx cur [= <-] [= <-] ->. simpl. lia. }
  split.
  - apply (shallow_deposit_is_not_credited shallowWorld twoDeposits "d2" d2).
    + apply pendingDeposits_lookup. split; [vm_compute; reflexivity|].
      split; [left|]; reflexivity.
    + intros tx cur Htx Hcur. by apply (Hshallow d2 tx cur).
  - destruct (shallow_deposit_is_not_credited shallowWorld ledger0 "d1" d1) as [Hrec Huser].
    + apply pendingDeposits_lookup. split; [reflexivity|].
      split; [right|]; reflexivity.
    + intros tx cur Htx Hcur. by apply (Hshallow d1 tx cur).
    + split; [exact Hrec|]. apply Huser.
      intros id' d' Hp Hne. apply pendingDeposits_lookup in Hp as [Hp _].
      simpl in Hp. apply lookup_singleton_Some in Hp as [<- _]. contradiction.
Defined.

(** ** A deposit that is due, in a world without faults *)

Section Credit.
Variables (w : World) (id : string) (d : Deposit) (u : User).
Variables (tx : Receipt) (cur : Z) (key : string).
Hypothesis store_up : forall op, firestore w op = Ok tt.
Hypothesis linked : userId d <> "".
Hypothesis receipt : getTransactionReceipt (rpc w) (depTxHash d) = Ok (Some tx).
Hypothesis height : getBlockNumber (rpc w) = Ok cur.
Hypothesis deep : requiredConfirmations d <= cur - receiptBlockNumber tx.
Hypothesis opens : decrypt w (encryptedOrderlyPrivateKey u) = Ok key.
Hypothesis mirror_ok : creditAccountBalance w (accountId u) (depAmount d) key = Ok tt.

(** The [try] block runs to its end. *)
Lemma creditDeposit_ok db d1 :
  users db !! userId d = Some u ->
  deposits db !! id = Some d1 ->
  exists db1 u',
    creditDeposit w id d db
      = (Ok tt, db1, [LogCreditedInternal (userId d) (depAmount d);
                      LogCreditedOrderly (accountId u) (depAmount d)]) /\
    deposits db1 !! id = Some (applyUpdate w credited SetCredited d1) /\
    users db1 !! userId d = Some u' /\
    internalBalance u' = (internalBalance u + depAmount d)%Q /\
    totalDeposits u' = (totalDeposits u + depAmount d)%Q /\
    accountId u' = accountId u.
Proof.
  intros Hu Hd1.
  unfold creditDeposit, creditUserDeposit, getUserById, updateDepositStatus, updateDoc.
  unfold_monad.
  repeat (progress (simpl; rewrite ?store_up, ?Hu, ?opens, ?mirror_ok, ?Hd1)).
  eexists _, _. split; [reflexivity|]. simpl.
  rewrite lookup_alter_eq, Hd1. split; [reflexivity|].
  rewrite lookup_alter_eq, Hu. simpl. done.
Qed.

(** One pass of the loop body over the due deposit. *)
Lemma processDeposit_credit db :
  deposits db !! id = Some d ->
  orderlyConfirmed d = false ->
  users db !! userId d = Some u ->
  exists db' d' u',
    processDeposit w (id, d) db
      = (Ok tt, db', [LogCreditedInternal (userId d) (depAmount d);
                      LogCreditedOrderly (accountId u) (depAmount d)]) /\
    deposits db' !! id = Some d' /\
    status d' = credited /\ orderlyConfirmed d' = true /\
    creditedAt d' = Some (clock w) /\
    confirmations d' = cur - receiptBlockNumber tx /\
    depAmount d' = depAmount d /\ userId d' = userId d /\
    users db' !! userId d = Some u' /\
    internalBalance u' = (internalBalance u + depAmount d)%Q /\
    totalDeposits u' = (totalDeposits u + depAmount d)%Q /\
    accountId u' = accountId u.
Proof.
  intros Hd unmarked Hu.
  assert (Hrefresh : exists d1,
    refreshConfirmations w id d (cur - receiptBlockNumber tx) db =
      (Ok tt,
       {| deposits := <[id := d1]> (deposits db);
          users := users db; platform_wallets := platform_wallets db |}, []) /\
    confirmations d1 = cur - receiptBlockNumber tx /\
    depAmount d1 = depAmount d /\ userId d1 = userId d).
  { unfold refreshConfirmations.
    destruct (decide (cur - receiptBlockNumber tx = confirmations d)) as [E|N].
    - exists d. split; [|done]. unfold ret. do 2 f_equal.
      rewrite insert_id by done. by destruct db.
    - destruct (decide _).
      + eexists. split; [by apply updateDepositStatus_found|done].
      + eexists. split; [by apply updateDepositStatus_found|done]. }
  destruct Hrefresh as (d1 & Hrefresh & Hc1 & Ha1 & Hi1).
  set (dbA := {| deposits := <[id := d1]> (deposits db); users := users db;
                 platform_wallets := platform_wallets db |}) in *.
  assert (HdA : deposits dbA !! id = Some d1) by apply lookup_insert_eq.
  destruct (creditDeposit_ok dbA d1 Hu HdA)
    as (dbB & u' & Hcredit & HdB & HuB & Hbal & Htot & Hacc).
  exists dbB, (applyUpdate w credited SetCredited d1), u'. split.
  { unfold processDeposit. simpl.
    destruct (decide (userId d = "")) as [|_]; [contradiction|].
    unfold getTransaction, getCurrentBlock. rewrite receipt, height.
    erewrite tryCatch_Ok; [reflexivity|].
    erewrite bind_Ok by reflexivity.
    erewrite bind_Ok by exact Hrefresh.
    destruct (decide (requiredConfirmations d <= cur - receiptBlockNumber tx
                      /\ orderlyConfirmed d = false)) as [_|Hn];
      [|exfalso; apply Hn; split; assumption].
    erewrite tryCatch_Ok by exact Hcredit. reflexivity. }
  split_and!; try done.
Qed.

(** In a tick without faults a claimed deposit with its confirmations is
    credited once: its amount is added to the user's balance and deposit
    total, the venue is credited with the same amount, the record becomes
    [credited] and leaves the pending set, and no later tick touches the
    record again.  The deposit is the only pending one of its user. *)
Theorem due_deposit_is_credited_once (db : Db) :
  (id, d) ∈ pendingDeposits db ->
  users db !! userId d = Some u ->
  onlyPendingOf db id d ->
  exists d' u' before after,
    deposits (exec (processPendingDeposits w) db) !! id = Some d' /\
    status d' = credited /\ orderlyConfirmed d' = true /\
    creditedAt d' = Some (clock w) /\ depAmount d' = depAmount d /\
    users (exec (processPendingDeposits w) db) !! userId d = Some u' /\
    internalBalance u' = (internalBalance u + depAmount d)%Q /\
    totalDeposits u' = (totalDeposits u + depAmount d)%Q /\
    trace (processPendingDeposits w) db =
      (before ++ [LogCreditedInternal (userId d) (depAmount d);
                  LogCreditedOrderly (accountId u) (depAmount d)] ++ after)%list /\
    Forall (notCreditTo (userId d)) before /\
    Forall (notCreditTo (userId d)) after /\
    (forall x, (id, x) ∉ pendingDeposits (exec (processPendingDeposits w) db)) /\
    (forall w2,
       deposits (exec (processPendingDeposits w2)
                   (exec (processPendingDeposits w) db)) !! id = Some d').
Proof.
  intros Hin Hu Honly.
  pose proof (proj1 (pendingDeposits_lookup _ _ _) Hin) as [Hd [_ Hoc]].
  simpl in Hoc.
  destruct (tick_split w db id d Hin (store_up _))
    as (l1 & l2 & db1 & t1 & db2 & t2 & db3 & t3
        & Hsplit & Hl1 & Hl2 & Hrun1 & Hrun2 & Hrun3 & Hrun).
  destruct (others_of_split db id d l1 l2 Hsplit Hl1 Hl2 Honly) as [Ho1 Ho2].
  destruct (loop_untouched w id (userId d) l1 db db1 t1 Ho1 Hrun1) as [[Hd1 Hu1] Ht1].
  rewrite Hd in Hd1. rewrite Hu in Hu1.
  destruct (processDeposit_credit db1 Hd1 Hoc Hu1)
    as (db2' & d' & u' & Hown & Hd2 & Hst & Hoc' & Hat & _ & Hamt & _
        & Hu2 & Hbal & Htot & _).
  rewrite Hrun2 in Hown. injection Hown as <- ->.
  destruct (loop_untouched w id (userId d) l2 db2 db3 t3 Ho2 Hrun3) as [[Hd3 Hu3] Ht3].
  assert (Hnp : forall x, (id, x) ∉ pendingDeposits db3).
  { intros x Hx. apply pendingDeposits_lookup in Hx as [Hx [_ Hp]].
    simpl in Hp. rewrite Hd3, Hd2 in Hx. injection Hx as <-. congruence. }
  exists d', u', t1, t3. unfold exec, trace. rewrite Hrun. simpl.
  split_and!; try done.
  - congruence.
  - congruence.
  - intros w2. fold (exec (processPendingDeposits w2) db3).
    rewrite not_pending_untouched; [congruence|].
    intros Hc. apply list_elem_of_fmap in Hc as ([i x] & Hi & Hx).
    simpl in Hi. subst i. by apply (Hnp x).
Qed.

End Credit.

Lemma due_deposit_is_credited_once_witness :
  exists d' u' before after,
    deposits (exec (processPendingDeposits calm) ledger0) !! "d1" = Some d' /\
    status d' = credited /\ orderlyConfirmed d' = true /\
    creditedAt d' = Some (clock calm) /\ depAmount d' = depAmount d1 /\
    users (exec (processPendingDeposits calm) ledger0) !! userId d1 = Some u' /\
    internalBalance u' = (internalBalance alice + depAmount d1)%Q /\
    totalDeposits u' = (totalDeposits alice + depAmount d1)%Q /\
    trace (processPendingDeposits calm) ledger0 =
      (before ++ [LogCreditedInternal (userId d1) (depAmount d1);
                  LogCreditedOrderly (accountId alice) (depAmount d1)] ++ after)%list /\
    Forall (notCreditTo (userId d1)) before /\
    Forall (notCreditTo (userId d1)) after /\
    (forall x, (("d1", x) ∉ pendingDeposits (exec (processPendingDeposits calm) ledger0))) /\
    (forall w2,
       deposits (exec (processPendingDeposits w2)
                   (exec (processPendingDeposits calm) ledger0)) !! "d1" = Some d').
Proof.
  apply (due_deposit_is_credited_once calm "d1" d1 alice
           {| receiptBlockNumber := 100 |} 112 "key").
  - intros op. reflexivity.
  - discriminate.
  - reflexivity.
  - reflexivity.
  - simpl. lia.
  - reflexivity.
  - reflexivity.
  - apply pendingDeposits_lookup. split; [reflexivity|].
    split; [right|]; reflexivity.
  - reflexivity.
  - intros id' d' Hp Hne. apply pendingDeposits_lookup in Hp as [Hp _].
    simpl in Hp. apply lookup_singleton_Some in Hp as [<- _]. contradiction.
Defined.

End LedgerFacts.

(** * Replies that decline a request *)

Module ReplyFacts.
Import Text OrderlyErrors OrderlyApi ApiSpec.
Import ApiFacts.

(** C6 fails on the code.  The list of non-retryable codes is consulted
    only for answers that reach the loop as axios errors.  A 2xx answer
    with [success: false] is turned into an error inside the [try] block;
    the [catch] block takes it for anything but an axios error, remembers
    it and goes on to the backoff.  So whatever the code, the five
    non-retryable ones included, such an answer is retried until the
    attempts are used up: with [retries] retries allowed the call makes
    [retries + 1] attempts and sleeps after all but the last.  The same
    five codes in the body of an HTTP error end the call at the first
    attempt. *)
Theorem declined_reply_is_retried {T : Type} (retries : nat) (code : Z)
    (message : string) :
  let r := request (T := T) (Z.of_nat retries) (fun _ => Declined code message) in
  attempts r = S retries /\
  delays r = (fun k => Z.min (1000 * 2 ^ k) 10000) <$> seqZ 0 (Z.of_nat retries) /\
  outcome r = Threw (Some (ApiError (createOrderlyError code message))) /\
  Forall (fun c =>
            isRetryableError c = false /\
            request (T := T) 3 (fun _ => HttpError (Some c) (Some "rejected"))
            = {| outcome := Threw (Some (ApiError (createOrderlyError c "rejected")));
                 attempts := 1; delays := [] |} /\
            request (T := T) 3 (fun _ => Declined c "rejected")
            = {| outcome := Threw (Some (ApiError (createOrderlyError c "rejected")));
                 attempts := 4; delays := [1000; 2000; 4000] |})
    [INVALID_SIGNATURE; UNAUTHORIZED; INVALID_PARAM; UNKNOWN_PARAM; DUPLICATE_REQUEST].
Proof.
  intros r.
  destruct (loop_spec (Z.of_nat retries) (fun _ : Z => Declined (T := T) code message)
              (Z.to_nat (Z.of_nat retries + 1)) 0 None ltac:(lia) ltac:(lia))
    as (Hbound & Hdel & _ & Hlast).
  fold (request (Z.of_nat retries) (fun _ : Z => Declined (T := T) code message))
    in Hbound, Hdel, Hlast.
  fold r in Hbound, Hdel, Hlast.
  unfold lastPass in Hlast. cbn [classify] in Hlast. destruct Hlast as [Hall Hout].
  assert (Hn : attempts r = S retries) by lia.
  split_and!.
  - exact Hn.
  - rewrite Hdel, Hn. replace (Z.of_nat (S retries) - 1) with (Z.of_nat retries) by lia.
    reflexivity.
  - exact Hout.
  - repeat (constructor; [split_and!; reflexivity|]). constructor.
Qed.

End ReplyFacts.

(** * The signature header, read back *)

Module SignatureFacts.
Import Text Json Base64 OrderlyAuth TextSpec ClientScenarios WalletSpec.
Import Base64Facts JsonFacts OrderlyWalletFacts.

(** The reader of base64 takes the URL-safe alphabet as well. *)
Lemma urlDigit_value n :
  0 <= n < 64 ->
  valueOf (digit urlAlphabet n) = Some n /\ digit urlAlphabet n <> "="%char.
Proof.
  assert (H : forallb (fun n =>
                 match valueOf (digit urlAlphabet n) with
                 | Some v => Z.eqb v n
                 | None => false
                 end && negb (Ascii.eqb (digit urlAlphabet n) "="))
                (seqZ 0 64) = true) by (vm_compute; reflexivity).
  intros Hn. rewrite forallb_forall in H.
  specialize (H n). rewrite <- list_elem_of_In, elem_of_seqZ in H.
  specialize (H ltac:(lia)). apply andb_true_iff in H as [Hv Hne].
  split.
  - destruct (valueOf (digit urlAlphabet n)) as [v|]; [|discriminate].
    apply Z.eqb_eq in Hv. by subst v.
  - apply negb_true_iff in Hne. by apply Ascii.eqb_neq.
Qed.

Lemma sextetsOf_urlDigit n rest :
  0 <= n < 64 ->
  sextetsOf (String (digit urlAlphabet n) rest) = n :: sextetsOf rest.
Proof.
  intros Hn. destruct (urlDigit_value n Hn) as (Hv & Hne).
  simpl. apply Ascii.eqb_neq in Hne. rewrite Hne, Hv. reflexivity.
Qed.

(** The unpadded URL-safe text is read back byte for byte. *)
Lemma fromBase64_base64url bytes : fromBase64 (base64url bytes) = bytes.
Proof.
  unfold fromBase64, base64url.
  induction bytes as [|a|a b|a b c rest IH] using list_ind3.
  - reflexivity.
  - pose proof (byteZ_range a) as Ha. cbn [encodeWith].
    rewrite !sextetsOf_urlDigit
      by (apply sextet1_range || apply sextet2_range; lia).
    simpl. rewrite regroup1, ofZ_byteZ by lia. reflexivity.
  - pose proof (byteZ_range a) as Ha. pose proof (byteZ_range b) as Hb.
    cbn [encodeWith].
    rewrite !sextetsOf_urlDigit
      by (apply sextet1_range || apply sextet2_range || apply sextet3_range; lia).
    simpl. rewrite regroup2, (regroup3 _ _ 0), !ofZ_byteZ by lia. reflexivity.
  - pose proof (byteZ_range a) as Ha. pose proof (byteZ_range b) as Hb.
    pose proof (byteZ_range c) as Hc. cbn [encodeWith].
    rewrite !sextetsOf_urlDigit
      by (apply sextet1_range || apply sextet2_range || apply sextet3_range
          || apply sextet4_range; lia).
    cbn [bytesOf]. rewrite IH.
    rewrite regroup2, regroup3, regroup4, !ofZ_byteZ by lia. reflexivity.
Qed.

Lemma chars_inj s t : chars s = chars t -> s = t.
Proof.
  revert t. induction s as [|c s IH]; intros [|d t] H; try discriminate.
  - reflexivity.
  - cbn [chars] in H. injection H as -> H. f_equal. exact (IH t H).
Qed.

(** A text between the same two texts. *)
Lemma between_inj before after s t :
  before ++ s ++ after = before ++ t ++ after -> s = t.
Proof.
  intros H. apply (f_equal chars) in H. rewrite !chars_app in H.
  apply app_inv_head in H. apply app_inv_tail in H. by apply chars_inj.
Qed.

Lemma list_byte_of_string_inj s t :
  list_byte_of_string s = list_byte_of_string t -> s = t.
Proof.
  intros H. apply (f_equal string_of_list_byte) in H.
  by rewrite !string_of_list_byte_of_string in H.
Qed.

(** What [signMessage] returns is the URL-safe unpadded text of the bytes
    the primitive returned for the bytes of the message under the signer's
    key. *)
Lemma signMessage_text ed25519_sign self message :
  signMessage ed25519_sign self message
  = base64url (ed25519_sign (list_byte_of_string message) (privateKey self)).
Proof. unfold signMessage. cbv zeta. apply urlSafe_toBase64. Qed.

(** C8.  The signature header is a function of the timestamp, the method,
    the path, the body and the private key.  Two runs that agree on these
    put the same text in the header, whatever their account id, key name,
    receive window and second reading of the clock are.  The text is the
    URL-safe unpadded base64 of the bytes that the primitive returned for
    the bytes of the canonical string under the private key: read back as
    base64 it gives exactly those bytes, so the header of another message
    is the same text only if the primitive returned the same bytes for it.
    Another path gives another canonical string and other message
    bytes. *)
Theorem signature_deterministic
    (ed25519_sign : list Byte.byte -> list Byte.byte -> list Byte.byte)
    (self self' : Signer) (ts clock2 clock2' : Z) (m : Method) (p : string)
    (requestBody : option json) (recvWindow recvWindow' : option Z)
    (headers headers' : OrderlyAuthHeaders) :
  privateKey self = privateKey self' ->
  generateAuthHeaders ed25519_sign self ts clock2 m p requestBody recvWindow
    = Ok headers ->
  generateAuthHeaders ed25519_sign self' ts clock2' m p requestBody recvWindow'
    = Ok headers' ->
  let signed :=
    ed25519_sign (list_byte_of_string (canonicalOf ts m p requestBody))
      (privateKey self) in
  orderlySignature headers = orderlySignature headers' /\
  orderlySignature headers = base64url signed /\
  fromBase64 (orderlySignature headers) = signed /\
  (forall message,
     signMessage ed25519_sign self message = orderlySignature headers <->
     ed25519_sign (list_byte_of_string message) (privateKey self) = signed) /\
  (forall p', p' <> p ->
     canonicalOf ts m p' requestBody <> canonicalOf ts m p requestBody /\
     list_byte_of_string (canonicalOf ts m p' requestBody)
       <> list_byte_of_string (canonicalOf ts m p requestBody)).
Proof.
  intros Hkey H1 H2 signed. unfold generateAuthHeaders in H1, H2.
  destruct (validateTimestamp clock2 ts) as [[]|e1]; [|discriminate].
  destruct (validateTimestamp clock2' ts) as [[]|e2]; [|discriminate].
  injection H1 as <-. injection H2 as <-. cbn [orderlySignature].
  rewrite !signMessage_text, <- Hkey. fold signed.
  split_and!.
  - reflexivity.
  - reflexivity.
  - apply fromBase64_base64url.
  - intros message. rewrite signMessage_text. split.
    + intros H. apply (f_equal fromBase64) in H.
      by rewrite !fromBase64_base64url in H.
    + intros ->. reflexivity.
  - intros p' Hp.
    assert (Hc : canonicalOf ts m p' requestBody <> canonicalOf ts m p requestBody).
    { unfold canonicalOf, constructCanonicalString. cbn [timestamp method path body].
      intros H. apply Hp.
      rewrite <- !(append_assoc (showZ ts) (methodName m)) in H.
      exact (between_inj _ _ _ _ H). }
    split; [exact Hc|]. intros H. apply Hc. by apply list_byte_of_string_inj.
Qed.

Lemma signature_deterministic_witness :
  exists headers headers',
    generateAuthHeaders markWith signer0 1700000000000 1700000000002 POST
      "/v1/order" (Some orderBody) None = Ok headers /\
    generateAuthHeaders markWith signer1 1700000000000 1700000000250 POST
      "/v1/order" (Some orderBody) (Some 5000) = Ok headers' /\
    orderlySignature headers = orderlySignature headers' /\
    orderlySignature headers
      = base64url (markWith
          (list_byte_of_string
             (canonicalOf 1700000000000 POST "/v1/order" (Some orderBody)))
          (privateKey signer0)) /\
    fromBase64 (orderlySignature headers)
      = markWith
          (list_byte_of_string
             (canonicalOf 1700000000000 POST "/v1/order" (Some orderBody)))
          (privateKey signer0) /\
    (forall message,
       signMessage markWith signer0 message = orderlySignature headers <->
       markWith (list_byte_of_string message) (privateKey signer0)
       = markWith
           (list_byte_of_string
              (canonicalOf 1700000000000 POST "/v1/order" (Some orderBody)))
           (privateKey signer0)) /\
    (forall p', p' <> "/v1/order" ->
       canonicalOf 1700000000000 POST p' (Some orderBody)
         <> canonicalOf 1700000000000 POST "/v1/order" (Some orderBody) /\
       list_byte_of_string (canonicalOf 1700000000000 POST p' (Some orderBody))
         <> list_byte_of_string
              (canonicalOf 1700000000000 POST "/v1/order" (Some orderBody))).
Proof.
  eexists _, _. split; [reflexivity|]. split; [reflexivity|].
  apply (signature_deterministic markWith signer0 signer1 1700000000000
           1700000000002 1700000000250 POST "/v1/order" (Some orderBody)
           None (Some 5000)); reflexivity.
Defined.

End SignatureFacts.

(** * The worker, tick after tick *)

Module TickFacts.
Import Chain Deposits DepositSpec LedgerSpec Ticks TickSpec.
Import Scenarios TickScenarios DepositFacts LedgerFacts.

(** ** Assertions that change along a computation *)

#[local] Instance stable_refl Q : Reflexive (stable Q).
Proof. intros a H. exact H. Qed.

#[local] Instance stable_trans Q : Transitive (stable Q).
Proof. intros a b c Hab Hbc H. exact (Hbc (Hab H)). Qed.

Section Sequencing.
Context (P : Event -> Prop) (Q1 Q2 Q3 : Db -> Prop).

Lemma seq_bind {A B} (m : M A) (k : A -> M B) :
  preserves (fun a b => Q1 a -> Q2 b) P m ->
  (forall v, preserves (fun a b => Q2 a -> Q3 b) P (k v)) ->
  (forall db, Q2 db -> Q3 db) ->
  preserves (fun a b => Q1 a -> Q3 b) P (bind m k).
Proof.
  intros Hm Hk Hsub db. specialize (Hm db).
  unfold exec, trace, bind in *.
  destruct (m db) as [[[a|e] db1] t1]; simpl in *.
  - specialize (Hk a db1). unfold exec, trace in Hk.
    destruct (k a db1) as [[r db2] t2]; simpl in *.
    destruct Hm as [HI1 HP1], Hk as [HI2 HP2]. split; [auto|].
    apply Forall_app; split; assumption.
  - destruct Hm as [HI1 HP1]. split; [auto|assumption].
Qed.

Lemma seq_tryCatch {A} (m : M A) (h : string -> M A) :
  preserves (fun a b => Q1 a -> Q2 b) P m ->
  (forall e, preserves (fun a b => Q2 a -> Q3 b) P (h e)) ->
  (forall db, Q2 db -> Q3 db) ->
  preserves (fun a b => Q1 a -> Q3 b) P (tryCatch m h).
Proof.
  intros Hm Hh Hsub db. specialize (Hm db).
  unfold exec, trace, tryCatch in *.
  destruct (m db) as [[[a|e] db1] t1]; simpl in *.
  - destruct Hm as [HI1 HP1]. split; [auto|assumption].
  - specialize (Hh e db1). unfold exec, trace in Hh.
    destruct (h e db1) as [[r db2] t2]; simpl in *.
    destruct Hm as [HI1 HP1], Hh as [HI2 HP2]. split; [auto|].
    apply Forall_app; split; assumption.
Qed.

Lemma seq_weaken {A} (m : M A) :
  preserves (fun a b => Q1 a -> Q2 b) P m ->
  (forall db, Q2 db -> Q3 db) ->
  preserves (fun a b => Q1 a -> Q3 b) P m.
Proof. intros Hm Hsub db. destruct (Hm db) as [HI HP]. split; auto. Qed.

End Sequencing.

(** ** The retry count of a record while it is processed *)

Lemma count_or_failed id r db : keepsCount id r db -> countOrFailed id r db.
Proof. intros (x & Hx & Hr). exists x. auto. Qed.

Lemma alter_keepsCount id r f (db : Db) :
  (forall x, retryCount (f x) = retryCount x) ->
  keepsCount id r db ->
  keepsCount id r
    {| deposits := alter f id (deposits db); users := users db;
       platform_wallets := platform_wallets db |}.
Proof.
  intros Hf (x & Hx & Hr). exists (f x). simpl.
  rewrite lookup_alter_eq, Hx. split; [reflexivity|]. by rewrite Hf.
Qed.

(** The confirmation update keeps the count. *)
Lemma refreshConfirmations_count w id r x confs :
  preserves (stable (keepsCount id r)) noAlert (refreshConfirmations w id x confs).
Proof.
  unfold refreshConfirmations, updateDepositStatus, updateDoc, setDeposits, call.
  walk.
  all: try (intros j k; discriminate).
  all: intros H; apply alter_keepsCount; [intros y; reflexivity | exact H].
Qed.

(** So does the [try] block of the crediting step. *)
Lemma creditDeposit_count w id r x :
  preserves (stable (keepsCount id r)) noAlert (creditDeposit w id x).
Proof.
  unfold creditDeposit, updateDepositStatus, creditUserDeposit, getUserById,
    updateDoc, setDeposits, call.
  walk.
  all: try (intros j k; discriminate).
  - intros (y & Hy & Hr). exists y. simpl. auto.
  - intros H; apply alter_keepsCount; [intros y; reflexivity | exact H].
Qed.

(** The [catch] block changes the count, and marks the record [failed]
    with it; below three failures it raises no alert. *)
Lemma creditFailed_count w id x message :
  retryCount x < 3 ->
  preserves (fun a b => keepsCount id (retryCount x) a ->
                        countOrFailed id (retryCount x) b)
    noAlert (creditFailed w id x message).
Proof.
  intros Hlt db. unfold exec, trace, creditFailed, updateDepositStatus, updateDoc.
  unfold_monad.
  destruct (firestore w (OpUpdateDepositStatus id failed)) as [[]|e]; simpl.
  2:{ split; [apply count_or_failed | constructor]. }
  destruct (deposits db !! id) as [y|] eqn:Hy; simpl.
  2:{ split; [apply count_or_failed | constructor]. }
  destruct (decide (3 <= retryCount x)) as [Hge|_]; [lia|]. simpl.
  split; [|constructor].
  intros _.
  exists (applyUpdate w failed (SetFailure message (retryCount x + 1)) y). simpl.
  rewrite lookup_alter_eq, Hy. split; [reflexivity|]. right. reflexivity.
Qed.

Lemma emit_error_stable Q e : preserves (stable Q) noAlert (emit (LogError e)).
Proof.
  intros db. split; [intros H; exact H|].
  repeat constructor. intros j k. discriminate.
Qed.

(** One pass of the crediting loop over a record that has failed fewer
    than three times: afterwards its count is what it was, or the record
    is [failed]; no alert is raised. *)
Lemma processDeposit_count w id x :
  retryCount x < 3 ->
  preserves (fun a b => keepsCount id (retryCount x) a ->
                        countOrFailed id (retryCount x) b)
    noAlert (processDeposit w (id, x)).
Proof.
  intros Hlt. unfold processDeposit. cbn [fst snd].
  set (r := retryCount x).
  assert (Hret : preserves (fun a b => keepsCount id r a -> countOrFailed id r b)
                   noAlert (ret tt)).
  { intros db. split; [apply count_or_failed | constructor]. }
  apply (seq_tryCatch noAlert _ (countOrFailed id r) _).
  - destruct (decide (userId x = "")); [exact Hret|].
    destruct (getTransaction (rpc w) (depTxHash x)) as [tx|]; [|exact Hret].
    apply (seq_bind noAlert _ (keepsCount id r) _).
    + intros db. split; [intros H; exact H | constructor].
    + intros currentBlock.
      apply (seq_bind noAlert _ (keepsCount id r) _).
      * apply refreshConfirmations_count.
      * intros _. destruct (decide _).
        -- apply (seq_tryCatch noAlert _ (keepsCount id r) _).
           ++ apply creditDeposit_count.
           ++ intros e. apply creditFailed_count. exact Hlt.
           ++ apply count_or_failed.
        -- intros db. split; [apply count_or_failed | constructor].
      * apply count_or_failed.
    + apply count_or_failed.
  - intros e. apply (emit_error_stable (countOrFailed id r)).
  - auto.
Qed.

(** The loop over pending deposits that have all failed fewer than three
    times. *)
Lemma loop_count w (l : list (string * Deposit)) : forall db,
  NoDup l.*1 ->
  (forall id x, (id, x) ∈ l -> deposits db !! id = Some x /\ retryCount x < 3) ->
  exists db' t,
    forOf l (processDeposit w) db = (Ok tt, db', t) /\
    Forall noAlert t /\
    (forall id, id ∉ l.*1 -> deposits db' !! id = deposits db !! id) /\
    (forall id x, (id, x) ∈ l -> countOrFailed id (retryCount x) db').
Proof.
  induction l as [|[id x] l IH]; intros db Hnd Hl.
  - exists db, []. split_and!; try done. intros id x Hin. by apply elem_of_nil in Hin.
  - rewrite fmap_cons in Hnd. apply NoDup_cons in Hnd as [Hid Hnd]. simpl in Hid.
    destruct (Hl id x ltac:(left)) as [Hx Hlt].
    pose proof (tryCatch_log_ok
                  (if decide (userId x = "") then ret tt
                   else
                     match getTransaction (rpc w) (depTxHash x) with
                     | None => ret tt
                     | Some tx =>
                         do currentBlock <- lift (getCurrentBlock (rpc w));
                         run refreshConfirmations w id x
                               (currentBlock - receiptBlockNumber tx);
                         if decide (requiredConfirmations x
                                      <= currentBlock - receiptBlockNumber tx
                                    /\ orderlyConfirmed x = false)
                         then tryCatch (creditDeposit w id x) (creditFailed w id x)
                         else ret tt
                     end) LogError db) as Hown.
    change (tryCatch _ _ db) with (processDeposit w (id, x) db) in Hown.
    pose proof (processDeposit_count w id x Hlt db) as [Hcount Halert].
    assert (Hothers : forall j, j <> id ->
              deposits (exec (processDeposit w (id, x)) db) !! j = deposits db !! j).
    { intros j Hj.
      destruct (processDeposit_frame w j (id, x) ltac:(simpl; congruence) db)
        as [[Hd _] _]. exact Hd. }
    unfold exec, trace in Hcount, Halert, Hothers.
    destruct (processDeposit w (id, x) db) as [[r db1] t1] eqn:Hrun.
    simpl in Hown, Hcount, Halert, Hothers. subst r.
    destruct (IH db1 Hnd) as (db' & t & Hloop & Ht & Hkeep & Hall).
    { intros j y Hin.
      assert (Hj : j <> id).
      { intros ->. apply Hid. apply list_elem_of_fmap. exists (id, y). auto. }
      rewrite (Hothers j Hj). apply Hl. by right. }
    exists db', (t1 ++ t)%list. split_and!.
    + simpl. erewrite bind_Ok by exact Hrun. rewrite Hloop. reflexivity.
    + apply Forall_app; split; assumption.
    + intros j Hj. rewrite fmap_cons in Hj. apply not_elem_of_cons in Hj as [Hj1 Hj2].
      rewrite (Hkeep j Hj2). apply Hothers. exact Hj1.
    + intros j y Hin. apply elem_of_cons in Hin as [Heq|Hin].
      * injection Heq as -> ->.
        destruct (Hcount (ex_intro _ x (conj Hx eq_refl))) as (x1 & Hx1 & Hc).
        exists x1. rewrite (Hkeep id Hid). auto.
      * apply Hall. exact Hin.
Qed.

(** A crediting tick keeps the retry counts of the pending deposits below
    three, and raises no alert. *)
Lemma processPending_fewRetries w db :
  fewRetries db ->
  fewRetries (exec (processPendingDeposits w) db) /\
  Forall noAlert (trace (processPendingDeposits w) db).
Proof.
  intros Hfew.
  unfold exec, trace, processPendingDeposits, getPendingDeposits, call.
  unfold_monad.
  destruct (firestore w OpGetPendingDeposits) as [[]|e]; simpl.
  2:{ split; [exact Hfew|]. repeat constructor. intros j k. discriminate. }
  pose proof (NoDup_fst_map_to_list (filter isPendingDeposit (deposits db))) as Hnd.
  fold (pendingDeposits db) in Hnd.
  destruct (loop_count w (pendingDeposits db) db Hnd)
    as (db' & t & Hloop & Ht & Hkeep & Hall).
  { intros id x Hin. split; [|exact (Hfew id x Hin)].
    by apply pendingDeposits_lookup in Hin as [Hx _]. }
  rewrite Hloop. simpl. split; [|exact Ht].
  intros id x' Hin. apply pendingDeposits_lookup in Hin as [Hx' Hpend].
  destruct (decide (id ∈ (pendingDeposits db).*1)) as [Hi|Hi].
  - apply list_elem_of_fmap in Hi as ([i x] & Hi & Hx). simpl in Hi. subst i.
    destruct (Hall id x Hx) as (x1 & Hx1 & [Hc|Hf]).
    + assert (x1 = x') as -> by congruence. rewrite Hc. exact (Hfew id x Hx).
    + assert (x1 = x') as -> by congruence.
      destruct Hpend as [[Hp|Hp] _]; simpl in Hp; congruence.
  - rewrite (Hkeep id Hi) in Hx'. apply (Hfew id x').
    apply pendingDeposits_lookup. split; assumption.
Qed.

(** ** What a scan leaves of the records *)

Lemma scan_records w db id x :
  deposits (exec (scanForNewDeposits w) db) !! id = Some x ->
  deposits db !! id = Some x \/
  (deposits db !! id = None /\
   exists addr cur t, x = recordOf w addr cur t).
Proof.
  destruct (scan_deposits w db) as [_ [Hsame|(wid & wallet & cur & _ & _ & Hd)]].
  - rewrite Hsame. auto.
  - rewrite Hd.
    destruct (record_loop_spec w (address wallet) cur
                (scanForDeposits (rpc w) (address wallet)
                   (lastScannedBlock wallet + 1) (Some cur)) db)
      as (db1 & t1 & Hloop & _ & _ & Hkeep & Hnew & _).
    unfold exec. rewrite Hloop. simpl. intros Hx.
    destruct (deposits db !! id) as [y|] eqn:Hy.
    + left. rewrite (Hkeep id y Hy) in Hx. exact Hx.
    + right. split; [reflexivity|].
      destruct (Hnew id x Hy Hx) as (t & _ & _ & ->). eauto.
Qed.

Lemma scan_keeps_record w db id x :
  deposits db !! id = Some x ->
  deposits (exec (scanForNewDeposits w) db) !! id = Some x.
Proof.
  intros Hx.
  destruct (scan_deposits w db) as [_ [Hsame|(wid & wallet & cur & _ & _ & Hd)]].
  - by rewrite Hsame.
  - rewrite Hd.
    destruct (record_loop_spec w (address wallet) cur
                (scanForDeposits (rpc w) (address wallet)
                   (lastScannedBlock wallet + 1) (Some cur)) db)
      as (db1 & t1 & Hloop & _ & _ & Hkeep & _).
    unfold exec. rewrite Hloop. simpl. by apply Hkeep.
Qed.

Lemma scan_no_alert w :
  preserves (stable (fun _ => True)) noAlert (scanForNewDeposits w).
Proof.
  unfold scanForNewDeposits, getPlatformWallet, updatePlatformWalletBlock,
    recordTransfer, getDepositByTxHash, createDeposit, updateDoc, setDeposits, call.
  walk.
  all: try (intros j k; discriminate).
  all: intros _; exact I.
Qed.

Lemma scan_fewRetries w db :
  fewRetries db ->
  fewRetries (exec (scanForNewDeposits w) db) /\
  Forall noAlert (trace (scanForNewDeposits w) db).
Proof.
  intros Hfew. split; [|exact (proj2 (scan_no_alert w db))].
  intros id x Hin. apply pendingDeposits_lookup in Hin as [Hx Hpend].
  destruct (scan_records w db id x Hx) as [Hold|(_ & addr & cur & t & ->)].
  - apply (Hfew id x). apply pendingDeposits_lookup. split; assumption.
  - simpl. lia.
Qed.

(** ** Whole ticks *)

Lemma monitorDeposits_run w db :
  monitorDeposits w db
  = (Ok tt,
     exec (processPendingDeposits w) (exec (scanForNewDeposits w) db),
     (trace (scanForNewDeposits w) db
        ++ trace (processPendingDeposits w) (exec (scanForNewDeposits w) db))%list).
Proof.
  unfold monitorDeposits, bind, exec, trace.
  pose proof (tryCatch_log_ok
                (do platformWallet <- getPlatformWallet w;
                 match platformWallet with
                 | None => emit (LogError "Platform wallet not configured!")
                 | Some (walletId, wallet) =>
                     do currentBlock <- lift (getCurrentBlock (rpc w));
                     if decide (lastScannedBlock wallet + 1 > currentBlock) then ret tt
                     else
                       run emit (LogScanning (lastScannedBlock wallet + 1) currentBlock);
                       run forOf (scanForDeposits (rpc w) (address wallet)
                                    (lastScannedBlock wallet + 1) (Some currentBlock))
                             (recordTransfer w (address wallet) currentBlock);
                       updatePlatformWalletBlock w walletId currentBlock
                 end) LogError db) as Hscan.
  fold (scanForNewDeposits w) in Hscan.
  destruct (scanForNewDeposits w db) as [[r db1] t1]. simpl in Hscan. subst r. simpl.
  pose proof (tryCatch_log_ok
                (do pendingList <- getPendingDeposits w;
                 forOf pendingList (processDeposit w)) LogError db1) as Hproc.
  fold (processPendingDeposits w) in Hproc.
  destruct (processPendingDeposits w db1) as [[r db2] t2]. simpl in Hproc. subst r.
  reflexivity.
Qed.

Lemma tick_fewRetries w db :
  fewRetries db ->
  fewRetries (exec (monitorDeposits w) db) /\
  Forall noAlert (trace (monitorDeposits w) db).
Proof.
  intros Hfew. unfold exec, trace. rewrite monitorDeposits_run. simpl.
  destruct (scan_fewRetries w db Hfew) as [Hfew1 Ht1].
  destruct (processPending_fewRetries w _ Hfew1) as [Hfew2 Ht2].
  split; [exact Hfew2|]. apply Forall_app; split; assumption.
Qed.

(** From a store whose pending deposits have failed fewer than three
    times, no run of ticks raises an alert. *)
Lemma runs_no_alert worlds : forall db,
  fewRetries db -> Forall noAlert (runs monitorDeposits worlds db).2.
Proof.
  induction worlds as [|w worlds IH]; intros db Hfew; simpl; [constructor|].
  destruct (tick_fewRetries w db Hfew) as [Hfew1 Ht1].
  specialize (IH _ Hfew1).
  destruct (runs monitorDeposits worlds (exec (monitorDeposits w) db)) as [db2 t2].
  simpl in *. apply Forall_app; split; assumption.
Qed.

(** A record outside the pending set is never touched again. *)
Lemma tick_keeps_parked w db id x :
  deposits db !! id = Some x -> ~ isPendingDeposit (id, x) ->
  deposits (exec (monitorDeposits w) db) !! id = Some x.
Proof.
  intros Hx Hnp. unfold exec. rewrite monitorDeposits_run. simpl.
  pose proof (scan_keeps_record w db id x Hx) as Hx1.
  rewrite not_pending_untouched; [exact Hx1|].
  intros Hc. apply list_elem_of_fmap in Hc as ([i y] & Hi & Hy).
  simpl in Hi. subst i. apply pendingDeposits_lookup in Hy as [Hy Hp].
  assert (y = x) as -> by congruence. contradiction.
Qed.

Lemma runs_keep_parked worlds : forall db id x,
  deposits db !! id = Some x -> ~ isPendingDeposit (id, x) ->
  deposits (runs monitorDeposits worlds db).1 !! id = Some x.
Proof.
  induction worlds as [|w worlds IH]; intros db id x Hx Hnp; simpl; [exact Hx|].
  specialize (IH _ id x (tick_keeps_parked w db id x Hx Hnp) Hnp).
  destruct (runs monitorDeposits worlds (exec (monitorDeposits w) db)) as [db2 t2].
  exact IH.
Qed.

(** C2 fails on the code.  The venue rejects the credit of alice's
    confirmed deposit.  The tick has credited her ledger balance, marks the
    record [failed] with [retryCount] 1 and raises no alert; the record is
    not [confirmed] any more and the query for pending deposits no longer
    returns it.  Whatever the worlds of the later ticks are, the record
    stays as it is: the credit is never tried again, the count never
    passes 1.  The alert needs a pending record that has already failed
    three times (as the one put back by hand), and no run of ticks makes
    one: from a store whose pending deposits have failed fewer than three
    times, no tick ever raises an alert. *)
Theorem failed_credit_is_never_retried :
  let db1 := exec (monitorDeposits mirrorDown) ledger0 in
  (status <$> deposits ledger0 !! "d1" = Some confirmed /\
   retryCount <$> deposits ledger0 !! "d1" = Some 0) /\
  (status <$> deposits db1 !! "d1" = Some failed /\
   retryCount <$> deposits db1 !! "d1" = Some 1 /\
   errorMessage <$> deposits db1 !! "d1"
     = Some (Some "Orderly credit error: unavailable") /\
   orderlyConfirmed <$> deposits db1 !! "d1" = Some false /\
   internalBalance <$> users db1 !! "u1" = Some 100%Q /\
   pendingDeposits db1 = [] /\
   trace (monitorDeposits mirrorDown) ledger0
     = [LogScanning 100 112; LogCreditedInternal "u1" 100%Q]) /\
  (forall later : list World,
     deposits (runs monitorDeposits later db1).1 !! "d1" = deposits db1 !! "d1" /\
     Forall noAlert (runs monitorDeposits later db1).2) /\
  (forall (db : Db) (later : list World),
     fewRetries db -> Forall noAlert (runs monitorDeposits later db).2) /\
  (retryCount <$> deposits ledger3 !! "d1" = Some 3 /\
   LogAlert "d1" 4 ∈ trace (processPendingDeposits mirrorDown) ledger3).
Proof.
  intros db1.
  assert (Hrun : exists dbv trv x,
            monitorDeposits mirrorDown ledger0 = (Ok tt, dbv, trv) /\
            deposits dbv !! "d1" = Some x /\
            (status x = failed /\ retryCount x = 1 /\
             errorMessage x = Some "Orderly credit error: unavailable" /\
             orderlyConfirmed x = false) /\
            internalBalance <$> users dbv !! "u1" = Some 100%Q /\
            pendingDeposits dbv = [] /\
            trv = [LogScanning 100 112; LogCreditedInternal "u1" 100%Q]).
  { eexists _, _, _. split; [vm_compute; reflexivity|].
    split; [vm_compute; reflexivity|].
    split; [split_and!; reflexivity|].
    split_and!; vm_compute; reflexivity. }
  destruct Hrun as (dbv & trv & x & Hrun & Hx & (Hst & Hrc & Hem & Hoc) & Hbal & Hnone & Htr).
  assert (Hdb : db1 = dbv) by (unfold db1, exec; rewrite Hrun; reflexivity).
  assert (Htrace : trace (monitorDeposits mirrorDown) ledger0 = trv)
    by (unfold trace; rewrite Hrun; reflexivity).
  rewrite Htrace. clearbody db1. subst db1. clear Hrun Htrace.
  split; [split|split; [split_and!|split; [|split; [|split]]]].
  - reflexivity.
  - reflexivity.
  - by rewrite Hx; simpl; rewrite Hst.
  - by rewrite Hx; simpl; rewrite Hrc.
  - by rewrite Hx; simpl; rewrite Hem.
  - by rewrite Hx; simpl; rewrite Hoc.
  - exact Hbal.
  - exact Hnone.
  - exact Htr.
  - intros later. split.
    + rewrite Hx. apply runs_keep_parked; [exact Hx|].
      intros [[Hp|Hp] _]; simpl in Hp; congruence.
    + apply runs_no_alert. intros id y Hin. rewrite Hnone in Hin.
      apply elem_of_nil in Hin. destruct Hin.
  - intros db later. apply runs_no_alert.
  - reflexivity.
  - assert (Ht : trace (processPendingDeposits mirrorDown) ledger3
                 = [LogCreditedInternal "u1" 100%Q; LogAlert "d1" 4])
      by (vm_compute; reflexivity).
    rewrite Ht. apply elem_of_cons. right. apply elem_of_cons. left. reflexivity.
Qed.

End TickFacts.

(** * The cursor after a scan that failed *)

Module CursorFacts.
Import Chain Deposits DepositSpec LedgerSpec Ticks TickSpec.
Import Scenarios TickScenarios DepositFacts LedgerFacts TickFacts.

(** Every transfer of a scan is one of the logs the node returned. *)
Lemma mapEvents_blocks dec events ts :
  mapEvents dec events = Ok ts ->
  forall t, t ∈ ts -> exists e, e ∈ events /\ blockNumber t = logBlockNumber e.
Proof.
  revert ts. induction events as [|e events IH]; intros ts H t Hin.
  - injection H as <-. by apply elem_of_nil in Hin.
  - simpl in H. destruct (args e) as [[sender value]|]; [|discriminate].
    destruct (mapEvents dec events) as [ts'|]; [|discriminate].
    injection H as <-. apply elem_of_cons in Hin as [->|Hin].
    + exists e. split; [left|reflexivity].
    + destruct (IH ts' eq_refl t Hin) as (e' & He' & Hb).
      exists e'. split; [by right|exact Hb].
Qed.

(** What an honest node returns for a range lies in the range. *)
Lemma scanForDeposits_from node platformAddress fromBlock toBlock t :
  honest node ->
  t ∈ scanForDeposits node platformAddress fromBlock toBlock ->
  fromBlock <= blockNumber t.
Proof.
  intros Hhonest. unfold scanForDeposits, scanForDeposits_try.
  destruct (match toBlock with
            | Some t0 => if decide (t0 = 0) then getCurrentBlock node else Ok t0
            | None => getCurrentBlock node
            end) as [cur|]; [|intros H; by apply elem_of_nil in H].
  destruct (queryFilter node platformAddress fromBlock cur) as [events|] eqn:Hq;
    [|intros H; by apply elem_of_nil in H].
  destruct (decimals node) as [dec|]; [|intros H; by apply elem_of_nil in H].
  destruct (mapEvents dec events) as [ts|] eqn:Hm;
    [|intros H; by apply elem_of_nil in H].
  intros Hin. destruct (mapEvents_blocks dec events ts Hm t Hin) as (e & He & ->).
  pose proof (Hhonest _ _ _ _ Hq) as Hall. rewrite Forall_forall in Hall.
  apply (Hall e He).
Qed.

(** The store after a scan: as it was, or with the records of the loop
    over what the node returned for the blocks after the cursor, and the
    cursor at the current block or where it was. *)
Lemma scan_step w db :
  (deposits (exec (scanForNewDeposits w) db) = deposits db /\
   platform_wallets (exec (scanForNewDeposits w) db) = platform_wallets db) \/
  exists wid wallet cur db1 t1,
    arbitrumWallet db = Some (wid, wallet) /\
    getBlockNumber (rpc w) = Ok cur /\
    lastScannedBlock wallet + 1 <= cur /\
    forOf (scanForDeposits (rpc w) (address wallet)
             (lastScannedBlock wallet + 1) (Some cur))
      (recordTransfer w (address wallet) cur) db = (Ok tt, db1, t1) /\
    deposits (exec (scanForNewDeposits w) db) = deposits db1 /\
    (platform_wallets (exec (scanForNewDeposits w) db) = platform_wallets db \/
     platform_wallets (exec (scanForNewDeposits w) db)
     = alter (fun pw => {| address := address pw; network := network pw;
                           lastScannedBlock := cur |}) wid (platform_wallets db)).
Proof.
  unfold exec, scanForNewDeposits, getPlatformWallet,
    updatePlatformWalletBlock, updateDoc, getCurrentBlock.
  unfold_monad.
  destruct (firestore w OpGetPlatformWallet) as [[]|e0]; simpl; [|auto].
  destruct (arbitrumWallet db) as [[wid wallet]|] eqn:Hq; simpl; [|auto].
  destruct (getBlockNumber (rpc w)) as [cur|e1] eqn:Hcur; simpl; [|auto].
  destruct (decide (lastScannedBlock wallet + 1 > cur)); simpl; [auto|].
  destruct (record_loop_spec w (address wallet) cur
              (scanForDeposits (rpc w) (address wallet)
                 (lastScannedBlock wallet + 1) (Some cur)) db)
    as (db1 & t1 & Hloop & Hus & Hwal & _).
  rewrite Hloop. simpl. right. exists wid, wallet, cur, db1, t1.
  destruct (firestore w (OpUpdatePlatformWalletBlock wid cur)) as [[]|e2]; simpl;
    [destruct (platform_wallets db1 !! wid); simpl|].
  - split_and!; try done; try lia. right. by rewrite Hwal.
  - split_and!; try done; try lia. left. exact Hwal.
  - split_and!; try done; try lia. left. exact Hwal.
Qed.

Lemma scannedTo_wallet cursor db :
  scannedTo cursor db ->
  exists wid wallet,
    platform_wallets db = {[wid := wallet]} /\
    arbitrumWallet db = Some (wid, wallet) /\
    network wallet = "arbitrum" /\ lastScannedBlock wallet = cursor.
Proof.
  intros (wid & wallet & Hw & Hn & Hc). exists wid, wallet.
  split_and!; try done.
  unfold arbitrumWallet. rewrite Hw.
  rewrite map_filter_singleton_True by exact Hn.
  by rewrite map_to_list_singleton.
Qed.

(** A scan by an honest node keeps the store past the gap. *)
Lemma scan_pastGap gapEnd w db :
  honest (rpc w) -> pastGap gapEnd db -> pastGap gapEnd (exec (scanForNewDeposits w) db).
Proof.
  intros Hhonest [(cursor & Hge & Hscanned) Hrecords].
  destruct (scannedTo_wallet cursor db Hscanned) as (wid & wallet & Hw & Harb & Hn & Hc).
  destruct (scan_step w db)
    as [[Hd Hp]|(wid' & wallet' & cur & db1 & t1 & Harb' & Hcur & Hle & Hloop & Hd & Hp)].
  - split.
    + exists cursor. split; [exact Hge|]. exists wid, wallet. by rewrite Hp.
    + intros id x. rewrite Hd. apply Hrecords.
  - rewrite Harb in Harb'. injection Harb' as <- <-. split.
    + destruct Hp as [Hp|Hp].
      * exists cursor. split; [exact Hge|]. exists wid, wallet. by rewrite Hp.
      * exists cur. split; [lia|]. eexists wid, _. rewrite Hp, Hw.
        rewrite alter_singleton_eq. split_and!; [reflexivity | exact Hn | reflexivity].
    + intros id x. rewrite Hd.
      destruct (record_loop_spec w (address wallet) cur
                  (scanForDeposits (rpc w) (address wallet)
                     (lastScannedBlock wallet + 1) (Some cur)) db)
        as (db1' & t1' & Hloop' & _ & _ & Hkeep & Hnew & _).
      rewrite Hloop in Hloop'. injection Hloop' as <- <-. intros Hx.
      destruct (deposits db !! id) as [y|] eqn:Hy.
      * rewrite (Hkeep id y Hy) in Hx. injection Hx as <-. exact (Hrecords id y Hy).
      * destruct (Hnew id x Hy Hx) as (t & Hin & _ & ->). simpl.
        pose proof (scanForDeposits_from _ _ _ _ _ Hhonest Hin). lia.
Qed.

#[local] Instance sameBlocks_refl : Reflexive sameBlocks.
Proof. intros a. split; [reflexivity|]. intros id x Hx. eauto. Qed.

#[local] Instance sameBlocks_trans : Transitive sameBlocks.
Proof.
  intros a b c [Hw1 Hd1] [Hw2 Hd2]. split; [congruence|].
  intros id x'' Hx''. destruct (Hd2 id x'' Hx'') as (x' & Hx' & Hb2).
  destruct (Hd1 id x' Hx') as (x & Hx & Hb1). exists x. split; [exact Hx|congruence].
Qed.

Lemma alter_sameBlocks f id (db : Db) :
  (forall x, depBlockNumber (f x) = depBlockNumber x) ->
  sameBlocks db
    {| deposits := alter f id (deposits db); users := users db;
       platform_wallets := platform_wallets db |}.
Proof.
  intros Hf. split; [reflexivity|]. simpl. intros j x' Hx'.
  destruct (decide (id = j)) as [<-|Hne].
  - rewrite lookup_alter_eq in Hx'. destruct (deposits db !! id) as [x|]; [|discriminate].
    simpl in Hx'. injection Hx' as <-. exists x. split; [reflexivity|apply Hf].
  - rewrite lookup_alter_ne in Hx' by exact Hne. eauto.
Qed.

(** The crediting loop writes no wallet and adds no record. *)
Lemma processPending_sameBlocks w :
  preserves sameBlocks (fun _ => True) (processPendingDeposits w).
Proof.
  unfold processPendingDeposits, getPendingDeposits,
    processDeposit, refreshConfirmations, creditDeposit, creditFailed,
    updateDepositStatus, creditUserDeposit, getUserById, updateDoc,
    setDeposits, call.
  walk.
  all: try exact I.
  all: try (apply alter_sameBlocks; intros y; reflexivity).
  all: split; [reflexivity|]; simpl; intros j x' Hx'; eauto.
Qed.

Lemma tick_pastGap gapEnd w db :
  honest (rpc w) -> pastGap gapEnd db -> pastGap gapEnd (exec (monitorDeposits w) db).
Proof.
  intros Hhonest Hgap. unfold exec. rewrite monitorDeposits_run. simpl.
  pose proof (scan_pastGap gapEnd w db Hhonest Hgap) as [(cursor & Hge & Hsc) Hrec].
  destruct (processPending_sameBlocks w (exec (scanForNewDeposits w) db))
    as [[Hw Hd] _].
  split.
  - exists cursor. split; [exact Hge|].
    destruct Hsc as (wid & wallet & Hp & Hn & Hc). exists wid, wallet.
    split_and!; try done. by rewrite Hw.
  - intros id x' Hx'. destruct (Hd id x' Hx') as (x & Hx & ->). exact (Hrec id x Hx).
Qed.

Lemma runs_pastGap gapEnd worlds : forall db,
  Forall (fun w => honest (rpc w)) worlds ->
  pastGap gapEnd db -> pastGap gapEnd (runs monitorDeposits worlds db).1.
Proof.
  induction worlds as [|w worlds IH]; intros db Hall Hgap; simpl; [exact Hgap|].
  apply Forall_cons in Hall as [Hw Hall].
  specialize (IH _ Hall (tick_pastGap gapEnd w db Hw Hgap)).
  destruct (runs monitorDeposits worlds (exec (monitorDeposits w) db)) as [db2 t2].
  exact IH.
Qed.

Lemma archiveNode_honest height : honest (archiveNode height).
Proof.
  intros addr f t logs H. simpl in H. injection H as <-.
  destruct (Z.leb_spec f 100), (Z.leb_spec 100 t); simpl; repeat constructor;
    simpl; lia.
Qed.

(** C4 fails on the code.  The cursor is at block 99 and block 100 holds a
    transfer of 100 to the platform, which the node returns for every
    range that holds block 100.  In one tick the event query times out
    (the scanner answers such a failure with an empty list), in another
    the store refuses the record of the transfer: each of the two ticks
    records nothing and still moves the cursor to 112.  The next tick, with
    everything in order, scans from block 113 and finds nothing.  From
    then on no run of ticks against nodes that answer with the blocks
    asked for ever records a transfer of a block up to 112: the deposit in
    block 100 is missed for good. *)
Theorem failed_scan_is_never_repeated :
  let missed := exec (scanForNewDeposits rpcTimeout) emptyLedger in
  let refused := exec (scanForNewDeposits addRefused) emptyLedger in
  (lastScannedBlock <$> platform_wallets emptyLedger !! "w1" = Some 99 /\
   blockNumber <$> scanForDeposits (archiveNode 112) "0xplatform" 100 (Some 112)
     = [100] /\
   (forall height, honest (archiveNode height))) /\
  (scanForDeposits_try (rpc rpcTimeout) "0xplatform" 100 (Some 112)
     = Throw "timeout exceeded" /\
   trace (scanForNewDeposits rpcTimeout) emptyLedger = [LogScanning 100 112] /\
   deposits missed = ∅ /\
   lastScannedBlock <$> platform_wallets missed !! "w1" = Some 112) /\
  (trace (scanForNewDeposits addRefused) emptyLedger
     = [LogScanning 100 112; LogError "UNAVAILABLE"] /\
   deposits refused = ∅ /\
   lastScannedBlock <$> platform_wallets refused !! "w1" = Some 112) /\
  (trace (monitorDeposits (worldOf (archiveNode 120))) missed = [LogScanning 113 120] /\
   deposits (exec (monitorDeposits (worldOf (archiveNode 120))) missed) = ∅) /\
  (forall later : list World,
     Forall (fun w => honest (rpc w)) later ->
     forall db, db = missed \/ db = refused ->
     forall id x,
       deposits (runs monitorDeposits later db).1 !! id = Some x ->
       112 < depBlockNumber x).
Proof.
  intros missed refused.
  assert (Hgap : forall db, db = missed \/ db = refused -> pastGap 112 db).
  { intros db Hdb. split.
    - exists 112. split; [lia|].
      exists "w1", {| address := "0xplatform"; network := "arbitrum";
                      lastScannedBlock := 112 |}.
      destruct Hdb as [->| ->]; split_and!; try reflexivity;
        vm_compute; reflexivity.
    - intros id x Hx. exfalso.
      assert (Hempty : deposits db = ∅)
        by (destruct Hdb as [->| ->]; vm_compute; reflexivity).
      rewrite Hempty, lookup_empty in Hx. discriminate. }
  split; [split_and!|split; [split_and!|split; [split_and!|split; [split|]]]].
  - vm_compute; reflexivity.
  - vm_compute; reflexivity.
  - apply archiveNode_honest.
  - vm_compute; reflexivity.
  - vm_compute; reflexivity.
  - vm_compute; reflexivity.
  - vm_compute; reflexivity.
  - vm_compute; reflexivity.
  - vm_compute; reflexivity.
  - vm_compute; reflexivity.
  - vm_compute; reflexivity.
  - vm_compute; reflexivity.
  - intros later Hall db Hdb id x.
    destruct (runs_pastGap 112 later db Hall (Hgap db Hdb)) as [_ Hrec].
    apply Hrec.
Qed.

End CursorFacts.

(** * Handlers that overlap *)

Module OverlapFacts.
Import Chain Deposits DepositSpec LedgerSpec Overlap.
Import Scenarios DepositFacts LedgerFacts.

(** The two halves are the loop body. *)
Lemma recordTransfer_halves w platformAddress currentBlock t db :
  recordTransfer w platformAddress currentBlock t db
  = bind (checkTransfer w t) (addTransfer w platformAddress currentBlock t) db.
Proof.
  unfold recordTransfer, checkTransfer, addTransfer, getDepositByTxHash, createDeposit.
  unfold_monad.
  destruct (firestore w (OpGetDepositByTxHash (txHash t))) as [[]|e0]; simpl;
    [|reflexivity].
  destruct (head (depositsWithTxHash (txHash t) db)) as [entry|]; simpl;
    [reflexivity|].
  destruct (Qlt_le_dec (amount t) 10); simpl; [reflexivity|].
  destruct (firestore w (OpAddDeposit (txHash t))) as [[]|e1]; simpl; [|reflexivity].
  destruct (firestore w (OpReadDeposit (fresh (dom (deposits db))))) as [[]|e2];
    reflexivity.
Qed.

(** The check for a record of the transaction and the insert of one are
    two awaited calls with nothing between them that holds the store.  Two
    passes over a new transfer, each making its query before the other has
    inserted, both find nothing and both insert: the store then holds two
    records of the one transaction, under two ids. *)
Theorem overlapping_passes_record_twice (wA wB : World) (platformAddress : string)
    (currentBlockA currentBlockB : Z) (t : Transfer) (db : Db) :
  (forall op, firestore wA op = Ok tt) ->
  (forall op, firestore wB op = Ok tt) ->
  head (depositsWithTxHash (txHash t) db) = None ->
  ~ (amount t < 10)%Q ->
  (forall db0,
     recordTransfer wA platformAddress currentBlockA t db0
     = bind (checkTransfer wA t) (addTransfer wA platformAddress currentBlockA t) db0) /\
  exists idA idB,
    idA <> idB /\
    deposits db !! idA = None /\ deposits db !! idB = None /\
    deposits (exec (overlappingPasses wA wB platformAddress currentBlockA
                      currentBlockB t) db) !! idA
      = Some (recordOf wA platformAddress currentBlockA t) /\
    deposits (exec (overlappingPasses wA wB platformAddress currentBlockA
                      currentBlockB t) db) !! idB
      = Some (recordOf wB platformAddress currentBlockB t) /\
    ~ uniqueHashes (exec (overlappingPasses wA wB platformAddress currentBlockA
                            currentBlockB t) db).
Proof.
  intros HA HB Hnone Hbig. split; [intros db0; apply recordTransfer_halves|].
  set (idA := fresh (dom (deposits db))).
  set (recA := recordOf wA platformAddress currentBlockA t).
  set (idB := fresh (dom (<[idA := recA]> (deposits db)))).
  set (recB := recordOf wB platformAddress currentBlockB t).
  assert (Hrun : exec (overlappingPasses wA wB platformAddress currentBlockA
                         currentBlockB t) db
                 = {| deposits := <[idB := recB]> (<[idA := recA]> (deposits db));
                      users := users db; platform_wallets := platform_wallets db |}).
  { unfold exec, overlappingPasses, checkTransfer, addTransfer, getDepositByTxHash,
      createDeposit.
    unfold_monad. rewrite !HA, !HB. simpl. rewrite Hnone. simpl.
    destruct (Qlt_le_dec (amount t) 10) as [Hlt|_]; [contradiction|]. simpl.
    rewrite !HA, !HB. simpl. reflexivity. }
  assert (HfreshA : deposits db !! idA = None) by apply fresh_id_unused.
  assert (HfreshB : <[idA := recA]> (deposits db) !! idB = None)
    by apply fresh_id_unused.
  assert (Hne : idA <> idB).
  { intros Heq. rewrite <- Heq, lookup_insert_eq in HfreshB. discriminate. }
  assert (HB0 : deposits db !! idB = None).
  { rewrite lookup_insert_ne in HfreshB by exact Hne. exact HfreshB. }
  assert (H1 : deposits (exec (overlappingPasses wA wB platformAddress currentBlockA
                                 currentBlockB t) db) !! idA = Some recA).
  { rewrite Hrun. simpl. rewrite lookup_insert_ne by congruence.
    apply lookup_insert_eq. }
  assert (H2 : deposits (exec (overlappingPasses wA wB platformAddress currentBlockA
                                 currentBlockB t) db) !! idB = Some recB).
  { rewrite Hrun. simpl. apply lookup_insert_eq. }
  exists idA, idB. split_and!; try assumption.
  intros Hu. apply Hne. exact (Hu idA idB recA recB H1 H2 eq_refl).
Qed.

Lemma overlapping_passes_record_twice_witness :
  exists idA idB,
    idA <> idB /\
    deposits emptyLedger !! idA = None /\ deposits emptyLedger !! idB = None /\
    deposits (exec (overlappingPasses calm calm "0xplatform" 112 112
                      {| txHash := "0xabc"; from := "0xsender";
                         amount := formatUnits 100 0; blockNumber := 100 |})
                emptyLedger) !! idA
      = Some (recordOf calm "0xplatform" 112
                {| txHash := "0xabc"; from := "0xsender";
                   amount := formatUnits 100 0; blockNumber := 100 |}) /\
    deposits (exec (overlappingPasses calm calm "0xplatform" 112 112
                      {| txHash := "0xabc"; from := "0xsender";
                         amount := formatUnits 100 0; blockNumber := 100 |})
                emptyLedger) !! idB
      = Some (recordOf calm "0xplatform" 112
                {| txHash := "0xabc"; from := "0xsender";
                   amount := formatUnits 100 0; blockNumber := 100 |}) /\
    ~ uniqueHashes (exec (overlappingPasses calm calm "0xplatform" 112 112
                            {| txHash := "0xabc"; from := "0xsender";
                               amount := formatUnits 100 0; blockNumber := 100 |})
                      emptyLedger).
Proof.
  apply (overlapping_passes_record_twice calm calm "0xplatform" 112 112
           {| txHash := "0xabc"; from := "0xsender";
              amount := formatUnits 100 0; blockNumber := 100 |} emptyLedger).
  - intros op. reflexivity.
  - intros op. reflexivity.
  - reflexivity.
  - vm_compute. discriminate.
Defined.

End OverlapFacts.

Module ExportOverlapFacts.
Import KeyExports ExportOverlap.

Lemma getExport_halves firestore clock secretPath store :
  getExport firestore clock secretPath store
  = afterRead firestore secretPath (getKeyExport firestore clock secretPath store).
Proof.
  unfold getExport, afterRead.
  destruct (getKeyExport firestore clock secretPath store) as [[[doc|]|e] store1];
    reflexivity.
Qed.

(** The handler reads the document and deletes it in two awaited calls
    and never marks it as read.  Two requests for a path whose document is
    unread and unexpired, the second reading before the first has deleted,
    are both served the private key.  One after the other, the second is
    answered "not found". *)
Theorem overlapping_requests_are_both_served
    (firestoreA firestoreB : ExportOp -> Result unit) (clockA clockB : Z)
    (secretPath : string) (store : ExportStore) (doc : KeyExport) :
  store !! secretPath = Some doc ->
  accessed doc = false ->
  clockA <= toMillis (expiresAt doc) ->
  clockB <= toMillis (expiresAt doc) ->
  (forall op, firestoreA op = Ok tt) ->
  (forall op, firestoreB op = Ok tt) ->
  (forall firestore clock store0,
     getExport firestore clock secretPath store0
     = afterRead firestore secretPath
         (getKeyExport firestore clock secretPath store0)) /\
  overlappingRequests firestoreA firestoreB clockA clockB secretPath store
  = (Served (privateKey doc), Served (privateKey doc), delete secretPath store) /\
  getExport firestoreA clockA secretPath store
  = (Served (privateKey doc), delete secretPath store) /\
  getExport firestoreB clockB secretPath (delete secretPath store)
  = (NotFound, delete secretPath store).
Proof.
  intros Hdoc Hacc HliveA HliveB HA HB.
  assert (HltA : Z.ltb (toMillis (expiresAt doc)) clockA = false)
    by (apply Z.ltb_ge; exact HliveA).
  assert (HltB : Z.ltb (toMillis (expiresAt doc)) clockB = false)
    by (apply Z.ltb_ge; exact HliveB).
  split; [intros f c s0; apply getExport_halves|]. split_and!.
  - unfold overlappingRequests, afterRead, getKeyExport, deleteKeyExport.
    repeat (progress (rewrite ?HA, ?HB, ?Hdoc, ?HltA, ?HltB, ?Hacc;
                      cbn beta iota zeta)).
    by rewrite delete_delete_eq.
  - unfold getExport, getKeyExport, deleteKeyExport.
    rewrite !HA, Hdoc, HltA, Hacc. reflexivity.
  - unfold getExport, getKeyExport.
    rewrite !HB, lookup_delete_eq. reflexivity.
Qed.

Lemma overlapping_requests_are_both_served_witness :
  overlappingRequests (fun _ => Ok tt) (fun _ => Ok tt) 2000 2001 "path-1"
    {[ "path-1" := {| privateKey := "0xkey"; createdAt := Timestamp_now 1000;
                      expiresAt := Timestamp_now 31000; accessed := false |} ]}
  = (Served "0xkey", Served "0xkey",
     delete "path-1"
       {[ "path-1" := {| privateKey := "0xkey"; createdAt := Timestamp_now 1000;
                         expiresAt := Timestamp_now 31000; accessed := false |} ]}).
Proof.
  apply (overlapping_requests_are_both_served (fun _ => Ok tt) (fun _ => Ok tt)
           2000 2001 "path-1" _
           {| privateKey := "0xkey"; createdAt := Timestamp_now 1000;
              expiresAt := Timestamp_now 31000; accessed := false |}).
  - apply lookup_singleton_eq.
  - reflexivity.
  - vm_compute. discriminate.
  - vm_compute. discriminate.
  - intros op. reflexivity.
  - intros op. reflexivity.
Defined.

End ExportOverlapFacts.
